(** * foundry-anvil-playground: the JSON-RPC balance reader and its ABI micro-codec

    A shallow embedding of the TypeScript sources
      - [src/app/page.tsx]                 (batched [eth_getBalance], module [Page])
      - [src/components/TokenBalances.tsx] (ERC-20 panel, module [TokenBalances])
      - [src/components/NFTBalances.tsx]   (ERC-721 panel, module [NFTBalances])
    together with the fragment of the JavaScript standard library these files
    call (module [JS]).

    Conventions.
    - A JavaScript string is the list of its UTF-16 code units ([jsstring]).
    - A [bigint] is a [Z].  A [number] is [number] below: the code only ever
      produces integer-valued doubles, NaN and the infinities.
    - A function that may throw returns a [completion]; an [async] function is
      a tree of network requests ([async]) whose leaves are completions.
    - React state is a record; every event handler and every resumption after
      an [await] is one transition of the component. *)

From Stdlib Require Import ZArith Lia String Ascii List.
From stdpp Require Import base option list gmap.
Import ListNotations.

Local Open Scope Z_scope.

(* ===================================================================== *)
(** * The JavaScript fragment                                             *)
(* ===================================================================== *)

Module JS.

(** ** Strings *)

Definition jsstring := list Z.

(** The code units of an ASCII/Latin-1 literal. *)
Definition lit (s : string) : jsstring :=
  map (fun a => Z.of_N (N_of_ascii a)) (list_ascii_of_string s).

Definition jslength (s : jsstring) : Z := Z.of_nat (length s).

(** ** Completions: normal return or a thrown exception *)

Inductive exn :=
| SyntaxError
| TypeError
| RangeError
| Error (message : jsstring).

Inductive completion (A : Type) :=
| Return (a : A)
| Throw (e : exn).
Arguments Return {A} a.
Arguments Throw {A} e.

Definition cbind {A B} (c : completion A) (k : A -> completion B) : completion B :=
  match c with
  | Return a => k a
  | Throw e => Throw e
  end.

(** [try { c } catch { h }] *)
Definition try_catch {A} (c : completion A) (h : exn -> completion A) : completion A :=
  match c with
  | Return a => Return a
  | Throw e => h e
  end.

Notation "'let*' x ':=' c 'in' k" := (cbind c (fun x => k))
  (at level 10, x name, c at level 100, k at level 200).

(** ** Numbers

    [Num z] is the double whose value is the integer [z]; the two zeros are
    identified ([-0 === 0] and [ToUint16(-0) = 0], the only places a zero is
    inspected). *)

Inductive number :=
| Num (z : Z)
| NaN
| PosInfinity
| NegInfinity.

(** [m / 2^e] rounded to the nearest integer, ties to even. *)
Definition round_half_even (m e : Z) : Z :=
  let q := m / 2 ^ e in
  let r := m mod 2 ^ e in
  let half := 2 ^ (e - 1) in
  if r <? half then q
  else if half <? r then q + 1
  else if Z.even q then q else q + 1.

(** The Number value for a mathematical integer (ECMA-262's 𝔽 on integers):
    exact below 2^53, otherwise rounded to 53 significant bits, and an
    infinity from 2^1024 on. *)
Definition F (z : Z) : number :=
  let a := Z.abs z in
  if a <? 2 ^ 53 then Num z
  else
    let e := Z.log2 a - 52 in
    let m := round_half_even a e * 2 ^ e in
    if 2 ^ 1024 <=? m then (if z <? 0 then NegInfinity else PosInfinity)
    else Num (Z.sgn z * m).

(** [Number(b)] for a bigint [b]. *)
Definition Number_of_BigInt (b : Z) : number := F b.

Definition number_add (a b : number) : number :=
  match a, b with
  | Num x, Num y => F (x + y)
  | NaN, _ | _, NaN => NaN
  | PosInfinity, NegInfinity | NegInfinity, PosInfinity => NaN
  | PosInfinity, _ | _, PosInfinity => PosInfinity
  | NegInfinity, _ | _, NegInfinity => NegInfinity
  end.

Definition number_mul (a b : number) : number :=
  match a, b with
  | Num x, Num y => F (x * y)
  | NaN, _ | _, NaN => NaN
  | Num x, PosInfinity | PosInfinity, Num x =>
      if x =? 0 then NaN else if 0 <? x then PosInfinity else NegInfinity
  | Num x, NegInfinity | NegInfinity, Num x =>
      if x =? 0 then NaN else if 0 <? x then NegInfinity else PosInfinity
  | PosInfinity, PosInfinity | NegInfinity, NegInfinity => PosInfinity
  | PosInfinity, NegInfinity | NegInfinity, PosInfinity => NegInfinity
  end.

(** [Number.isFinite] *)
Definition Number_isFinite (n : number) : bool :=
  match n with Num _ => true | _ => false end.

(** [a <= b] on numbers (false as soon as one side is NaN). *)
Definition number_le (a b : number) : bool :=
  match a, b with
  | NaN, _ | _, NaN => false
  | NegInfinity, _ => true
  | _, PosInfinity => true
  | Num x, Num y => x <=? y
  | _, _ => false
  end.

(** [v === 0] *)
Definition is_zero (v : number) : bool :=
  match v with Num z => z =? 0 | _ => false end.

(** [ToUint16] *)
Definition ToUint16 (v : number) : Z :=
  match v with
  | Num z => z mod 65536
  | _ => 0
  end.

(** [String.fromCharCode(...arr)].  The limit an engine puts on the number
    of arguments of a call is not part of the language and is left out:
    the properties of calls with a list of unbounded length are stated for
    lists of at most [Ref.max_spread_bytes] elements. *)
Definition String_fromCharCode (arr : list number) : jsstring := map ToUint16 arr.

(** [ToIntegerOrInfinity] followed by the clamping every string method
    applies to an index: the result lies in [0, len].  [relative] is set for
    the arguments of [slice], where a negative index counts from the end. *)
Definition clamp_index (relative : bool) (len : Z) (n : number) : Z :=
  match n with
  | NaN => 0
  | PosInfinity => len
  | NegInfinity => 0
  | Num z => if z <? 0 then (if relative then Z.max (len + z) 0 else 0)
             else Z.min z len
  end.

(** ** String methods *)

(** [s.slice(from, to)] *)
Definition slice (s : jsstring) (from to : number) : jsstring :=
  let len := jslength s in
  let a := clamp_index true len from in
  let b := clamp_index true len to in
  take (Z.to_nat (b - a)) (drop (Z.to_nat a) s).

(** [s.slice(from)] *)
Definition slice_from (s : jsstring) (from : number) : jsstring :=
  slice s from PosInfinity.

Fixpoint code_units_eqb (a b : jsstring) : bool :=
  match a, b with
  | [], [] => true
  | x :: a', y :: b' => (x =? y) && code_units_eqb a' b'
  | _, _ => false
  end.

(** [s.startsWith(p)] *)
Definition startsWith (s p : jsstring) : bool :=
  code_units_eqb (take (length p) s) p.

(** The first [n] code units of [fill] repeated for ever. *)
Fixpoint repeat_fill (n : nat) (fill cur : jsstring) : jsstring :=
  match n with
  | O => []
  | S n' =>
      match cur with
      | c :: cur' => c :: repeat_fill n' fill cur'
      | [] =>
          match fill with
          | c :: cur' => c :: repeat_fill n' fill cur'
          | [] => []
          end
      end
  end.

(** [s.padStart(maxLength, fill)] *)
Definition padStart (s : jsstring) (maxLength : number) (fill : jsstring) : jsstring :=
  let len := jslength s in
  let int_max := clamp_index false (2 ^ 53 - 1) maxLength in
  if int_max <=? len then s
  else match fill with
       | [] => s
       | _ => repeat_fill (Z.to_nat (int_max - len)) fill [] ++ s
       end.

(** [s.replace(/0+$/g, "")]: the only match of [0+$] is the maximal run of
    ['0'] that ends the string. *)
Fixpoint replace_trailing_zeros (s : jsstring) : jsstring :=
  match s with
  | [] => []
  | c :: r =>
      match replace_trailing_zeros r with
      | [] => if c =? 48 then [] else [c]
      | r' => c :: r'
      end
  end.

(** [s.toLowerCase()] on the Basic Latin block, where every string accepted
    by [isAddress] lives; other code units are left as they are. *)
Definition lower_unit (c : Z) : Z :=
  if (65 <=? c) && (c <=? 90) then c + 32 else c.

Definition toLowerCase (s : jsstring) : jsstring := map lower_unit s.

(** White space and line terminators ([StrWhiteSpaceChar]). *)
Definition isStrWhiteSpaceChar (c : Z) : bool :=
  ((9 <=? c) && (c <=? 13)) || (c =? 32) || (c =? 160) || (c =? 5760)
  || ((8192 <=? c) && (c <=? 8202)) || (c =? 8232) || (c =? 8233)
  || (c =? 8239) || (c =? 8287) || (c =? 12288) || (c =? 65279).

Fixpoint trimStart (s : jsstring) : jsstring :=
  match s with
  | c :: r => if isStrWhiteSpaceChar c then trimStart r else s
  | [] => []
  end.

Definition trimEnd (s : jsstring) : jsstring := rev (trimStart (rev s)).

(** [s.trim()] *)
Definition trim (s : jsstring) : jsstring := trimEnd (trimStart s).

(** ** Digits *)

(** The value of a code unit as a digit in radix up to 36. *)
Definition digit_value (c : Z) : option Z :=
  if (48 <=? c) && (c <=? 57) then Some (c - 48)
  else if (97 <=? c) && (c <=? 122) then Some (c - 87)
  else if (65 <=? c) && (c <=? 90) then Some (c - 55)
  else None.

Definition radix_digit (radix c : Z) : option Z :=
  match digit_value c with
  | Some d => if d <? radix then Some d else None
  | None => None
  end.

(** The longest prefix of radix digits, most significant first. *)
Fixpoint digit_prefix (radix : Z) (s : jsstring) : list Z :=
  match s with
  | c :: r =>
      match radix_digit radix c with
      | Some d => d :: digit_prefix radix r
      | None => []
      end
  | [] => []
  end.

(** All of [s] as radix digits, or [None]. *)
Fixpoint all_digits (radix : Z) (s : jsstring) : option (list Z) :=
  match s with
  | [] => Some []
  | c :: r =>
      match radix_digit radix c, all_digits radix r with
      | Some d, Some ds => Some (d :: ds)
      | _, _ => None
      end
  end.

Definition digits_value (radix : Z) (ds : list Z) : Z :=
  fold_left (fun acc d => acc * radix + d) ds 0.

(** ** [parseInt(s, 16)] *)

Definition parseInt16 (s : jsstring) : number :=
  let s1 := trimStart s in
  let '(sign, s2) :=
    match s1 with
    | 45 :: r => (-1, r)
    | 43 :: r => (1, r)
    | _ => (1, s1)
    end in
  let s3 :=
    match s2 with
    | 48 :: x :: r => if (x =? 120) || (x =? 88) then r else s2
    | _ => s2
    end in
  match digit_prefix 16 s3 with
  | [] => NaN
  | ds => F (sign * digits_value 16 ds)
  end.

(** ** [BigInt(s)] for a string [s] ([StringToBigInt]) *)

Definition unsigned_literal (radix : Z) (s : jsstring) : option Z :=
  match s with
  | [] => None
  | _ => option_map (digits_value radix) (all_digits radix s)
  end.

Definition StringToBigInt (s : jsstring) : option Z :=
  match trim s with
  | [] => Some 0
  | 48 :: x :: r =>
      if (x =? 120) || (x =? 88) then unsigned_literal 16 r
      else if (x =? 111) || (x =? 79) then unsigned_literal 8 r
      else if (x =? 98) || (x =? 66) then unsigned_literal 2 r
      else unsigned_literal 10 (48 :: x :: r)
  | 45 :: r => option_map Z.opp (unsigned_literal 10 r)
  | 43 :: r => unsigned_literal 10 r
  | t => unsigned_literal 10 t
  end.

Definition BigInt (s : jsstring) : completion Z :=
  match StringToBigInt s with
  | Some z => Return z
  | None => Throw SyntaxError
  end.

(** [BigInt(n)] for a number [n]: a [RangeError] unless [n] is an integer. *)
Definition BigInt_of_number (n : number) : completion Z :=
  match n with
  | Num z => Return z
  | _ => Throw RangeError
  end.

(** ** [b.toString()] for a bigint [b] *)

Fixpoint decimal_digits (fuel : nat) (n : Z) (acc : jsstring) : jsstring :=
  let acc' := (48 + n mod 10) :: acc in
  match fuel with
  | O => acc'
  | S fuel' => if n <? 10 then acc' else decimal_digits fuel' (n / 10) acc'
  end.

Definition BigInt_toString (b : Z) : jsstring :=
  if b <? 0 then 45 :: decimal_digits (Z.to_nat (Z.log2 (- b))) (- b) []
  else decimal_digits (Z.to_nat (Z.log2 b)) b [].

End JS.


(* ===================================================================== *)
(** * JSON-RPC over [fetch], and [async] functions                        *)
(* ===================================================================== *)

Module Rpc.
Import JS.

(** [type RpcResponse<T>], declared alike in the three files.  [result] and
    [error] are optional fields. *)
Record RpcError := { code : Z; message : jsstring }.

Record RpcResponse := {
  id : Z;
  result : option jsstring;
  error : option RpcError;
}.

(** The elements of [params: unknown[]] the code builds: a string, or the
    call object [{ to, data }]. *)
Inductive param :=
| PString (s : jsstring)
| PCall (to data : jsstring).

(** What [await fetch(...)] followed by [await res.json()] delivers, for a
    body declared of type [B]. *)
Inductive http_body (B : Type) :=
| NotJson
| Json (b : B).
Arguments NotJson {B}.
Arguments Json {B} b.

Inductive fetch_result (B : Type) :=
| Rejected
| Response (ok : bool) (status : Z) (body : http_body B).
Arguments Rejected {B}.
Arguments Response {B} ok status body.

(** An [async] function that has issued requests of type [Q] and is resumed
    with answers of type [R]: either it has settled, or it is suspended at an
    [await] on the network. *)
Inductive async (Q R A : Type) :=
| Done (c : completion A)
| Await (q : Q) (k : R -> async Q R A).
Arguments Done {Q R A} c.
Arguments Await {Q R A} q k.

Fixpoint abind {Q R A B} (p : async Q R A) (k : A -> async Q R B) : async Q R B :=
  match p with
  | Done (Return a) => k a
  | Done (Throw e) => Done (Throw e)
  | Await q c => Await q (fun r => abind (c r) k)
  end.

(** [try { p } catch { h }] around awaits. *)
Fixpoint atry {Q R A} (p : async Q R A) (h : exn -> async Q R A) : async Q R A :=
  match p with
  | Done (Return a) => Done (Return a)
  | Done (Throw e) => h e
  | Await q c => Await q (fun r => atry (c r) h)
  end.

(** Resume a suspended function with one answer. *)
Definition feed {Q R A} (p : async Q R A) (r : R) : async Q R A :=
  match p with
  | Done c => Done c
  | Await _ k => k r
  end.

(** Run against the answers of the network, in order; [None] while the
    function is still waiting for an answer. *)
Fixpoint run {Q R A} (p : async Q R A) (answers : list R) : option (completion A) :=
  match p with
  | Done c => Some c
  | Await _ k =>
      match answers with
      | [] => None
      | r :: rest => run (k r) rest
      end
  end.

Notation "'await*' x ':=' p 'in' k" := (abind p (fun x => k))
  (at level 10, x name, p at level 100, k at level 200).

End Rpc.

(* ===================================================================== *)
(** * [src/components/TokenBalances.tsx]: the functions                   *)
(* ===================================================================== *)

Module TokenBalances.
Import JS Rpc.

(** [type RpcRequest]; the [id] is [Date.now()] and is never compared with
    the [id] of the reply. *)
Record RpcRequest := { method : jsstring; params : list param }.

Record TokenMeta := {
  address : jsstring;
  symbol : jsstring;
  decimals : number;
}.

Definition Async := async RpcRequest (fetch_result RpcResponse).

(** [[a-fA-F0-9]] *)
Definition isHexChar (c : Z) : bool :=
  ((48 <=? c) && (c <=? 57)) || ((65 <=? c) && (c <=? 70))
  || ((97 <=? c) && (c <=? 102)).

(** [/^0x[a-fA-F0-9]{40}$/.test(addr)] *)
Definition isAddress (addr : jsstring) : bool :=
  match addr with
  | 48 :: 120 :: r => (length r =? 40)%nat && forallb isHexChar r
  | _ => false
  end.

(** What [rpcCall] makes of the answer: the three [throw]s, the rejection of
    [fetch] (a [TypeError]) and of [res.json()] (a [SyntaxError]). *)
Definition rpc_result (res : fetch_result RpcResponse) : completion jsstring :=
  match res with
  | Rejected => Throw TypeError
  | Response ok status body =>
      if negb ok then Throw (Error (lit "RPC HTTP error " ++ BigInt_toString status))
      else
        match body with
        | NotJson => Throw SyntaxError
        | Json body =>
            match error body with
            | Some e => Throw (Error (message e))
            | None =>
                match result body with
                | None => Throw (Error (lit "Empty RPC result"))
                | Some r => Return r
                end
            end
        end
  end.

Definition rpcCall (method : jsstring) (params : list param) : Async jsstring :=
  Await {| method := method; params := params |} (fun res => Done (rpc_result res)).

Definition pad32 (hexNo0x : jsstring) : jsstring :=
  padStart hexNo0x (Num 64) (lit "0").

(** [address.replace(/^0x/, "")] *)
Definition strip_0x (s : jsstring) : jsstring :=
  match s with
  | 48 :: 120 :: r => r
  | _ => s
  end.

Definition encodeBalanceOf (address : jsstring) : jsstring :=
  let selector := lit "70a08231" in
  let addr := strip_0x (toLowerCase address) in
  lit "0x" ++ selector ++ pad32 addr.

Definition encodeDecimals : jsstring := lit "0x313ce567".

Definition encodeSymbol : jsstring := lit "0x95d89b41".

Definition hexToBigInt (hex : jsstring) : completion Z := BigInt hex.

(** [for (let i = 0; i < 64; i += 2) { ...; if (v === 0) break; arr.push(v) }].
    [fuel] bounds the number of rounds; the 32 rounds given in [decode_body]
    are never used up before [i] reaches 64 ([bytes32_loop_fuel]). *)
Fixpoint bytes32_loop (fuel : nat) (bytes : jsstring) (i : Z) (arr : list number)
  : list number :=
  match fuel with
  | O => arr
  | S fuel' =>
      if i <? 64 then
        let byteHex := slice bytes (Num i) (Num (i + 2)) in
        let v := parseInt16 byteHex in
        if is_zero v then arr
        else bytes32_loop fuel' bytes (i + 2) (arr ++ [v])
      else arr
  end.

(** [for (let i = 0; i < bytesHex.length; i += 2) arr.push(parseInt(...))].
    One round per code unit is more fuel than the loop uses
    ([dynamic_loop_fuel]). *)
Fixpoint dynamic_loop (fuel : nat) (bytesHex : jsstring) (i : Z) (arr : list number)
  : list number :=
  match fuel with
  | O => arr
  | S fuel' =>
      if i <? jslength bytesHex then
        dynamic_loop fuel' bytesHex (i + 2)
          (arr ++ [parseInt16 (slice bytesHex (Num i) (Num (i + 2)))])
      else arr
  end.

(** [Number(BigInt("0x" + word))] *)
Definition word_to_number (word : jsstring) : completion number :=
  let* b := BigInt (lit "0x" ++ word) in
  Return (Number_of_BigInt b).

(** [s || null] *)
Definition or_null (s : jsstring) : option jsstring :=
  match s with
  | [] => None
  | _ => Some s
  end.

(** The body of the [try] block. *)
Definition decode_body (data : jsstring) : completion (option jsstring) :=
  if jslength data =? 64 then
    let bytes := data in
    let arr := bytes32_loop 32 bytes 0 [] in
    Return (or_null (String_fromCharCode arr))
  else
    let* offset := word_to_number (slice data (Num 0) (Num 64)) in
    let* len := word_to_number (slice data (Num 64) (Num 128)) in
    let start := Num 128 in
    let bytesHex := slice data start (number_add start (number_mul len (Num 2))) in
    let arr := dynamic_loop (length bytesHex) bytesHex 0 [] in
    Return (Some (String_fromCharCode arr)).

Definition tryDecodeStringFromAbi (hex : jsstring) : completion (option jsstring) :=
  match hex with
  | [] => Return None
  | _ =>
      if negb (startsWith hex (lit "0x")) then Return None
      else
        let data := slice_from hex (Num 2) in
        try_catch (decode_body data) (fun _ => Return None)
  end.

(** [if (s) symbol = s], starting from [symbol = "?"] *)
Definition symbol_or_default (s : option jsstring) : jsstring :=
  match s with
  | Some (c :: r) => c :: r
  | _ => lit "?"
  end.

Definition getTokenMeta (address : jsstring) : Async TokenMeta :=
  await* decimalsHex :=
    rpcCall (lit "eth_call") [PCall address encodeDecimals; PString (lit "latest")] in
  await* b := Done (hexToBigInt decimalsHex) in
  let decimals := Number_of_BigInt b in
  await* symbol :=
    atry
      (await* symbolRes :=
         rpcCall (lit "eth_call") [PCall address encodeSymbol; PString (lit "latest")] in
       await* s := Done (tryDecodeStringFromAbi symbolRes) in
       Done (Return (symbol_or_default s)))
      (fun _ => Done (Return (lit "?"))) in
  Done (Return {| address := address;
                  symbol := symbol;
                  decimals := if Number_isFinite decimals then decimals else Num 18 |}).

Definition getTokenBalance (token wallet : jsstring) : Async Z :=
  let data := encodeBalanceOf wallet in
  await* res := rpcCall (lit "eth_call") [PCall token data; PString (lit "latest")] in
  Done (hexToBigInt res).

(** [formatUnits].  Bigints are unbounded integers, as in the language; the
    size at which an engine gives up on [10n ** BigInt(decimals)] or on
    [padStart] is left out, and the properties of the positive branch are
    stated for [decimals] up to [Ref.max_decimals]. *)
Definition formatUnits (wei : Z) (decimals : number) : completion jsstring :=
  if number_le decimals (Num 0) then Return (BigInt_toString wei)
  else
    let* d := BigInt_of_number decimals in
    let base := 10 ^ d in
    let whole := Z.quot wei base in
    let frac := Z.rem wei base in
    let fracStr := padStart (BigInt_toString frac) decimals (lit "0") in
    let trimmed := replace_trailing_zeros fracStr in
    Return (match trimmed with
            | [] => BigInt_toString whole
            | _ => BigInt_toString whole ++ lit "." ++ trimmed
            end).

End TokenBalances.

(* ===================================================================== *)
(** * [src/components/NFTBalances.tsx]: the functions                     *)
(* ===================================================================== *)

Module NFTBalances.
Import JS Rpc.

Record RpcRequest := { method : jsstring; params : list param }.

Record NftMeta := {
  address : jsstring;
  name : jsstring;
  symbol : jsstring;
}.

Definition Async := async RpcRequest (fetch_result RpcResponse).

Definition rpc_result (res : fetch_result RpcResponse) : completion jsstring :=
  match res with
  | Rejected => Throw TypeError
  | Response ok status body =>
      if negb ok then Throw (Error (lit "RPC HTTP error " ++ BigInt_toString status))
      else
        match body with
        | NotJson => Throw SyntaxError
        | Json body =>
            match error body with
            | Some e => Throw (Error (message e))
            | None =>
                match result body with
                | None => Throw (Error (lit "Empty RPC result"))
                | Some r => Return r
                end
            end
        end
  end.

Definition rpcCall (method : jsstring) (params : list param) : Async jsstring :=
  Await {| method := method; params := params |} (fun res => Done (rpc_result res)).

(** [isAddress], [pad32], [encodeBalanceOf], [encodeSymbol] and
    [hexToBigInt] have the same text as in [TokenBalances.tsx]. *)
Definition isAddress (addr : jsstring) : bool :=
  match addr with
  | 48 :: 120 :: r => (length r =? 40)%nat && forallb TokenBalances.isHexChar r
  | _ => false
  end.

Definition pad32 (hexNo0x : jsstring) : jsstring :=
  padStart hexNo0x (Num 64) (lit "0").

Definition encodeBalanceOf (address : jsstring) : jsstring :=
  let selector := lit "70a08231" in
  let addr := TokenBalances.strip_0x (toLowerCase address) in
  lit "0x" ++ selector ++ pad32 addr.

Definition encodeName : jsstring := lit "0x06fdde03".

Definition encodeSymbol : jsstring := lit "0x95d89b41".

Definition hexToBigInt (hex : jsstring) : completion Z := BigInt hex.

(** The body of the [try] block: the two loops are those of
    [TokenBalances.tsx]; the offset word is not read here. *)
Definition decode_body (data : jsstring) : completion (option jsstring) :=
  if jslength data =? 64 then
    let bytes := data in
    let arr := TokenBalances.bytes32_loop 32 bytes 0 [] in
    Return (TokenBalances.or_null (String_fromCharCode arr))
  else
    let* len := TokenBalances.word_to_number (slice data (Num 64) (Num 128)) in
    let start := Num 128 in
    let bytesHex := slice data start (number_add start (number_mul len (Num 2))) in
    let arr := TokenBalances.dynamic_loop (length bytesHex) bytesHex 0 [] in
    Return (Some (String_fromCharCode arr)).

Definition tryDecodeStringFromAbi (hex : jsstring) : completion (option jsstring) :=
  match hex with
  | [] => Return None
  | _ =>
      if negb (startsWith hex (lit "0x")) then Return None
      else
        let data := slice_from hex (Num 2) in
        try_catch (decode_body data) (fun _ => Return None)
  end.

(** One of the two [try { ...; if (n) name = n } catch {}] blocks. *)
Definition best_effort (address call : jsstring) : Async jsstring :=
  atry
    (await* hex := rpcCall (lit "eth_call") [PCall address call; PString (lit "latest")] in
     await* n := Done (tryDecodeStringFromAbi hex) in
     Done (Return (TokenBalances.symbol_or_default n)))
    (fun _ => Done (Return (lit "?"))).

Definition getNftMeta (address : jsstring) : Async NftMeta :=
  await* name := best_effort address encodeName in
  await* symbol := best_effort address encodeSymbol in
  Done (Return {| address := address; name := name; symbol := symbol |}).

Definition getNftBalance (token wallet : jsstring) : Async Z :=
  let data := encodeBalanceOf wallet in
  await* res := rpcCall (lit "eth_call") [PCall token data; PString (lit "latest")] in
  Done (hexToBigInt res).

End NFTBalances.

(* ===================================================================== *)
(** * [src/app/page.tsx]: the batched balance query                       *)
(* ===================================================================== *)

Module Page.
Import JS Rpc.

Record RpcRequest := {
  req_id : Z;
  method : jsstring;
  params : list param;
}.

Definition Async := async (list RpcRequest) (fetch_result (list RpcResponse)).

(** [addresses.map((addr, i) => ({ jsonrpc, id: i + 1, method, params }))] *)
Definition build_requests (addresses : list jsstring) : list RpcRequest :=
  imap (fun i addr => {| req_id := Z.of_nat i + 1;
                         method := lit "eth_getBalance";
                         params := [PString addr; PString (lit "latest")] |})
       addresses.

(** [for (const r of data) byId.set(r.id, r)] *)
Definition index_by_id (data : list RpcResponse) : gmap Z RpcResponse :=
  foldl (fun byId r => <[id r := r]> byId) ∅ data.

(** The callback of [reqs.map]. *)
Definition slot (byId : gmap Z RpcResponse) (r : RpcRequest) : option Z :=
  match byId !! req_id r with
  | None => None
  | Some resp =>
      match error resp with
      | Some _ => None
      | None =>
          match result resp with
          | None | Some [] => None
          | Some hex =>
              match BigInt hex with
              | Return b => Some b
              | Throw _ => None
              end
          end
      end
  end.

(** The re-association step: the [Map] and the final [reqs.map]. *)
Definition correlate (reqs : list RpcRequest) (data : list RpcResponse)
  : list (option Z) :=
  let byId := index_by_id data in
  map (slot byId) reqs.

Definition fetchBalances (addresses : list jsstring) : Async (list (option Z)) :=
  let reqs := build_requests addresses in
  atry
    (Await reqs (fun res =>
       match res with
       | Rejected => Done (Throw TypeError)
       | Response ok status body =>
           if negb ok then
             Done (Throw (Error (lit "RPC HTTP error: " ++ BigInt_toString status)))
           else
             match body with
             | NotJson => Done (Throw SyntaxError)
             | Json data => Done (Return (correlate reqs data))
             end
       end))
    (fun _ => Done (Return (map (fun _ => None) addresses))).

Definition formatEtherFixed18 (wei : Z) : jsstring :=
  let base := 10 ^ 18 in
  let whole := Z.quot wei base in
  let frac := Z.rem wei base in
  let fracStr := padStart (BigInt_toString frac) (Num 18) (lit "0") in
  BigInt_toString whole ++ lit "." ++ fracStr.

(** What [Home] puts in the row of an address:
    [wei == null ? "N/A" : `${formatEtherFixed18(wei)} ETH`]. *)
Definition row_display (wei : option Z) : jsstring :=
  match wei with
  | None => lit "N/A"
  | Some w => formatEtherFixed18 w ++ lit " ETH"
  end.

(** [balances.every((b) => b === null)]: whether [Home] shows the line
    "Could not reach Anvil". *)
Definition unreachable_banner (balances : list (option Z)) : bool :=
  forallb (fun b => match b with None => true | Some _ => false end) balances.

End Page.

(* ===================================================================== *)
(** * The two panels as transition systems                                *)
(* ===================================================================== *)

(** [TokenBalances()] and [NFTBalances()] are the same component up to the
    metadata record, the two network functions and the rendering of a raw
    balance; [Panel] is that component, and [TokenPanel], [NFTPanel] below
    are its two instances.

    The state is the tuple of [useState] cells.  A handler sees the cells of
    the latest render; the code after an [await] sees the variables it
    captured before suspending and updates the cells through functional
    updates ([setTokens((prev) => ...)]), that is, on their current value.
    A suspended call is a [task]; the network resumes it with [Answer]. *)

Module Panel.
Import JS Rpc.

Section Component.

Context {Meta Q : Type}.

Local Abbreviation R := (fetch_result RpcResponse).

(** [meta.address] *)
Variable address : Meta -> jsstring.
(** [getTokenMeta] / [getNftMeta] *)
Variable getMeta : jsstring -> async Q R Meta.
(** [getTokenBalance] / [getNftBalance] *)
Variable getBalance : jsstring -> jsstring -> async Q R Z.
(** [formatUnits(raw, meta.decimals)] / [raw.toString()] *)
Variable display : Meta -> Z -> completion jsstring.

(** The message stored by [setError]. *)
Inductive ui_error :=
| InvalidAddress
| AlreadyRegistered
| MetadataFailed (e : exn).

Record state := {
  tokenInput : jsstring;
  tokens : list Meta;
  activeAddr : option jsstring;
  walletByToken : gmap (list Z) jsstring;
  balances : gmap (list Z) (option jsstring);
  error : option ui_error;
  loadingToken : bool;
  isRefreshing : bool;
  updatedAt : option Z;
}.

Definition set_tokenInput (v : jsstring) (s : state) : state :=
  {| tokenInput := v; tokens := tokens s; activeAddr := activeAddr s;
     walletByToken := walletByToken s; balances := balances s; error := error s;
     loadingToken := loadingToken s; isRefreshing := isRefreshing s;
     updatedAt := updatedAt s |}.

Definition set_tokens (v : list Meta) (s : state) : state :=
  {| tokenInput := tokenInput s; tokens := v; activeAddr := activeAddr s;
     walletByToken := walletByToken s; balances := balances s; error := error s;
     loadingToken := loadingToken s; isRefreshing := isRefreshing s;
     updatedAt := updatedAt s |}.

Definition set_activeAddr (v : option jsstring) (s : state) : state :=
  {| tokenInput := tokenInput s; tokens := tokens s; activeAddr := v;
     walletByToken := walletByToken s; balances := balances s; error := error s;
     loadingToken := loadingToken s; isRefreshing := isRefreshing s;
     updatedAt := updatedAt s |}.

Definition set_walletByToken (v : gmap (list Z) jsstring) (s : state) : state :=
  {| tokenInput := tokenInput s; tokens := tokens s; activeAddr := activeAddr s;
     walletByToken := v; balances := balances s; error := error s;
     loadingToken := loadingToken s; isRefreshing := isRefreshing s;
     updatedAt := updatedAt s |}.

Definition set_balances (v : gmap (list Z) (option jsstring)) (s : state) : state :=
  {| tokenInput := tokenInput s; tokens := tokens s; activeAddr := activeAddr s;
     walletByToken := walletByToken s; balances := v; error := error s;
     loadingToken := loadingToken s; isRefreshing := isRefreshing s;
     updatedAt := updatedAt s |}.

Definition set_error (v : option ui_error) (s : state) : state :=
  {| tokenInput := tokenInput s; tokens := tokens s; activeAddr := activeAddr s;
     walletByToken := walletByToken s; balances := balances s; error := v;
     loadingToken := loadingToken s; isRefreshing := isRefreshing s;
     updatedAt := updatedAt s |}.

Definition set_loadingToken (v : bool) (s : state) : state :=
  {| tokenInput := tokenInput s; tokens := tokens s; activeAddr := activeAddr s;
     walletByToken := walletByToken s; balances := balances s; error := error s;
     loadingToken := v; isRefreshing := isRefreshing s;
     updatedAt := updatedAt s |}.

Definition set_isRefreshing (v : bool) (s : state) : state :=
  {| tokenInput := tokenInput s; tokens := tokens s; activeAddr := activeAddr s;
     walletByToken := walletByToken s; balances := balances s; error := error s;
     loadingToken := loadingToken s; isRefreshing := v;
     updatedAt := updatedAt s |}.

Definition set_updatedAt (v : option Z) (s : state) : state :=
  {| tokenInput := tokenInput s; tokens := tokens s; activeAddr := activeAddr s;
     walletByToken := walletByToken s; balances := balances s; error := error s;
     loadingToken := loadingToken s; isRefreshing := isRefreshing s;
     updatedAt := v |}.

(** A call suspended at an [await]: [addToken] inside [getMeta], or
    [refresh] inside [getBalance] together with the variables it captured,
    [meta] and its own [cancelled]. *)
Inductive task :=
| Adding (p : async Q R Meta)
| Refreshing (meta : Meta) (cancelled : bool) (p : async Q R Z).

Record world := {
  ui : state;
  pending : list task;
}.

(** [isAddress]: the same text in both files. *)
Definition isAddress (addr : jsstring) : bool := TokenBalances.isAddress addr.

(** [t.address.toLowerCase() === addr.toLowerCase()] *)
Definition same_address (addr : jsstring) (t : Meta) : bool :=
  bool_decide (toLowerCase (address t) = toLowerCase addr).

(** [activeAddr ? (walletByToken[activeAddr] || "") : ""] *)
Definition activeWallet (s : state) : jsstring :=
  match activeAddr s with
  | Some (c :: a) =>
      match walletByToken s !! (c :: a) with
      | Some w => w
      | None => []
      end
  | _ => []
  end.

Definition validWallet (s : state) : bool := isAddress (activeWallet s).

(** [addToken], up to its [await]. *)
Definition addToken (w : world) : world :=
  let s := set_error None (ui w) in
  let addr := trim (tokenInput s) in
  if negb (isAddress addr) then
    {| ui := set_error (Some InvalidAddress) s; pending := pending w |}
  else if existsb (same_address addr) (tokens s) then
    {| ui := set_error (Some AlreadyRegistered) s; pending := pending w |}
  else
    {| ui := set_loadingToken true s;
       pending := pending w ++ [Adding (getMeta addr)] |}.

(** [addToken], from the [await] on: [c] is what [getMeta] settled with. *)
Definition addToken_resume (c : completion Meta) (s : state) : state :=
  let s' :=
    match c with
    | Return meta =>
        set_activeAddr (Some (address meta))
          (set_tokenInput [] (set_tokens (tokens s ++ [meta]) s))
    | Throw e => set_error (Some (MetadataFailed e)) s
    end in
  set_loadingToken false s'.

Definition removeToken (addr : jsstring) (s : state) : state :=
  let s1 := set_tokens (filter (fun t => negb (same_address addr t)) (tokens s)) s in
  let s2 := set_balances (delete (toLowerCase addr) (balances s1)) s1 in
  let s3 := set_walletByToken (delete addr (walletByToken s2)) s2 in
  set_activeAddr
    (match activeAddr s3 with
     | Some (c :: cur) =>
         if bool_decide (toLowerCase (c :: cur) = toLowerCase addr) then None
         else Some (c :: cur)
     | other => other
     end) s3.

(** [refresh], up to its [await].  [cancelled] starts [false]; the branches
    that [return] early run the [finally] block at once. *)
Definition refresh (now : Z) (w : world) : world :=
  let s := set_isRefreshing true (ui w) in
  let finish s' := {| ui := set_isRefreshing false s'; pending := pending w |} in
  match activeAddr s with
  | Some (c :: a) =>
      let activeAddr := c :: a in
      match find (same_address activeAddr) (tokens s) with
      | None => finish s
      | Some meta =>
          if negb (validWallet s) then
            finish (set_updatedAt (Some now)
                      (set_balances (<[toLowerCase activeAddr := None]> (balances s)) s))
          else
            {| ui := s;
               pending := pending w
                          ++ [Refreshing meta false
                                (getBalance (address meta) (activeWallet s))] |}
      end
  | _ => finish s
  end.

(** [refresh], from the [await] on.  The function then returns the closure
    [() => { cancelled = true }]: that closure is the value of the promise,
    it exists only once these lines have run, and neither caller of
    [refresh()] keeps the promise. *)
Definition refresh_resume (now : Z) (meta : Meta) (cancelled : bool)
    (c : completion Z) (s : state) : state :=
  let key := toLowerCase (address meta) in
  let s1 :=
    match (let* raw := c in display meta raw) with
    | Return formatted =>
        if negb cancelled then
          set_updatedAt (Some now)
            (set_balances (<[key := Some formatted]> (balances s)) s)
        else s
    | Throw _ =>
        if negb cancelled then
          set_updatedAt (Some now) (set_balances (<[key := None]> (balances s)) s)
        else s
    end in
  if negb cancelled then set_isRefreshing false s1 else s1.

(** The effect that keeps the active tab valid. *)
Definition keep_active_valid (s : state) : state :=
  match activeAddr s with
  | Some (c :: a) =>
      if existsb (same_address (c :: a)) (tokens s) then s
      else set_activeAddr (option_map address (head (tokens s))) s
  | _ =>
      match tokens s with
      | t :: _ => set_activeAddr (Some (address t)) s
      | [] => s
      end
  end.

Inductive event :=
| Input (v : jsstring)
| AddToken
| RemoveToken (addr : jsstring)
| SelectTab (addr : jsstring)
| EditWallet (token v : jsstring)
| Refresh
| KeepActiveValid
| Answer (i : nat) (r : R).

(** The network answers the request task [i] is waiting on. *)
Definition answer (now : Z) (i : nat) (r : R) (w : world) : world :=
  match pending w !! i with
  | None => w
  | Some (Adding p) =>
      match feed p r with
      | Done c => {| ui := addToken_resume c (ui w); pending := delete i (pending w) |}
      | p' => {| ui := ui w; pending := <[i := Adding p']> (pending w) |}
      end
  | Some (Refreshing meta cancelled p) =>
      match feed p r with
      | Done c =>
          {| ui := refresh_resume now meta cancelled c (ui w);
             pending := delete i (pending w) |}
      | p' => {| ui := ui w; pending := <[i := Refreshing meta cancelled p']> (pending w) |}
      end
  end.

(** One transition; [now] is the value of [Date.now()]. *)
Definition step (now : Z) (e : event) (w : world) : world :=
  match e with
  | Input v => {| ui := set_tokenInput (trim v) (ui w); pending := pending w |}
  | AddToken => addToken w
  | RemoveToken addr => {| ui := removeToken addr (ui w); pending := pending w |}
  | SelectTab addr => {| ui := set_activeAddr (Some addr) (ui w); pending := pending w |}
  | EditWallet token v =>
      {| ui := set_walletByToken (<[token := trim v]> (walletByToken (ui w))) (ui w);
         pending := pending w |}
  | Refresh => refresh now w
  | KeepActiveValid => {| ui := keep_active_valid (ui w); pending := pending w |}
  | Answer i r => answer now i r w
  end.

(** A run: the events with the clock reading at each of them. *)
Definition run_events (trace : list (Z * event)) (w : world) : world :=
  foldl (fun w '(now, e) => step now e w) w trace.

(** The first render, once the list saved in [localStorage] is loaded. *)
Definition init (stored : list Meta) : world :=
  {| ui := {| tokenInput := []; tokens := stored; activeAddr := None;
              walletByToken := ∅; balances := ∅; error := None;
              loadingToken := false; isRefreshing := false; updatedAt := None |};
     pending := [] |}.

(** What the rendered page lets happen: the register button carries
    [disabled={loadingToken}]. *)
Definition ui_enabled (w : world) (e : event) : bool :=
  match e with
  | AddToken => negb (loadingToken (ui w))
  | _ => true
  end.

(** The states reached when the handlers are called freely. *)
Inductive reachable (stored : list Meta) : world -> Prop :=
| reachable_init : reachable stored (init stored)
| reachable_step w now e :
    reachable stored w -> reachable stored (step now e w).

(** The states reached through the rendered page. *)
Inductive ui_reachable (stored : list Meta) : world -> Prop :=
| ui_reachable_init : ui_reachable stored (init stored)
| ui_reachable_step w now e :
    ui_reachable stored w -> ui_enabled w e = true ->
    ui_reachable stored (step now e w).

(** The registry holds no two entries with the same lowercase address. *)
Definition distinct_addresses (ts : list Meta) : Prop :=
  NoDup (map (fun t => toLowerCase (address t)) ts).

End Component.

End Panel.

Module TokenPanel.
Import JS Rpc.

Definition display (meta : TokenBalances.TokenMeta) (raw : Z) : completion jsstring :=
  TokenBalances.formatUnits raw (TokenBalances.decimals meta).

Definition world := @Panel.world TokenBalances.TokenMeta TokenBalances.RpcRequest.

Definition step : Z -> Panel.event -> world -> world :=
  Panel.step TokenBalances.address TokenBalances.getTokenMeta
    TokenBalances.getTokenBalance display.

Definition run_events : list (Z * Panel.event) -> world -> world :=
  Panel.run_events TokenBalances.address TokenBalances.getTokenMeta
    TokenBalances.getTokenBalance display.

Definition reachable :=
  Panel.reachable TokenBalances.address TokenBalances.getTokenMeta
    TokenBalances.getTokenBalance display.

Definition ui_reachable :=
  Panel.ui_reachable TokenBalances.address TokenBalances.getTokenMeta
    TokenBalances.getTokenBalance display.

End TokenPanel.

Module NFTPanel.
Import JS Rpc.

Definition display (meta : NFTBalances.NftMeta) (raw : Z) : completion jsstring :=
  Return (BigInt_toString raw).

Definition world := @Panel.world NFTBalances.NftMeta NFTBalances.RpcRequest.

Definition step : Z -> Panel.event -> world -> world :=
  Panel.step NFTBalances.address NFTBalances.getNftMeta
    NFTBalances.getNftBalance display.

Definition run_events : list (Z * Panel.event) -> world -> world :=
  Panel.run_events NFTBalances.address NFTBalances.getNftMeta
    NFTBalances.getNftBalance display.

Definition reachable :=
  Panel.reachable NFTBalances.address NFTBalances.getNftMeta
    NFTBalances.getNftBalance display.

Definition ui_reachable :=
  Panel.ui_reachable NFTBalances.address NFTBalances.getNftMeta
    NFTBalances.getNftBalance display.

End NFTPanel.

Import JS.

(* ===================================================================== *)
(** * Reference notions used to state the properties                      *)
(* ===================================================================== *)

Module Ref.

(** The value of one hexadecimal digit. *)
Definition hex_digit (c : Z) : Z :=
  if (48 <=? c) && (c <=? 57) then c - 48
  else if (97 <=? c) && (c <=? 102) then c - 87
  else if (65 <=? c) && (c <=? 70) then c - 55
  else 0.

Definition is_hex (s : jsstring) : Prop :=
  Forall (fun c => TokenBalances.isHexChar c = true) s.

(** The bytes written by a run of hex digits, two digits per byte; a lone
    last digit stands for a byte of its own. *)
Fixpoint hex_bytes (s : jsstring) : list Z :=
  match s with
  | hi :: lo :: r => (16 * hex_digit hi + hex_digit lo) :: hex_bytes r
  | [d] => [hex_digit d]
  | [] => []
  end.

(** The big-endian unsigned integer written by a run of hex digits. *)
Definition hex_value (w : jsstring) : Z :=
  fold_left (fun acc c => 16 * acc + hex_digit c) w 0.

(** A string cut into pieces of two code units; a lone last unit is a
    piece of its own. *)
Fixpoint chunks2 (s : jsstring) : list jsstring :=
  match s with
  | a :: b :: r => [a; b] :: chunks2 r
  | [a] => [[a]]
  | [] => []
  end.

(** The numbers before the first one that is [=== 0]. *)
Fixpoint until_zero_number (vs : list number) : list number :=
  match vs with
  | v :: r => if is_zero v then [] else v :: until_zero_number r
  | [] => []
  end.

(** The bytes before the first zero byte. *)
Fixpoint until_zero (bs : list Z) : list Z :=
  match bs with
  | b :: r => if b =? 0 then [] else b :: until_zero r
  | [] => []
  end.

(** The length announced by a dynamic payload: the value of its second
    32-byte word, hex positions 64..128. *)
Definition announced_length (data : jsstring) : Z :=
  hex_value (take 64 (drop 64 data)).

(** The bytes at the [L] byte positions that follow the two header words,
    from hex position 128 on. *)
Definition payload_bytes (data : jsstring) : list Z :=
  hex_bytes (take (Z.to_nat (2 * announced_length data)) (drop 128 data)).

(** [String.fromCharCode(...arr)] passes one argument per byte of the
    payload, and an engine serves a call only up to its limit on the number
    of arguments (65536 in JavaScriptCore; set by the size of the stack in
    V8 and SpiderMonkey, above 10^5).  The dynamic decoder is specified for
    payloads of at most this many bytes, which every engine serves. *)
Definition max_spread_bytes : Z := 32768.

(** The largest [decimals] a token can report: the ERC-20 [decimals()] is a
    [uint8]. *)
Definition max_decimals : Z := 255.

(** The 22 hex digits. *)
Definition hex_chars : list Z :=
  [48; 49; 50; 51; 52; 53; 54; 55; 56; 57;
   65; 66; 67; 68; 69; 70; 97; 98; 99; 100; 101; 102].

Definition number_eqb (a b : number) : bool :=
  match a, b with
  | Num x, Num y => x =? y
  | NaN, NaN | PosInfinity, PosInfinity | NegInfinity, NegInfinity => true
  | _, _ => false
  end.

(** [n] is [+Infinity] or a number not below [bound]. *)
Definition at_least (n : number) (bound : Z) : Prop :=
  match n with
  | PosInfinity => True
  | Num m => bound <= m
  | _ => False
  end.

(** A decimal digit string and its value. *)
Definition is_decimal (s : jsstring) : Prop :=
  Forall (fun c => 48 <= c <= 57) s.

Definition decimal_value (s : jsstring) : Z :=
  fold_left (fun acc c => 10 * acc + (c - 48)) s 0.

(** [padLeftTo32Bytes] as the specification words it: an error for more than
    64 digits, otherwise zeros on the left up to 64 digits. *)
Inductive pad_outcome :=
| Padded (digits : jsstring)
| OversizeValue.

Definition padLeftTo32Bytes_spec (hexDigits : jsstring) : pad_outcome :=
  if (64 <? length hexDigits)%nat then OversizeValue
  else Padded (repeat 48 (64 - length hexDigits) ++ hexDigits).

(** The [symbol()] step failed: the call threw, or the decoder returned
    [null]. *)
Definition symbol_step_failed (r2 : Rpc.fetch_result Rpc.RpcResponse) : Prop :=
  (exists e, TokenBalances.rpc_result r2 = Throw e)
  \/ (exists s, TokenBalances.rpc_result r2 = Return s
                /\ TokenBalances.tryDecodeStringFromAbi s = Return None).

(** [decimals] as [getTokenMeta] stores it. *)
Definition stored_decimals (b : Z) : number :=
  if Number_isFinite (Number_of_BigInt b) then Number_of_BigInt b else Num 18.

(** A successful reply carrying [hex]. *)
Definition reply_ok (hex : jsstring) : Rpc.fetch_result Rpc.RpcResponse :=
  Rpc.Response true 200
    (Rpc.Json {| Rpc.id := 1; Rpc.result := Some hex; Rpc.error := None |}).

(** The hex string of 2^1024: [Number] of it is [Infinity]. *)
Definition hex_2_pow_1024 : jsstring := lit "0x1" ++ repeat 48 256.

(** The response that carries the id [k], if there is one. *)
Definition response_with_id (k : Z) (data : list Rpc.RpcResponse)
  : option Rpc.RpcResponse :=
  find (fun r => bool_decide (Rpc.id r = k)) data.

(** The balance a response stands for: none for an error object, a missing
    or empty result, or a result [BigInt] rejects. *)
Definition response_value (resp : Rpc.RpcResponse) : option Z :=
  match Rpc.error resp, Rpc.result resp with
  | None, Some (c :: hex) =>
      match BigInt (c :: hex) with
      | Return b => Some b
      | Throw _ => None
      end
  | _, _ => None
  end.

(** The result for the request with id [k]. *)
Definition result_for (k : Z) (data : list Rpc.RpcResponse) : option Z :=
  match response_with_id k data with
  | Some resp => response_value resp
  | None => None
  end.

(** Three requests with ids 3, 1, 2 and their answers in the order 2, 3, 1. *)
Definition request_with_id (k : Z) : Page.RpcRequest :=
  {| Page.req_id := k; Page.method := lit "eth_getBalance"; Page.params := [] |}.

Definition answer_with_id (k : Z) (hex : jsstring) : Rpc.RpcResponse :=
  {| Rpc.id := k; Rpc.result := Some hex; Rpc.error := None |}.

Definition requests_312 : list Page.RpcRequest :=
  [request_with_id 3; request_with_id 1; request_with_id 2].

Definition answers_231 : list Rpc.RpcResponse :=
  [answer_with_id 2 (lit "0x2bc"); answer_with_id 3 (lit "0x3de");
   answer_with_id 1 (lit "0x1fa")].

Definition answers_123 : list Rpc.RpcResponse :=
  [answer_with_id 1 (lit "0x1fa"); answer_with_id 2 (lit "0x2bc");
   answer_with_id 3 (lit "0x3de")].

(** Every way in which [p] can settle normally gives a record whose
    address is [addr]. *)
Fixpoint returns_address {Meta Q R} (address : Meta -> jsstring) (addr : jsstring)
    (p : Rpc.async Q R Meta) : Prop :=
  match p with
  | Rpc.Done (Return m) => address m = addr
  | Rpc.Done (Throw _) => True
  | Rpc.Await _ k => forall r, returns_address address addr (k r)
  end.

(** The suspended [getMeta] of a task that is a registration. *)
Definition adding {Meta Q} (t : @Panel.task Meta Q)
  : option (Rpc.async Q (Rpc.fetch_result Rpc.RpcResponse) Meta) :=
  match t with
  | Panel.Adding p => Some p
  | Panel.Refreshing _ _ _ => None
  end.

Definition lower_addresses {Meta} (address : Meta -> jsstring) (ts : list Meta)
  : list jsstring :=
  (fun t => toLowerCase (address t)) <$> ts.

(** The invariant of the registry: distinct lowercase addresses, and at
    most one registration in flight, which is for an address that is not in
    the registry and is in flight only while [loadingToken] is set. *)
Definition registry_inv {Meta Q} (address : Meta -> jsstring)
    (w : @Panel.world Meta Q) : Prop :=
  NoDup (lower_addresses address (Panel.tokens (Panel.ui w)))
  /\ match omap adding (Panel.pending w) with
     | [] => True
     | [p] =>
         Panel.loadingToken (Panel.ui w) = true
         /\ exists addr,
              returns_address address addr p
              /\ toLowerCase addr ∉ lower_addresses address (Panel.tokens (Panel.ui w))
     | _ => False
     end.

(** A sample token, two wallets, and the replies of a node to [decimals()]
    and [symbol()]. *)
Definition sample_token : jsstring := lit "0x5FbDB2315678afecb367f032d93F642f64180aa3".
Definition wallet_1 : jsstring := lit "0xf39Fd6e51aad88F6F4ce6aB8827279cffFb92266".
Definition wallet_2 : jsstring := lit "0x70997970C51812dc3A010C7d01b50e0d17dc79C8".

Definition decimals_reply : Rpc.fetch_result Rpc.RpcResponse := reply_ok (lit "0x12").

Definition symbol_reply : Rpc.fetch_result Rpc.RpcResponse :=
  reply_ok (lit "0x5553444300000000000000000000000000000000000000000000000000000000").

Definition sample_meta : TokenBalances.TokenMeta :=
  {| TokenBalances.address := sample_token;
     TokenBalances.symbol := lit "USDC";
     TokenBalances.decimals := Num 18 |}.

Definition sample_nft : NFTBalances.NftMeta :=
  {| NFTBalances.address := sample_token;
     NFTBalances.name := lit "USDC";
     NFTBalances.symbol := lit "USDC" |}.

(** One registration through the page. *)
Definition register_once : list (Z * Panel.event) :=
  [(0, Panel.Input sample_token); (1, Panel.AddToken);
   (2, Panel.Answer 0 decimals_reply); (3, Panel.Answer 0 symbol_reply)].

(** A second token. *)
Definition second_token : jsstring := lit "0xe7f1725E7734CE288F8367e1Bb143E90bb3F0512".

(** Through the page: two tokens are registered one after the other, then
    the first address is typed again in lowercase and the register button
    is pressed. *)
Definition register_two_then_first_again : list (Z * Panel.event) :=
  [(0, Panel.Input sample_token); (1, Panel.AddToken);
   (2, Panel.Answer 0 decimals_reply); (3, Panel.Answer 0 symbol_reply);
   (4, Panel.Input second_token); (5, Panel.AddToken);
   (6, Panel.Answer 0 decimals_reply); (7, Panel.Answer 0 symbol_reply);
   (8, Panel.Input (toLowerCase sample_token)); (9, Panel.AddToken)].

(** [addToken] called a second time while the first call is waiting for the
    metadata of the same address. *)
Definition register_twice : list (Z * Panel.event) :=
  [(0, Panel.Input sample_token); (1, Panel.AddToken); (2, Panel.AddToken);
   (3, Panel.Answer 0 decimals_reply); (4, Panel.Answer 0 symbol_reply);
   (5, Panel.Answer 0 decimals_reply); (6, Panel.Answer 0 symbol_reply)].

(** A refresh for [wallet_1] is in flight; the wallet is edited to
    [wallet_2] and refreshed; the second request is answered (balance 0),
    then the first (balance 1.5 tokens). *)
Definition wallet_edited_in_flight : list (Z * Panel.event) :=
  [(0, Panel.KeepActiveValid);
   (1, Panel.EditWallet sample_token wallet_1);
   (2, Panel.Refresh);
   (3, Panel.EditWallet sample_token wallet_2);
   (4, Panel.Refresh)].

Definition answers_out_of_order : list (Z * Panel.event) :=
  [(5, Panel.Answer 1 (reply_ok (lit "0x0")));
   (6, Panel.Answer 0 (reply_ok (lit "0x14d1120d7b160000")))].

(** The [cancelled] variable of a suspended [refresh] is still [false]. *)
Definition not_cancelled {Meta Q} (t : @Panel.task Meta Q) : Prop :=
  match t with
  | Panel.Refreshing _ cancelled _ => cancelled = false
  | Panel.Adding _ => True
  end.

(** The request a suspended call is waiting on. *)
Definition awaited {Q R A} (p : Rpc.async Q R A) : option Q :=
  match p with
  | Rpc.Await q _ => Some q
  | Rpc.Done _ => None
  end.

(** The [eth_call] of [balanceOf(wallet)] on [token], as either panel sends
    it. *)
Definition balance_params (token wallet : jsstring) : list Rpc.param :=
  [Rpc.PCall token (TokenBalances.encodeBalanceOf wallet); Rpc.PString (lit "latest")].

(** A fixed-point string without the trailing zeros of its fraction, and
    without the dot when no fraction digit is left. *)
Definition strip_fraction (s : jsstring) : jsstring :=
  let t := replace_trailing_zeros s in
  match last t with
  | Some c => if c =? 46 then removelast t else t
  | None => t
  end.

(** A dynamic payload whose offset word is not a number. *)
Definition bad_offset_word : jsstring :=
  lit "0xzz00000000000000000000000000000000000000000000000000000000000020"
  ++ lit "0000000000000000000000000000000000000000000000000000000000000003"
  ++ lit "4142430000000000000000000000000000000000000000000000000000000000".

(** A best-effort field of [getNftMeta] failed at the answer [r]: the call
    threw, or the decoder returned [null]. *)
Definition nft_field_failed (r : Rpc.fetch_result Rpc.RpcResponse) : Prop :=
  (exists e, NFTBalances.rpc_result r = Throw e)
  \/ (exists s, NFTBalances.rpc_result r = Return s
                /\ NFTBalances.tryDecodeStringFromAbi s = Return None).

(** The [eth_call] either panel sends for a balance. *)
Definition token_balance_request (token wallet : jsstring) : TokenBalances.RpcRequest :=
  {| TokenBalances.method := lit "eth_call";
     TokenBalances.params := balance_params token wallet |}.

Definition nft_balance_request (token wallet : jsstring) : NFTBalances.RpcRequest :=
  {| NFTBalances.method := lit "eth_call";
     NFTBalances.params := balance_params token wallet |}.

(** Sample payloads. *)
Definition usdc_bytes32 : jsstring :=
  lit "0x5553444300000000000000000000000000000000000000000000000000000000".

Definition abc_dynamic : jsstring :=
  lit "0x0000000000000000000000000000000000000000000000000000000000000020"
  ++ lit "0000000000000000000000000000000000000000000000000000000000000003"
  ++ lit "4142430000000000000000000000000000000000000000000000000000000000".

(** Length 10 announced, three bytes present. *)
Definition abc_truncated : jsstring :=
  lit "0x0000000000000000000000000000000000000000000000000000000000000020"
  ++ lit "000000000000000000000000000000000000000000000000000000000000000a"
  ++ lit "414243".

(** An odd number of hex digits: the last byte has one digit. *)
Definition abc_odd : jsstring :=
  lit "0x0000000000000000000000000000000000000000000000000000000000000020"
  ++ lit "0000000000000000000000000000000000000000000000000000000000000003"
  ++ lit "41424".

(** A length word that is not a number. *)
Definition bad_length_word : jsstring :=
  lit "0x0000000000000000000000000000000000000000000000000000000000000020"
  ++ lit "zz00000000000000000000000000000000000000000000000000000000000003"
  ++ lit "4142430000000000000000000000000000000000000000000000000000000000".

End Ref.

Import Ref.

(* ===================================================================== *)
(** * Facts about the JavaScript fragment                                 *)
(* ===================================================================== *)

Section JsFacts.

Lemma jslength_app (a b : jsstring) : jslength (a ++ b) = jslength a + jslength b.
Proof. unfold jslength. rewrite length_app. lia. Qed.

Lemma slice_take_drop (s : jsstring) (a b : Z) :
  0 <= a -> 0 <= b ->
  slice s (Num a) (Num b) = take (Z.to_nat b - Z.to_nat a) (drop (Z.to_nat a) s).
Proof.
  intros Ha Hb. unfold slice, clamp_index, jslength.
  destruct (Z.ltb_spec a 0); [lia|]. destruct (Z.ltb_spec b 0); [lia|].
  destruct (Z.le_gt_cases (Z.of_nat (length s)) a) as [Hlen|Hlen].
  - rewrite !drop_ge by lia. by rewrite !take_nil.
  - rewrite (Z.min_l a) by lia.
    destruct (Z.le_gt_cases b (Z.of_nat (length s))).
    + rewrite Z.min_l by lia. f_equal. lia.
    + rewrite Z.min_r by lia.
      rewrite !take_ge; [done| |]; rewrite length_drop; lia.
Qed.

Lemma slice_to_end (s : jsstring) (a : Z) :
  0 <= a -> slice s (Num a) PosInfinity = drop (Z.to_nat a) s.
Proof.
  intros Ha. unfold slice, clamp_index, jslength.
  destruct (Z.ltb_spec a 0); [lia|].
  destruct (Z.le_gt_cases (Z.of_nat (length s)) a).
  - rewrite !drop_ge by lia. by rewrite take_nil.
  - rewrite Z.min_l by lia. apply take_ge. rewrite length_drop. lia.
Qed.

Lemma slice_from_prefix2 (x y : Z) (data : jsstring) :
  slice_from (x :: y :: data) (Num 2) = data.
Proof. unfold slice_from. by rewrite slice_to_end. Qed.

Lemma F_small (z : Z) : Z.abs z < 2 ^ 53 -> F z = Num z.
Proof. intros H. unfold F. destruct (Z.ltb_spec (Z.abs z) (2 ^ 53)); [done|lia]. Qed.

End JsFacts.

(* ===================================================================== *)
(** * The two decoding loops                                              *)
(* ===================================================================== *)

Section Loops.
Import TokenBalances Ref.

Lemma drop_two_more (s : jsstring) (n : nat) :
  (n + 2 <= length s)%nat ->
  exists a b, drop n s = a :: b :: drop (n + 2) s.
Proof.
  intros H.
  destruct (drop n s) as [|a [|b r]] eqn:E.
  - apply (f_equal length) in E. rewrite length_drop in E. simpl in E. lia.
  - apply (f_equal length) in E. rewrite length_drop in E. simpl in E. lia.
  - exists a, b. by rewrite <- (drop_drop s 2 n), E.
Qed.

Lemma drop_one_left (s : jsstring) (n : nat) :
  (n + 1 = length s)%nat -> exists a, drop n s = [a].
Proof.
  intros H.
  destruct (drop n s) as [|a [|b r]] eqn:E;
    apply (f_equal length) in E; rewrite length_drop in E; simpl in E; try lia.
  by exists a.
Qed.

(** The dynamic loop pushes [parseInt] of every two-unit piece; any fuel at
    least half the remaining length is enough. *)
Lemma dynamic_loop_chunks (fuel k : nat) (bytesHex : jsstring) (arr : list number) :
  (length bytesHex <= 2 * k + 2 * fuel)%nat ->
  dynamic_loop fuel bytesHex (2 * Z.of_nat k) arr
  = arr ++ map parseInt16 (chunks2 (drop (2 * k) bytesHex)).
Proof.
  revert k arr. induction fuel as [|fuel IH]; intros k arr Hfuel.
  - simpl. rewrite drop_ge by lia. by rewrite app_nil_r.
  - cbn [dynamic_loop]. unfold jslength.
    destruct (Z.ltb_spec (2 * Z.of_nat k) (Z.of_nat (length bytesHex))) as [Hlt|Hge].
    + replace (2 * Z.of_nat k + 2) with (2 * Z.of_nat (S k)) by lia.
      rewrite IH by lia.
      rewrite slice_take_drop by lia.
      replace (Z.to_nat (2 * Z.of_nat (S k)) - Z.to_nat (2 * Z.of_nat k))%nat
        with 2%nat by lia.
      replace (Z.to_nat (2 * Z.of_nat k)) with (2 * k)%nat by lia.
      destruct (Nat.eq_dec (2 * k + 1)%nat (length bytesHex)) as [Hodd|Hodd].
      * destruct (drop_one_left bytesHex (2 * k)%nat Hodd) as [a Ha].
        rewrite Ha. rewrite (drop_ge _ (2 * S k)%nat) by lia.
        simpl. by rewrite <- app_assoc.
      * destruct (drop_two_more bytesHex (2 * k)%nat) as (a & b & Hab); [lia|].
        rewrite Hab. replace (2 * S k)%nat with (2 * k + 2)%nat by lia.
        simpl. by rewrite <- app_assoc.
    + rewrite drop_ge by lia. by rewrite app_nil_r.
Qed.

(** The fuel given to the dynamic loop in [decode_body] never runs out. *)
Lemma dynamic_loop_fuel (fuel : nat) (bytesHex : jsstring) :
  (length bytesHex <= 2 * fuel)%nat ->
  dynamic_loop fuel bytesHex 0 []
  = dynamic_loop (length bytesHex) bytesHex 0 [].
Proof.
  intros H.
  rewrite (dynamic_loop_chunks fuel 0) by lia.
  by rewrite (dynamic_loop_chunks (length bytesHex) 0) by lia.
Qed.

(** The bytes32 loop pushes [parseInt] of the two-unit pieces up to the
    first zero; 32 rounds are enough for 64 code units. *)
Lemma bytes32_loop_chunks (fuel k : nat) (bytes : jsstring) (arr : list number) :
  length bytes = 64%nat -> (32 <= k + fuel)%nat ->
  bytes32_loop fuel bytes (2 * Z.of_nat k) arr
  = arr ++ until_zero_number (map parseInt16 (chunks2 (drop (2 * k) bytes))).
Proof.
  intros Hlen. revert k arr. induction fuel as [|fuel IH]; intros k arr Hfuel.
  - simpl. rewrite drop_ge by lia. by rewrite app_nil_r.
  - cbn [bytes32_loop].
    destruct (Z.ltb_spec (2 * Z.of_nat k) 64) as [Hlt|Hge].
    + replace (2 * Z.of_nat k + 2) with (2 * Z.of_nat (S k)) by lia.
      rewrite slice_take_drop by lia.
      replace (Z.to_nat (2 * Z.of_nat (S k)) - Z.to_nat (2 * Z.of_nat k))%nat
        with 2%nat by lia.
      replace (Z.to_nat (2 * Z.of_nat k)) with (2 * k)%nat by lia.
      destruct (drop_two_more bytes (2 * k)%nat) as (a & b & Hab); [lia|].
      rewrite Hab. cbn [firstn chunks2 map until_zero_number]. rewrite take_0.
      destruct (is_zero (parseInt16 [a; b])).
      * by rewrite app_nil_r.
      * rewrite IH by lia.
        replace (2 * S k)%nat with (2 * k + 2)%nat by lia.
        by rewrite <- app_assoc.
    + rewrite drop_ge by lia. by rewrite app_nil_r.
Qed.

Lemma bytes32_loop_fuel (fuel : nat) (bytes : jsstring) :
  length bytes = 64%nat -> (32 <= fuel)%nat ->
  bytes32_loop fuel bytes 0 [] = bytes32_loop 32 bytes 0 [].
Proof.
  intros Hlen H.
  rewrite (bytes32_loop_chunks fuel 0) by (done || lia).
  by rewrite (bytes32_loop_chunks 32 0) by (done || lia).
Qed.

End Loops.

(* ===================================================================== *)
(** * Rounding of large integers to doubles                               *)
(* ===================================================================== *)

Section Rounding.

Lemma at_least_weaken (n : number) (b b' : Z) :
  at_least n b -> b' <= b -> at_least n b'.
Proof. destruct n; simpl; try done. lia. Qed.

Lemma round_half_even_lower (m e : Z) : m / 2 ^ e <= round_half_even m e.
Proof.
  unfold round_half_even.
  repeat match goal with |- context [if ?c then _ else _] => destruct c end; lia.
Qed.

Lemma F_at_least (z : Z) : 0 <= z -> at_least (F z) (Z.min z (2 ^ 53)).
Proof.
  intros Hz. unfold F. rewrite Z.abs_eq by done.
  destruct (Z.ltb_spec z (2 ^ 53)) as [Hs|Hb]; [simpl; lia|].
  assert (Hpos : 0 < z) by lia.
  pose proof (Z.log2_spec z Hpos) as [Hlo _].
  assert (He : 53 <= Z.log2 z).
  { apply Z.log2_le_pow2; lia. }
  set (e := Z.log2 z - 52) in *.
  assert (Hsplit : 2 ^ Z.log2 z = 2 ^ 52 * 2 ^ e).
  { rewrite <- Z.pow_add_r by lia. f_equal. lia. }
  assert (H2e : 2 <= 2 ^ e).
  { change 2 with (2 ^ 1) at 1. apply Z.pow_le_mono_r; lia. }
  assert (Hq : 2 ^ 52 <= z / 2 ^ e).
  { apply Z.div_le_lower_bound; lia. }
  pose proof (round_half_even_lower z e) as Hr.
  assert (Hm : 2 ^ 53 <= round_half_even z e * 2 ^ e).
  { change (2 ^ 53) with (2 ^ 52 * 2). apply Z.mul_le_mono_nonneg; lia. }
  destruct (Z.leb_spec (2 ^ 1024) (round_half_even z e * 2 ^ e)).
  - destruct (Z.ltb_spec z 0); [lia|done].
  - simpl. rewrite Z.sgn_pos by done. lia.
Qed.

Lemma at_least_mul2 (n : number) (b : Z) :
  0 <= b -> at_least n b ->
  at_least (number_mul n (Num 2)) (Z.min (2 * b) (2 ^ 53)).
Proof.
  intros Hb Hn. destruct n as [m| | |]; simpl in *; try done.
  eapply at_least_weaken; [apply F_at_least; lia|lia].
Qed.

Lemma at_least_add (k : Z) (n : number) (b : Z) :
  0 <= k -> 0 <= b -> at_least n b ->
  at_least (number_add (Num k) n) (Z.min (k + b) (2 ^ 53)).
Proof.
  intros Hk Hb Hn. destruct n as [m| | |]; simpl in *; try done.
  eapply at_least_weaken; [apply F_at_least; lia|lia].
Qed.

(** [slice] with an end index at or past the end of the string. *)
Lemma slice_past_end (s : jsstring) (a : Z) (n : number) :
  0 <= a -> at_least n (jslength s) ->
  slice s (Num a) n = drop (Z.to_nat a) s.
Proof.
  intros Ha Hn. destruct n as [m| | |]; simpl in Hn; try done.
  - unfold jslength in Hn. rewrite slice_take_drop by lia.
    apply take_ge. rewrite length_drop. lia.
  - by apply slice_to_end.
Qed.

(** The end index [start + len * 2] computed in doubles selects the same
    code units as the exact [128 + 2 L], for every string a JavaScript
    engine can hold. *)
Lemma slice_payload (data : jsstring) (L : Z) :
  0 <= L -> jslength data < 2 ^ 53 ->
  slice data (Num 128)
    (number_add (Num 128) (number_mul (Number_of_BigInt L) (Num 2)))
  = take (Z.to_nat (2 * L)) (drop 128 data).
Proof.
  intros HL Hlen. unfold Number_of_BigInt.
  destruct (Z.lt_ge_cases (128 + 2 * L) (2 ^ 53)) as [Hs|Hb].
  - rewrite (F_small L) by lia. simpl number_mul.
    rewrite (F_small (L * 2)) by lia. simpl number_add.
    rewrite (F_small (128 + L * 2)) by lia.
    rewrite slice_take_drop by lia. f_equal. lia.
  - rewrite slice_past_end; [| lia |].
    + symmetry. apply take_ge. rewrite length_drop. unfold jslength in Hlen. lia.
    + eapply at_least_weaken.
      * apply at_least_add; [lia| |apply at_least_mul2; [|apply F_at_least; lia]];
          lia.
      * lia.
Qed.

End Rounding.

(* ===================================================================== *)
(** * Hex digits under [parseInt] and [BigInt]                            *)
(* ===================================================================== *)

Section HexFacts.
Import TokenBalances Ref.

Lemma number_eqb_eq (a b : number) : number_eqb a b = true -> a = b.
Proof. destruct a, b; simpl; try done. intros H. f_equal. lia. Qed.

Lemma isHexChar_enum (c : Z) : isHexChar c = true -> In c hex_chars.
Proof.
  unfold isHexChar. intros H.
  assert (48 <= c <= 57 \/ 65 <= c <= 70 \/ 97 <= c <= 102) as Hr by lia.
  unfold hex_chars. simpl. lia.
Qed.

Lemma hex_digit_range (c : Z) : 0 <= hex_digit c <= 15.
Proof. unfold hex_digit. repeat case_match; lia. Qed.

Lemma parseInt16_hex_pair (hi lo : Z) :
  isHexChar hi = true -> isHexChar lo = true ->
  parseInt16 [hi; lo] = Num (16 * hex_digit hi + hex_digit lo).
Proof.
  intros Hhi Hlo. apply number_eqb_eq.
  assert (forallb (fun a => forallb (fun b =>
            number_eqb (parseInt16 [a; b]) (Num (16 * hex_digit a + hex_digit b)))
            hex_chars) hex_chars = true) as Hall by (vm_compute; reflexivity).
  rewrite forallb_forall in Hall.
  specialize (Hall hi (isHexChar_enum hi Hhi)).
  rewrite forallb_forall in Hall.
  exact (Hall lo (isHexChar_enum lo Hlo)).
Qed.

Lemma parseInt16_hex_one (d : Z) :
  isHexChar d = true -> parseInt16 [d] = Num (hex_digit d).
Proof.
  intros Hd. apply number_eqb_eq.
  assert (forallb (fun a => number_eqb (parseInt16 [a]) (Num (hex_digit a)))
            hex_chars = true) as Hall by (vm_compute; reflexivity).
  rewrite forallb_forall in Hall.
  exact (Hall d (isHexChar_enum d Hd)).
Qed.

Lemma radix_digit_hex (c : Z) :
  isHexChar c = true -> radix_digit 16 c = Some (hex_digit c).
Proof.
  intros Hc.
  assert (forallb (fun a =>
            match radix_digit 16 a with
            | Some d => d =? hex_digit a
            | None => false
            end) hex_chars = true) as Hall by (vm_compute; reflexivity).
  rewrite forallb_forall in Hall.
  specialize (Hall c (isHexChar_enum c Hc)).
  destruct (radix_digit 16 c); [f_equal; lia|done].
Qed.

Lemma hex_not_space (c : Z) : isHexChar c = true -> isStrWhiteSpaceChar c = false.
Proof.
  intros Hc.
  assert (forallb (fun a => negb (isStrWhiteSpaceChar a)) hex_chars = true)
    as Hall by (vm_compute; reflexivity).
  rewrite forallb_forall in Hall.
  specialize (Hall c (isHexChar_enum c Hc)).
  by destruct (isStrWhiteSpaceChar c).
Qed.

(** Induction over a list two elements at a time. *)
Lemma list_pair_ind {A} (P : list A -> Prop) :
  P [] -> (forall a, P [a]) -> (forall a b r, P r -> P (a :: b :: r)) ->
  forall l, P l.
Proof.
  intros H0 H1 H2 l.
  assert (P l /\ forall a, P (a :: l)) as [H _]; [|exact H].
  induction l as [|x l [IHl IHl']]; split; auto.
Qed.

Lemma parseInt16_chunks_hex (s : jsstring) :
  is_hex s -> map parseInt16 (chunks2 s) = map Num (hex_bytes s).
Proof.
  induction s as [|a|a b r IH] using list_pair_ind; intros Hs.
  - done.
  - simpl. rewrite parseInt16_hex_one; [done|]. by inversion Hs.
  - inversion Hs as [|? ? Ha Hs']; subst. inversion Hs' as [|? ? Hb Hr]; subst.
    cbn [chunks2 hex_bytes map].
    rewrite parseInt16_hex_pair by done. by rewrite IH.
Qed.

Lemma hex_bytes_range (s : jsstring) :
  Forall (fun b => 0 <= b <= 255) (hex_bytes s).
Proof.
  induction s as [|a|a b r IH] using list_pair_ind; simpl.
  - constructor.
  - constructor; [|constructor]. pose proof (hex_digit_range a). lia.
  - constructor; [|done].
    pose proof (hex_digit_range a). pose proof (hex_digit_range b). lia.
Qed.

Lemma until_zero_range (bs : list Z) :
  Forall (fun b => 0 <= b <= 255) bs ->
  Forall (fun b => 0 <= b <= 255) (until_zero bs).
Proof.
  induction 1 as [|b r Hb Hr IH]; simpl; [constructor|].
  destruct (b =? 0); constructor; done.
Qed.

Lemma until_zero_number_Num (bs : list Z) :
  until_zero_number (map Num bs) = map Num (until_zero bs).
Proof.
  induction bs as [|b r IH]; simpl; [done|].
  destruct (b =? 0); simpl; [done|]. by rewrite IH.
Qed.

(** [String.fromCharCode] of byte values is the string of these bytes. *)
Lemma fromCharCode_bytes (bs : list Z) :
  Forall (fun b => 0 <= b <= 255) bs -> String_fromCharCode (map Num bs) = bs.
Proof.
  unfold String_fromCharCode.
  induction 1 as [|b r Hb Hr IH]; simpl; [done|].
  rewrite IH. f_equal. apply Z.mod_small. lia.
Qed.

Lemma trimStart_head (c : Z) (s : jsstring) :
  isStrWhiteSpaceChar c = false -> trimStart (c :: s) = c :: s.
Proof. intros H. simpl. by rewrite H. Qed.

Lemma trimEnd_last (s : jsstring) (c : Z) :
  isStrWhiteSpaceChar c = false -> trimEnd (s ++ [c]) = s ++ [c].
Proof.
  intros H. unfold trimEnd. rewrite rev_app_distr. simpl. rewrite H.
  simpl. by rewrite rev_involutive.
Qed.

Lemma all_digits_hex (w : jsstring) :
  is_hex w -> all_digits 16 w = Some (map hex_digit w).
Proof.
  induction 1 as [|c r Hc Hr IH]; simpl; [done|].
  by rewrite radix_digit_hex, IH.
Qed.

Lemma digits_value_hex (w : jsstring) (acc : Z) :
  fold_left (fun a d => a * 16 + d) (map hex_digit w) acc
  = fold_left (fun a c => 16 * a + hex_digit c) w acc.
Proof.
  revert acc. induction w as [|c r IH]; intros acc; simpl; [done|].
  rewrite IH. f_equal. lia.
Qed.

Lemma hex_value_nonneg (w : jsstring) : 0 <= hex_value w.
Proof.
  unfold hex_value.
  assert (forall acc, 0 <= acc ->
            0 <= fold_left (fun a c => 16 * a + hex_digit c) w acc) as H.
  { induction w as [|c r IH]; intros acc Hacc; simpl; [done|].
    apply IH. pose proof (hex_digit_range c). lia. }
  by apply H.
Qed.

(** [BigInt("0x" + w)] for a non-empty run of hex digits. *)
Lemma BigInt_hex_word (w : jsstring) :
  is_hex w -> w <> [] -> BigInt (lit "0x" ++ w) = Return (hex_value w).
Proof.
  intros Hw Hne. unfold BigInt, StringToBigInt.
  change (lit "0x" ++ w) with (48 :: 120 :: w).
  assert (trim (48 :: 120 :: w) = 48 :: 120 :: w) as ->.
  { unfold trim. rewrite trimStart_head by done.
    destruct (exists_last Hne) as (w' & c & ->).
    change (48 :: 120 :: w' ++ [c]) with ((48 :: 120 :: w') ++ [c]).
    apply trimEnd_last. apply hex_not_space.
    apply Forall_app in Hw as [_ Hc]. by inversion Hc. }
  cbn [Z.eqb Pos.eqb orb].
  unfold unsigned_literal. destruct w as [|c r]; [done|].
  rewrite all_digits_hex by done. cbn [option_map].
  unfold digits_value, hex_value. by rewrite digits_value_hex.
Qed.

End HexFacts.

(* ===================================================================== *)
(** * The string decoder on well-formed hex payloads                      *)
(* ===================================================================== *)

Section Decoder.
Import Ref.

Lemma is_hex_take (n : nat) (s : jsstring) : is_hex s -> is_hex (take n s).
Proof. apply Forall_take. Qed.

Lemma is_hex_drop (n : nat) (s : jsstring) : is_hex s -> is_hex (drop n s).
Proof. apply Forall_drop. Qed.

Lemma nonempty_length {A} (l : list A) : (0 < length l)%nat -> l <> [].
Proof. destruct l; simpl; [lia|done]. Qed.

Lemma word_to_number_hex (w : jsstring) :
  is_hex w -> w <> [] ->
  TokenBalances.word_to_number w = Return (Number_of_BigInt (hex_value w)).
Proof.
  intros Hw Hne. unfold TokenBalances.word_to_number.
  by rewrite BigInt_hex_word.
Qed.

Lemma dynamic_tail_hex (data : jsstring) :
  is_hex data -> jslength data < 2 ^ 53 ->
  let len := Number_of_BigInt (announced_length data) in
  let bytesHex := slice data (Num 128) (number_add (Num 128) (number_mul len (Num 2))) in
  String_fromCharCode (TokenBalances.dynamic_loop (length bytesHex) bytesHex 0 [])
  = payload_bytes data.
Proof.
  intros Hhex Hlen. cbv zeta.
  rewrite slice_payload by (done || apply hex_value_nonneg).
  fold (announced_length data).
  set (bytesHex := take _ _).
  rewrite (dynamic_loop_chunks (length bytesHex) 0) by lia.
  simpl app. rewrite drop_0.
  rewrite parseInt16_chunks_hex by (by apply is_hex_take, is_hex_drop).
  apply fromCharCode_bytes, hex_bytes_range.
Qed.

Lemma token_decode_dynamic_hex (data : jsstring) :
  is_hex data -> (64 < length data)%nat -> jslength data < 2 ^ 53 ->
  TokenBalances.tryDecodeStringFromAbi (lit "0x" ++ data)
  = Return (Some (payload_bytes data)).
Proof.
  intros Hhex Hlong Hlen.
  change (lit "0x" ++ data) with (48 :: 120 :: data).
  unfold TokenBalances.tryDecodeStringFromAbi.
  change (startsWith (48 :: 120 :: data) (lit "0x")) with true. cbn [negb].
  rewrite slice_from_prefix2. unfold TokenBalances.decode_body.
  destruct (Z.eqb_spec (jslength data) 64) as [E|_]; [unfold jslength in E; lia|].
  rewrite !slice_take_drop by lia.
  change (Z.to_nat 64 - Z.to_nat 0)%nat with 64%nat.
  change (Z.to_nat 128 - Z.to_nat 64)%nat with 64%nat.
  change (Z.to_nat 0) with 0%nat. change (Z.to_nat 64) with 64%nat.
  rewrite drop_0.
  rewrite word_to_number_hex;
    [|by apply is_hex_take|apply nonempty_length; rewrite length_take; lia].
  cbn [cbind].
  rewrite word_to_number_hex;
    [|by apply is_hex_take, is_hex_drop
     |apply nonempty_length; rewrite length_take, length_drop; lia].
  cbn [cbind try_catch].
  do 2 f_equal. by apply dynamic_tail_hex.
Qed.

Lemma nft_decode_dynamic_hex (data : jsstring) :
  is_hex data -> (64 < length data)%nat -> jslength data < 2 ^ 53 ->
  NFTBalances.tryDecodeStringFromAbi (lit "0x" ++ data)
  = Return (Some (payload_bytes data)).
Proof.
  intros Hhex Hlong Hlen.
  change (lit "0x" ++ data) with (48 :: 120 :: data).
  unfold NFTBalances.tryDecodeStringFromAbi.
  change (startsWith (48 :: 120 :: data) (lit "0x")) with true. cbn [negb].
  rewrite slice_from_prefix2. unfold NFTBalances.decode_body.
  destruct (Z.eqb_spec (jslength data) 64) as [E|_]; [unfold jslength in E; lia|].
  rewrite !slice_take_drop by lia.
  change (Z.to_nat 128 - Z.to_nat 64)%nat with 64%nat.
  change (Z.to_nat 64) with 64%nat.
  rewrite word_to_number_hex;
    [|by apply is_hex_take, is_hex_drop
     |apply nonempty_length; rewrite length_take, length_drop; lia].
  cbn [cbind try_catch].
  do 2 f_equal. by apply dynamic_tail_hex.
Qed.

End Decoder.

Section DecoderBytes32.
Import Ref.

Lemma token_decode_bytes32_hex (data : jsstring) :
  is_hex data -> length data = 64%nat ->
  TokenBalances.tryDecodeStringFromAbi (lit "0x" ++ data)
  = Return (TokenBalances.or_null (until_zero (hex_bytes data))).
Proof.
  intros Hhex Hlen.
  change (lit "0x" ++ data) with (48 :: 120 :: data).
  unfold TokenBalances.tryDecodeStringFromAbi.
  change (startsWith (48 :: 120 :: data) (lit "0x")) with true. cbn [negb].
  rewrite slice_from_prefix2. unfold TokenBalances.decode_body.
  destruct (Z.eqb_spec (jslength data) 64) as [_|E]; [|unfold jslength in E; lia].
  cbn [try_catch].
  rewrite (bytes32_loop_chunks 32 0) by (done || lia).
  simpl app. rewrite drop_0.
  rewrite parseInt16_chunks_hex, until_zero_number_Num by done.
  rewrite fromCharCode_bytes; [done|].
  apply until_zero_range, hex_bytes_range.
Qed.

Lemma nft_decode_bytes32_hex (data : jsstring) :
  is_hex data -> length data = 64%nat ->
  NFTBalances.tryDecodeStringFromAbi (lit "0x" ++ data)
  = Return (TokenBalances.or_null (until_zero (hex_bytes data))).
Proof.
  intros Hhex Hlen.
  change (lit "0x" ++ data) with (48 :: 120 :: data).
  unfold NFTBalances.tryDecodeStringFromAbi.
  change (startsWith (48 :: 120 :: data) (lit "0x")) with true. cbn [negb].
  rewrite slice_from_prefix2. unfold NFTBalances.decode_body.
  destruct (Z.eqb_spec (jslength data) 64) as [_|E]; [|unfold jslength in E; lia].
  cbn [try_catch].
  rewrite (bytes32_loop_chunks 32 0) by (done || lia).
  simpl app. rewrite drop_0.
  rewrite parseInt16_chunks_hex, until_zero_number_Num by done.
  rewrite fromCharCode_bytes; [done|].
  apply until_zero_range, hex_bytes_range.
Qed.

Lemma is_hex_forallb (s : jsstring) :
  forallb TokenBalances.isHexChar s = true -> is_hex s.
Proof.
  intros H. apply Forall_forall. intros c Hc.
  rewrite forallb_forall in H. apply H. by apply list_elem_of_In.
Qed.

Lemma until_zero_no_zero (bs : list Z) : Forall (fun b => b <> 0) (until_zero bs).
Proof.
  induction bs as [|b r IH]; simpl; [constructor|].
  destruct (Z.eqb_spec b 0); constructor; done.
Qed.

(** [until_zero] is the longest zero-free prefix. *)
Lemma until_zero_prefix (bs : list Z) :
  exists rest, bs = until_zero bs ++ rest /\ (rest = [] \/ head rest = Some 0).
Proof.
  induction bs as [|b r (rest & IH & Hrest)]; simpl.
  - exists []. auto.
  - destruct (Z.eqb_spec b 0) as [->|Hb].
    + exists (0 :: r). auto.
    + exists rest. split; [simpl; by f_equal|done].
Qed.

End DecoderBytes32.


(* ===================================================================== *)
(** * The ABI string decoder: the properties                              *)
(* ===================================================================== *)

Section DecoderProperties.

Lemma hex_bytes_length (s : jsstring) :
  length (hex_bytes s) = Nat.div2 (S (length s)).
Proof.
  induction s as [|a|a b r IH] using list_pair_ind; [done|done|].
  cbn [hex_bytes length]. rewrite IH. reflexivity.
Qed.

Lemma payload_bytes_length (data : jsstring) :
  128 + 2 * announced_length data <= jslength data ->
  jslength (payload_bytes data) = announced_length data.
Proof.
  intros H. unfold payload_bytes, jslength in *.
  pose proof (hex_value_nonneg (take 64 (drop 64 data))) as Hnn.
  fold (announced_length data) in Hnn.
  rewrite hex_bytes_length, length_take, length_drop.
  replace (Z.to_nat (2 * announced_length data) `min` (length data - 128))%nat
    with (2 * Z.to_nat (announced_length data))%nat by lia.
  rewrite Nat.div2_succ_double. lia.
Qed.

(** Replacing the first word leaves the announced length and the payload
    bytes as they are. *)
Lemma payload_bytes_offset (offset data : jsstring) :
  length offset = 64%nat ->
  payload_bytes (offset ++ drop 64 data) = payload_bytes data.
Proof.
  intros Hlen. unfold payload_bytes, announced_length.
  assert (drop 64 (offset ++ drop 64 data) = drop 64 data) as E64.
  { rewrite <- Hlen. apply drop_app_length. }
  assert (drop 128 (offset ++ drop 64 data) = drop 128 data) as E128.
  { change 128%nat with (64 + 64)%nat. by rewrite <- !drop_drop, E64. }
  by rewrite E64, E128.
Qed.

(** C4. For every hex payload longer than 64 hex digits (and no longer than
    a JavaScript string can be) whose bytes to decode are at most
    [max_spread_bytes], the number of arguments every engine serves in
    [String.fromCharCode(...arr)], the decoder of either file returns the
    string of the bytes found at the [L] byte positions that start at hex
    position 128, where [L] is the value of the second 32-byte word (hex
    positions 64..128): [payload_bytes].  The first word has no influence:
    any other 64 hex digits in its place give the same result.  When the
    payload holds the announced bytes, the result has [L] code units. *)
Theorem dynamic_string_decode (data : jsstring) :
  is_hex data -> (64 < length data)%nat -> jslength data < 2 ^ 53 ->
  jslength (payload_bytes data) <= max_spread_bytes ->
  TokenBalances.tryDecodeStringFromAbi (lit "0x" ++ data)
    = Return (Some (payload_bytes data))
  /\ NFTBalances.tryDecodeStringFromAbi (lit "0x" ++ data)
    = Return (Some (payload_bytes data))
  /\ (forall offset, is_hex offset -> length offset = 64%nat ->
        TokenBalances.tryDecodeStringFromAbi (lit "0x" ++ offset ++ drop 64 data)
          = TokenBalances.tryDecodeStringFromAbi (lit "0x" ++ data)
        /\ NFTBalances.tryDecodeStringFromAbi (lit "0x" ++ offset ++ drop 64 data)
          = NFTBalances.tryDecodeStringFromAbi (lit "0x" ++ data))
  /\ (128 + 2 * announced_length data <= jslength data ->
        jslength (payload_bytes data) = announced_length data).
Proof.
  intros Hhex Hlong Hlen _.
  pose proof (token_decode_dynamic_hex data Hhex Hlong Hlen) as Ht.
  pose proof (nft_decode_dynamic_hex data Hhex Hlong Hlen) as Hn.
  repeat split; try done.
  - rewrite Ht, token_decode_dynamic_hex.
    + by rewrite payload_bytes_offset.
    + apply Forall_app. split; [done|by apply is_hex_drop].
    + rewrite length_app, length_drop. lia.
    + unfold jslength in *. rewrite length_app, length_drop. lia.
  - rewrite Hn, nft_decode_dynamic_hex.
    + by rewrite payload_bytes_offset.
    + apply Forall_app. split; [done|by apply is_hex_drop].
    + rewrite length_app, length_drop. lia.
    + unfold jslength in *. rewrite length_app, length_drop. lia.
  - apply payload_bytes_length.
Qed.

(** C4, on the sample payload: offset 32, length 3, the bytes of "ABC"
    padded to 32 bytes. *)
Lemma dynamic_string_decode_abc :
  TokenBalances.tryDecodeStringFromAbi abc_dynamic = Return (Some (lit "ABC"))
  /\ NFTBalances.tryDecodeStringFromAbi abc_dynamic = Return (Some (lit "ABC")).
Proof.
  assert (is_hex (drop 2 abc_dynamic)) as H1
    by (apply is_hex_forallb; vm_compute; reflexivity).
  assert (64 < length (drop 2 abc_dynamic))%nat as H2 by (vm_compute; lia).
  assert (jslength (drop 2 abc_dynamic) < 2 ^ 53) as H3 by (vm_compute; reflexivity).
  assert (jslength (payload_bytes (drop 2 abc_dynamic)) <= max_spread_bytes) as H4
    by (vm_compute; discriminate).
  destruct (dynamic_string_decode (drop 2 abc_dynamic) H1 H2 H3 H4) as (Ht & Hn & _).
  split; [exact Ht|exact Hn].
Defined.

(** C5. For every payload of exactly 64 hex digits the decoder of either
    file scans the 32 bytes from the left and keeps those before the first
    zero byte (all of them when there is none): the result is [null] when
    nothing was kept and otherwise the string whose code units are the kept
    bytes, each between 1 and 255. *)
Theorem bytes32_string_decode (data : jsstring) :
  is_hex data -> length data = 64%nat ->
  let kept := until_zero (hex_bytes data) in
  (exists rest, hex_bytes data = kept ++ rest /\ (rest = [] \/ head rest = Some 0))
  /\ Forall (fun c => 1 <= c <= 255) kept
  /\ (kept = [] ->
        TokenBalances.tryDecodeStringFromAbi (lit "0x" ++ data) = Return None
        /\ NFTBalances.tryDecodeStringFromAbi (lit "0x" ++ data) = Return None)
  /\ (kept <> [] ->
        TokenBalances.tryDecodeStringFromAbi (lit "0x" ++ data) = Return (Some kept)
        /\ NFTBalances.tryDecodeStringFromAbi (lit "0x" ++ data) = Return (Some kept)).
Proof.
  intros Hhex Hlen kept.
  pose proof (token_decode_bytes32_hex data Hhex Hlen) as Ht.
  pose proof (nft_decode_bytes32_hex data Hhex Hlen) as Hn.
  fold kept in Ht, Hn.
  split; [apply until_zero_prefix|].
  split.
  { pose proof (until_zero_range _ (hex_bytes_range data)) as Hr.
    pose proof (until_zero_no_zero (hex_bytes data)) as Hz.
    fold kept in Hr, Hz. rewrite Forall_forall in *.
    intros c Hc. specialize (Hr c Hc). specialize (Hz c Hc). simpl in *. lia. }
  split; intros Hk.
  - rewrite Ht, Hn, Hk. done.
  - rewrite Ht, Hn. destruct kept; done.
Qed.

(** C5, on the sample payload: "USDC" and 28 zero bytes. *)
Lemma bytes32_string_decode_usdc :
  TokenBalances.tryDecodeStringFromAbi usdc_bytes32 = Return (Some (lit "USDC"))
  /\ NFTBalances.tryDecodeStringFromAbi usdc_bytes32 = Return (Some (lit "USDC")).
Proof.
  assert (is_hex (drop 2 usdc_bytes32)) as H1
    by (apply is_hex_forallb; vm_compute; reflexivity).
  assert (length (drop 2 usdc_bytes32) = 64%nat) as H2 by (vm_compute; reflexivity).
  destruct (bytes32_string_decode (drop 2 usdc_bytes32) H1 H2) as (_ & _ & _ & Hk).
  apply Hk. vm_compute. discriminate.
Defined.

Lemma token_decode_returns (hex : jsstring) :
  exists r, TokenBalances.tryDecodeStringFromAbi hex = Return r.
Proof.
  unfold TokenBalances.tryDecodeStringFromAbi.
  destruct hex as [|c hex]; [by eexists|].
  destruct (negb _); [by eexists|].
  destruct (TokenBalances.decode_body _) as [r|e]; by eexists.
Qed.

Lemma nft_decode_returns (hex : jsstring) :
  exists r, NFTBalances.tryDecodeStringFromAbi hex = Return r.
Proof.
  unfold NFTBalances.tryDecodeStringFromAbi.
  destruct hex as [|c hex]; [by eexists|].
  destruct (negb _); [by eexists|].
  destruct (NFTBalances.decode_body _) as [r|e]; by eexists.
Qed.

(** C10. For every input string, the decoder of either file returns
    normally, with a string or [null]: no exception reaches the caller.
    (That the loops stop is [dynamic_loop_fuel] and [bytes32_loop_fuel].) *)
Theorem tryDecodeStringFromAbi_total (hex : jsstring) :
  (exists r, TokenBalances.tryDecodeStringFromAbi hex = Return r)
  /\ (exists r, NFTBalances.tryDecodeStringFromAbi hex = Return r).
Proof. split; [apply token_decode_returns|apply nft_decode_returns]. Qed.

End DecoderProperties.

(* ===================================================================== *)
(** * Decode failures and [pad32]                                         *)
(* ===================================================================== *)

Section Failures.

(** What [trimStart] removes is white space. *)
Lemma trimStart_split (s : jsstring) :
  exists ws, s = ws ++ trimStart s
             /\ Forall (fun c => isStrWhiteSpaceChar c = true) ws.
Proof.
  induction s as [|c r (ws & Hr & Hws)]; [by exists []|].
  cbn [trimStart]. destruct (isStrWhiteSpaceChar c) eqn:Hc.
  - exists (c :: ws). split; [simpl; by f_equal|by constructor].
  - by exists [].
Qed.

Lemma trimEnd_split (s : jsstring) :
  exists ws, s = trimEnd s ++ ws
             /\ Forall (fun c => isStrWhiteSpaceChar c = true) ws.
Proof.
  destruct (trimStart_split (rev s)) as (ws & Hs & Hws).
  exists (rev ws). split.
  - unfold trimEnd. rewrite <- rev_app_distr, <- Hs. by rewrite rev_involutive.
  - apply Forall_forall. intros c Hc. rewrite Forall_forall in Hws.
    apply Hws. apply list_elem_of_In. apply in_rev. by apply list_elem_of_In.
Qed.

Lemma all_digits_none (radix c : Z) (w : jsstring) :
  c ∈ w -> radix_digit radix c = None -> all_digits radix w = None.
Proof.
  intros Hin Hc. induction w as [|x r IH]; [by apply elem_of_nil in Hin|].
  simpl. apply elem_of_cons in Hin as [<-|Hin].
  - by rewrite Hc.
  - rewrite IH by done. by destruct (radix_digit radix x).
Qed.

(** [BigInt("0x" + w)] throws as soon as [w] holds a code unit that is
    neither a hex digit nor white space. *)
Lemma BigInt_rejects_word (w : jsstring) (c : Z) :
  c ∈ w -> radix_digit 16 c = None -> isStrWhiteSpaceChar c = false ->
  BigInt (lit "0x" ++ w) = Throw SyntaxError.
Proof.
  intros Hin Hdigit Hspace. unfold BigInt, StringToBigInt.
  change (lit "0x" ++ w) with (48 :: 120 :: w).
  unfold trim. rewrite trimStart_head by done.
  destruct (trimEnd_split (48 :: 120 :: w)) as (ws & Hsplit & Hws).
  destruct (trimEnd (48 :: 120 :: w)) as [|a [|b w']] eqn:E.
  - simpl in Hsplit. subst ws. by inversion Hws.
  - simpl in Hsplit. injection Hsplit as <- <-.
    inversion Hws as [|? ? Hx _]. done.
  - simpl in Hsplit. injection Hsplit as <- <- ->.
    cbn [Z.eqb Pos.eqb orb].
    assert (c ∈ w') as Hin'.
    { apply elem_of_app in Hin as [Hin|Hin]; [done|].
      rewrite Forall_forall in Hws. specialize (Hws c Hin). congruence. }
    unfold unsigned_literal. destruct w' as [|x r]; [by apply elem_of_nil in Hin'|].
    by rewrite (all_digits_none 16 c).
Qed.

Lemma token_decode_bad_length (data : jsstring) (e : exn) :
  jslength data <> 64 ->
  BigInt (lit "0x" ++ slice data (Num 64) (Num 128)) = Throw e ->
  TokenBalances.tryDecodeStringFromAbi (lit "0x" ++ data) = Return None.
Proof.
  intros Hlen Hbad.
  change (lit "0x" ++ data) with (48 :: 120 :: data).
  unfold TokenBalances.tryDecodeStringFromAbi.
  change (startsWith (48 :: 120 :: data) (lit "0x")) with true. cbn [negb].
  rewrite slice_from_prefix2. unfold TokenBalances.decode_body.
  destruct (Z.eqb_spec (jslength data) 64) as [E|_]; [done|].
  destruct (TokenBalances.word_to_number (slice data (Num 0) (Num 64))); [|done].
  cbn [cbind]. unfold TokenBalances.word_to_number at 1. by rewrite Hbad.
Qed.

Lemma token_decode_bad_offset (data : jsstring) (e : exn) :
  jslength data <> 64 ->
  BigInt (lit "0x" ++ slice data (Num 0) (Num 64)) = Throw e ->
  TokenBalances.tryDecodeStringFromAbi (lit "0x" ++ data) = Return None.
Proof.
  intros Hlen Hbad.
  change (lit "0x" ++ data) with (48 :: 120 :: data).
  unfold TokenBalances.tryDecodeStringFromAbi.
  change (startsWith (48 :: 120 :: data) (lit "0x")) with true. cbn [negb].
  rewrite slice_from_prefix2. unfold TokenBalances.decode_body.
  destruct (Z.eqb_spec (jslength data) 64) as [E|_]; [done|].
  unfold TokenBalances.word_to_number at 1. by rewrite Hbad.
Qed.

Lemma nft_decode_bad_length (data : jsstring) (e : exn) :
  jslength data <> 64 ->
  BigInt (lit "0x" ++ slice data (Num 64) (Num 128)) = Throw e ->
  NFTBalances.tryDecodeStringFromAbi (lit "0x" ++ data) = Return None.
Proof.
  intros Hlen Hbad.
  change (lit "0x" ++ data) with (48 :: 120 :: data).
  unfold NFTBalances.tryDecodeStringFromAbi.
  change (startsWith (48 :: 120 :: data) (lit "0x")) with true. cbn [negb].
  rewrite slice_from_prefix2. unfold NFTBalances.decode_body.
  destruct (Z.eqb_spec (jslength data) 64) as [E|_]; [done|].
  unfold TokenBalances.word_to_number. by rewrite Hbad.
Qed.

(** C7, as the code has it.  The decode path that throws is the one where
    [BigInt] rejects the length word (in [TokenBalances.tsx] also the offset
    word), as it does when the word holds a code unit that is neither a hex
    digit nor white space: it yields [null], not an exception.  A truncated
    payload and a payload with an odd number of hex digits do not throw:
    for every hex payload longer than 64 digits, with at most
    [max_spread_bytes] bytes to decode, the decoder returns a string, made
    of the bytes that are present after the header. *)
Theorem decode_failure_paths :
  (forall data e,
     jslength data <> 64 ->
     BigInt (lit "0x" ++ slice data (Num 64) (Num 128)) = Throw e ->
     TokenBalances.tryDecodeStringFromAbi (lit "0x" ++ data) = Return None
     /\ NFTBalances.tryDecodeStringFromAbi (lit "0x" ++ data) = Return None)
  /\ (forall data c,
        jslength data <> 64 ->
        c ∈ slice data (Num 64) (Num 128) ->
        radix_digit 16 c = None -> isStrWhiteSpaceChar c = false ->
        TokenBalances.tryDecodeStringFromAbi (lit "0x" ++ data) = Return None
        /\ NFTBalances.tryDecodeStringFromAbi (lit "0x" ++ data) = Return None)
  /\ (forall data e,
        jslength data <> 64 ->
        BigInt (lit "0x" ++ slice data (Num 0) (Num 64)) = Throw e ->
        TokenBalances.tryDecodeStringFromAbi (lit "0x" ++ data) = Return None)
  /\ (forall data c,
        jslength data <> 64 ->
        c ∈ slice data (Num 0) (Num 64) ->
        radix_digit 16 c = None -> isStrWhiteSpaceChar c = false ->
        TokenBalances.tryDecodeStringFromAbi (lit "0x" ++ data) = Return None)
  /\ (forall data,
        is_hex data -> (64 < length data)%nat -> jslength data < 2 ^ 53 ->
        jslength (payload_bytes data) <= max_spread_bytes ->
        TokenBalances.tryDecodeStringFromAbi (lit "0x" ++ data)
          = Return (Some (payload_bytes data))
        /\ NFTBalances.tryDecodeStringFromAbi (lit "0x" ++ data)
          = Return (Some (payload_bytes data))).
Proof.
  split; [|split; [|split; [|split]]].
  - intros data e Hlen Hbad. split.
    + by apply (token_decode_bad_length data e).
    + by apply (nft_decode_bad_length data e).
  - intros data c Hlen Hin Hdigit Hspace.
    pose proof (BigInt_rejects_word _ c Hin Hdigit Hspace) as Hbad. split.
    + by apply (token_decode_bad_length data SyntaxError).
    + by apply (nft_decode_bad_length data SyntaxError).
  - intros data e Hlen Hbad. by apply (token_decode_bad_offset data e).
  - intros data c Hlen Hin Hdigit Hspace.
    pose proof (BigInt_rejects_word _ c Hin Hdigit Hspace) as Hbad.
    by apply (token_decode_bad_offset data SyntaxError).
  - intros data Hhex Hlong Hlen _. split.
    + by apply token_decode_dynamic_hex.
    + by apply nft_decode_dynamic_hex.
Qed.

(** C7 on samples: a length word that is not a number gives [null], an
    offset word that is not a number gives [null] in [TokenBalances.tsx]; a
    payload cut after three of ten announced bytes gives "ABC". *)
Lemma decode_failure_paths_samples :
  TokenBalances.tryDecodeStringFromAbi bad_length_word = Return None
  /\ NFTBalances.tryDecodeStringFromAbi bad_length_word = Return None
  /\ TokenBalances.tryDecodeStringFromAbi bad_offset_word = Return None
  /\ TokenBalances.tryDecodeStringFromAbi abc_truncated = Return (Some (lit "ABC"))
  /\ NFTBalances.tryDecodeStringFromAbi abc_truncated = Return (Some (lit "ABC")).
Proof.
  destruct decode_failure_paths as (Hbad & Hchar & _ & Hoffset & Hhex).
  assert (jslength (drop 2 bad_offset_word) <> 64) as O1 by (vm_compute; discriminate).
  assert (122 ∈ slice (drop 2 bad_offset_word) (Num 0) (Num 64)) as O2
    by (vm_compute; left).
  assert (jslength (drop 2 bad_length_word) <> 64) as B1 by (vm_compute; discriminate).
  assert (BigInt (lit "0x" ++ slice (drop 2 bad_length_word) (Num 64) (Num 128))
          = Throw SyntaxError) as B2 by (vm_compute; reflexivity).
  destruct (Hbad (drop 2 bad_length_word) SyntaxError B1 B2) as [Bt _].
  assert (122 ∈ slice (drop 2 bad_length_word) (Num 64) (Num 128)) as B3
    by (vm_compute; left).
  assert (radix_digit 16 122 = None) as B4 by (vm_compute; reflexivity).
  assert (isStrWhiteSpaceChar 122 = false) as B5 by (vm_compute; reflexivity).
  destruct (Hchar (drop 2 bad_length_word) 122 B1 B3 B4 B5) as [_ Bn].
  assert (is_hex (drop 2 abc_truncated)) as H1
    by (apply is_hex_forallb; vm_compute; reflexivity).
  assert (64 < length (drop 2 abc_truncated))%nat as H2 by (vm_compute; lia).
  assert (jslength (drop 2 abc_truncated) < 2 ^ 53) as H3 by (vm_compute; reflexivity).
  assert (jslength (payload_bytes (drop 2 abc_truncated)) <= max_spread_bytes) as H4
    by (vm_compute; discriminate).
  destruct (Hhex (drop 2 abc_truncated) H1 H2 H3 H4) as [Tt Tn].
  split; [exact Bt|]. split; [exact Bn|].
  split; [exact (Hoffset (drop 2 bad_offset_word) 122 O1 O2 B4 B5)|].
  split; [exact Tt|exact Tn].
Defined.

(** C7 as stated fails: a truncated buffer (ten bytes announced, three
    present) and an odd number of hex digits both decode to a string, in
    either file, instead of [null]. *)
Lemma truncated_or_odd_payload_decodes :
  announced_length (drop 2 abc_truncated) = 10
  /\ jslength (drop 130 abc_truncated) = 6
  /\ TokenBalances.tryDecodeStringFromAbi abc_truncated = Return (Some (lit "ABC"))
  /\ TokenBalances.tryDecodeStringFromAbi abc_truncated <> Return None
  /\ NFTBalances.tryDecodeStringFromAbi abc_truncated <> Return None
  /\ Z.odd (jslength (drop 2 abc_odd)) = true
  /\ TokenBalances.tryDecodeStringFromAbi abc_odd = Return (Some [65; 66; 4])
  /\ TokenBalances.tryDecodeStringFromAbi abc_odd <> Return None
  /\ NFTBalances.tryDecodeStringFromAbi abc_odd <> Return None.
Proof. vm_compute. repeat split; discriminate. Qed.

Lemma repeat_fill_zero (n : nat) : repeat_fill n (lit "0") [] = repeat 48 n.
Proof. induction n as [|n IH]; simpl; [done|]. f_equal. exact IH. Qed.

Lemma padStart_zero (s : jsstring) (n : Z) :
  0 <= n < 2 ^ 53 ->
  padStart s (Num n) (lit "0")
  = repeat 48 (Z.to_nat n - length s) ++ s.
Proof.
  intros Hn. unfold padStart, clamp_index, jslength.
  destruct (Z.ltb_spec n 0); [lia|].
  rewrite Z.min_l by lia.
  destruct (Z.leb_spec n (Z.of_nat (length s))).
  - replace (Z.to_nat n - length s)%nat with 0%nat by lia. done.
  - change (lit "0") with [48]. fold (lit "0"). rewrite repeat_fill_zero.
    do 2 f_equal. lia.
Qed.

(** C8, as the code has it.  [pad32] pads every string of at most 64 code
    units with ['0'] on the left to exactly 64, as the specification asks;
    a longer string is returned as it is, with no error. *)
Theorem pad32_pads_or_keeps (s : jsstring) :
  ((length s <= 64)%nat ->
     TokenBalances.pad32 s = repeat 48 (64 - length s) ++ s
     /\ length (TokenBalances.pad32 s) = 64%nat
     /\ padLeftTo32Bytes_spec s = Padded (TokenBalances.pad32 s))
  /\ ((64 < length s)%nat -> TokenBalances.pad32 s = s).
Proof.
  unfold TokenBalances.pad32. rewrite padStart_zero by lia.
  change (Z.to_nat 64) with 64%nat.
  split; intros H.
  - repeat split.
    + rewrite length_app, repeat_length. lia.
    + unfold padLeftTo32Bytes_spec.
      destruct (Nat.ltb_spec 64 (length s)); [lia|done].
  - replace (64 - length s)%nat with 0%nat by lia. done.
Qed.

(** C8 on samples: three digits are padded to 64, 65 digits stay 65. *)
Lemma pad32_pads_or_keeps_samples :
  TokenBalances.pad32 (lit "abc") = repeat 48 61 ++ lit "abc"
  /\ TokenBalances.pad32 (repeat 49 65) = repeat 49 65.
Proof.
  split.
  - destruct (pad32_pads_or_keeps (lit "abc")) as [H _].
    assert (length (lit "abc") <= 64)%nat as Hle by (vm_compute; lia).
    exact (proj1 (H Hle)).
  - destruct (pad32_pads_or_keeps (repeat 49 65)) as [_ H].
    assert (64 < length (repeat 49 65))%nat as Hlt by (vm_compute; lia).
    exact (H Hlt).
Defined.

(** C8 as stated fails: on 65 digits the specification asks for the error
    [OversizeValue]; [pad32] returns the 65 digits. *)
Lemma pad32_oversize_no_error :
  padLeftTo32Bytes_spec (repeat 49 65) = OversizeValue
  /\ TokenBalances.pad32 (repeat 49 65) = repeat 49 65
  /\ Padded (TokenBalances.pad32 (repeat 49 65)) <> padLeftTo32Bytes_spec (repeat 49 65).
Proof. vm_compute. repeat split; discriminate. Qed.

End Failures.

(* ===================================================================== *)
(** * [formatUnits]                                                       *)
(* ===================================================================== *)

Section Formatter.

Lemma decimal_digits_acc (fuel : nat) (n : Z) (acc : jsstring) :
  decimal_digits fuel n acc = decimal_digits fuel n [] ++ acc.
Proof.
  revert n acc. induction fuel as [|fuel IH]; intros n acc; simpl; [done|].
  destruct (n <? 10); [done|].
  rewrite IH, (IH _ [_]). by rewrite <- app_assoc.
Qed.

Lemma decimal_digits_step (fuel : nat) (n : Z) :
  10 <= n ->
  decimal_digits (S fuel) n []
  = decimal_digits fuel (n / 10) [] ++ [48 + n mod 10].
Proof.
  intros Hn. simpl. destruct (Z.ltb_spec n 10); [lia|].
  apply decimal_digits_acc.
Qed.

Lemma decimal_digits_small (fuel : nat) (n : Z) :
  n < 10 -> decimal_digits fuel n [] = [48 + n mod 10].
Proof.
  intros Hn. destruct fuel; simpl; [done|].
  destruct (Z.ltb_spec n 10); [done|lia].
Qed.

Lemma is_decimal_digits (fuel : nat) (n : Z) :
  is_decimal (decimal_digits fuel n []).
Proof.
  revert n. induction fuel as [|fuel IH]; intros n.
  - simpl. constructor; [|constructor]. pose proof (Z.mod_pos_bound n 10). lia.
  - destruct (Z.lt_ge_cases n 10).
    + rewrite decimal_digits_small by done.
      constructor; [|constructor]. pose proof (Z.mod_pos_bound n 10). lia.
    + rewrite decimal_digits_step by done. apply Forall_app. split; [apply IH|].
      constructor; [|constructor]. pose proof (Z.mod_pos_bound n 10). lia.
Qed.

Lemma decimal_value_snoc (s : jsstring) (c : Z) :
  decimal_value (s ++ [c]) = 10 * decimal_value s + (c - 48).
Proof. unfold decimal_value. by rewrite fold_left_app. Qed.

Lemma decimal_value_digits (fuel : nat) (n : Z) :
  0 <= n < 10 ^ (Z.of_nat fuel + 1) ->
  decimal_value (decimal_digits fuel n []) = n.
Proof.
  revert n. induction fuel as [|fuel IH]; intros n Hn.
  - change (10 ^ (Z.of_nat 0 + 1)) with 10 in Hn.
    rewrite decimal_digits_small by lia.
    unfold decimal_value. simpl. rewrite Z.mod_small by lia. lia.
  - destruct (Z.lt_ge_cases n 10).
    + rewrite decimal_digits_small by lia.
      unfold decimal_value. simpl. rewrite Z.mod_small by lia. lia.
    + rewrite decimal_digits_step, decimal_value_snoc by done.
      rewrite IH.
      * pose proof (Z.div_mod n 10). lia.
      * split; [apply Z.div_pos; lia|].
        apply Z.div_lt_upper_bound; [lia|].
        replace (Z.of_nat (S fuel) + 1) with (Z.succ (Z.of_nat fuel + 1)) in Hn by lia.
        rewrite Z.pow_succ_r in Hn by lia. lia.
Qed.

Lemma decimal_digits_length (fuel : nat) (n d : Z) :
  1 <= d -> 0 <= n < 10 ^ d ->
  (length (decimal_digits fuel n []) <= Z.to_nat d)%nat.
Proof.
  revert n d. induction fuel as [|fuel IH]; intros n d Hd Hn.
  - simpl. lia.
  - destruct (Z.lt_ge_cases n 10).
    + rewrite decimal_digits_small by lia. simpl. lia.
    + rewrite decimal_digits_step by done. rewrite length_app. simpl.
      assert (2 <= d).
      { destruct (Z.eq_dec d 1) as [->|]; [|lia]. change (10 ^ 1) with 10 in Hn. lia. }
      assert (length (decimal_digits fuel (n / 10) []) <= Z.to_nat (d - 1))%nat; [|lia].
      apply IH; [lia|]. split; [apply Z.div_pos; lia|].
      apply Z.div_lt_upper_bound; [lia|].
      replace d with (Z.succ (d - 1)) in Hn by lia.
      rewrite Z.pow_succ_r in Hn by lia. lia.
Qed.

Lemma toString_nonneg (n : Z) :
  0 <= n -> BigInt_toString n = decimal_digits (Z.to_nat (Z.log2 n)) n [].
Proof. intros Hn. unfold BigInt_toString. destruct (Z.ltb_spec n 0); [lia|done]. Qed.

(** On non-negative bigints [toString] writes the decimal digits of the
    number. *)
Lemma toString_decimal (n : Z) :
  0 <= n -> is_decimal (BigInt_toString n) /\ decimal_value (BigInt_toString n) = n.
Proof.
  intros Hn. rewrite toString_nonneg by done.
  split; [apply is_decimal_digits|].
  apply decimal_value_digits. split; [done|].
  pose proof (Z.log2_nonneg n).
  rewrite Z2Nat.id by done.
  destruct (Z.eq_dec n 0) as [->|]; [done|].
  pose proof (Z.log2_spec n ltac:(lia)) as [_ Hup].
  eapply Z.lt_le_trans; [exact Hup|].
  replace (Z.succ (Z.log2 n)) with (Z.log2 n + 1) by lia.
  apply Z.pow_le_mono_l. lia.
Qed.

Lemma decimal_digits_nonempty (fuel : nat) (n : Z) :
  decimal_digits fuel n [] <> [].
Proof.
  destruct fuel; simpl; [done|].
  destruct (n <? 10); [done|].
  rewrite decimal_digits_acc. by destruct (decimal_digits fuel (n / 10) []).
Qed.

Lemma decimal_digits_head (fuel : nat) (n : Z) :
  0 < n < 10 ^ (Z.of_nat fuel + 1) ->
  head (decimal_digits fuel n []) <> Some 48.
Proof.
  revert n. induction fuel as [|fuel IH]; intros n Hn.
  - change (10 ^ (Z.of_nat 0 + 1)) with 10 in Hn.
    rewrite decimal_digits_small by lia. simpl.
    rewrite Z.mod_small by lia. intros [=]. lia.
  - destruct (Z.lt_ge_cases n 10).
    + rewrite decimal_digits_small by lia. simpl.
      rewrite Z.mod_small by lia. intros [=]. lia.
    + rewrite decimal_digits_step by done.
      assert (0 < n / 10 < 10 ^ (Z.of_nat fuel + 1)) as Hq.
      { split; [apply Z.div_str_pos; lia|].
        apply Z.div_lt_upper_bound; [lia|].
        replace (Z.of_nat (S fuel) + 1) with (Z.succ (Z.of_nat fuel + 1)) in Hn by lia.
        rewrite Z.pow_succ_r in Hn by lia. lia. }
      specialize (IH _ Hq).
      pose proof (decimal_digits_nonempty fuel (n / 10)).
      by destruct (decimal_digits fuel (n / 10) []).
Qed.

(** [toString] writes no leading zero. *)
Lemma toString_no_leading_zero (n : Z) :
  0 < n -> head (BigInt_toString n) <> Some 48.
Proof.
  intros Hn. rewrite toString_nonneg by lia.
  apply decimal_digits_head. split; [done|].
  pose proof (Z.log2_nonneg n). rewrite Z2Nat.id by done.
  pose proof (Z.log2_spec n Hn) as [_ Hup].
  eapply Z.lt_le_trans; [exact Hup|].
  replace (Z.succ (Z.log2 n)) with (Z.log2 n + 1) by lia.
  apply Z.pow_le_mono_l. lia.
Qed.

Lemma decimal_value_zeros (k : nat) (s : jsstring) :
  decimal_value (repeat 48 k ++ s) = decimal_value s.
Proof.
  unfold decimal_value. rewrite fold_left_app. f_equal.
  induction k as [|k IH]; simpl; [done|exact IH].
Qed.

Lemma is_decimal_zeros (k : nat) : is_decimal (repeat 48 k).
Proof. induction k; simpl; constructor; [lia|done]. Qed.

(** What [replace(/0+$/g, "")] leaves: the string without its trailing
    zeros. *)
Lemma replace_trailing_zeros_spec (s : jsstring) :
  exists k, s = replace_trailing_zeros s ++ repeat 48 k
            /\ last (replace_trailing_zeros s) <> Some 48.
Proof.
  induction s as [|c r (k & Hr & Hlast)]; simpl.
  - by exists 0%nat.
  - destruct (replace_trailing_zeros r) as [|x r'] eqn:E.
    + destruct (Z.eqb_spec c 48) as [->|Hc].
      * exists (S k). simpl in *. by rewrite Hr at 1.
      * exists k. simpl in *. split; [by f_equal|]. intros [=]. done.
    + exists k. split; [simpl; by f_equal|].
      by rewrite last_cons_cons.
Qed.

Lemma formatUnits_positive (amount d : Z) :
  0 <= amount -> 0 < d < 2 ^ 53 ->
  let whole := amount / 10 ^ d in
  let frac := amount mod 10 ^ d in
  let fracStr := repeat 48 (Z.to_nat d - length (BigInt_toString frac))
                 ++ BigInt_toString frac in
  let trimmed := replace_trailing_zeros fracStr in
  jslength fracStr = d
  /\ is_decimal fracStr
  /\ decimal_value fracStr = frac
  /\ TokenBalances.formatUnits amount (Num d)
     = Return (match trimmed with
               | [] => BigInt_toString whole
               | _ => BigInt_toString whole ++ lit "." ++ trimmed
               end).
Proof.
  intros Ha Hd whole frac fracStr trimmed.
  assert (0 < 10 ^ d) as Hbase by (apply Z.pow_pos_nonneg; lia).
  pose proof (Z.mod_pos_bound amount (10 ^ d) Hbase) as Hfrac. fold frac in Hfrac.
  destruct (toString_decimal frac) as [Hdec Hval]; [lia|].
  assert (length (BigInt_toString frac) <= Z.to_nat d)%nat as Hlen.
  { rewrite toString_nonneg by lia. apply decimal_digits_length; lia. }
  repeat split.
  - unfold fracStr, jslength. rewrite length_app, repeat_length. lia.
  - apply Forall_app. split; [apply is_decimal_zeros|done].
  - unfold fracStr. by rewrite decimal_value_zeros.
  - unfold TokenBalances.formatUnits. simpl number_le.
    destruct (Z.leb_spec d 0); [lia|].
    cbn [BigInt_of_number cbind].
    rewrite Z.quot_div_nonneg, Z.rem_mod_nonneg by lia.
    fold whole frac. rewrite padStart_zero by lia. done.
Qed.

(** C6. For an unsigned amount and [0 < decimals <= max_decimals] (the
    [uint8] of the specification, a range in which [10n ** BigInt(decimals)]
    and [padStart] are served by every engine), [formatUnits] returns [whole] alone or [whole "." trimmed], where
    [whole] is [amount / 10^decimals] in decimal, and [trimmed] comes from
    the fraction string: exactly [decimals] decimal digits whose value is
    [amount mod 10^decimals], with the trailing zeros removed ([trimmed]
    followed by zeros is the fraction string, and [trimmed] does not end in
    ['0']).  For [decimals <= 0] it returns the decimal string of the
    amount.  The decimal string of a number is made of decimal digits, has
    the number as its value and no leading zero.  Amounts are unbounded
    integers, so nothing is rounded, at 2^256-1 as elsewhere.  The four
    sample values are as the specification lists them. *)
Theorem formatUnits_fixed_point :
  (forall amount d,
     0 <= amount -> 0 < d <= max_decimals ->
     exists fracStr trimmed zeros,
       jslength fracStr = d
       /\ is_decimal fracStr
       /\ decimal_value fracStr = amount mod 10 ^ d
       /\ fracStr = trimmed ++ repeat 48 zeros
       /\ last trimmed <> Some 48
       /\ TokenBalances.formatUnits amount (Num d)
          = Return (match trimmed with
                    | [] => BigInt_toString (amount / 10 ^ d)
                    | _ => BigInt_toString (amount / 10 ^ d) ++ lit "." ++ trimmed
                    end))
  /\ (forall amount d,
        d <= 0 -> TokenBalances.formatUnits amount (Num d) = Return (BigInt_toString amount))
  /\ (forall n,
        0 <= n -> is_decimal (BigInt_toString n) /\ decimal_value (BigInt_toString n) = n)
  /\ (forall n, 0 < n -> head (BigInt_toString n) <> Some 48)
  /\ TokenBalances.formatUnits 1234567890123456789 (Num 18)
     = Return (lit "1.234567890123456789")
  /\ TokenBalances.formatUnits 1000000000000000000 (Num 18) = Return (lit "1")
  /\ TokenBalances.formatUnits 0 (Num 18) = Return (lit "0")
  /\ TokenBalances.formatUnits 5 (Num 0) = Return (lit "5")
  /\ TokenBalances.formatUnits (2 ^ 256 - 1) (Num 18)
     = Return (lit "115792089237316195423570985008687907853269984665640564039457.584007913129639935").
Proof.
  split.
  { intros amount d Ha Hd.
    assert (0 < d < 2 ^ 53) as Hsafe by (unfold max_decimals in Hd; lia).
    destruct (formatUnits_positive amount d Ha Hsafe) as (H1 & H2 & H3 & H4).
    destruct (replace_trailing_zeros_spec
                (repeat 48 (Z.to_nat d - length (BigInt_toString (amount mod 10 ^ d)))
                 ++ BigInt_toString (amount mod 10 ^ d))) as (k & Hk & Hlast).
    eexists _, _, k.
    split; [exact H1|]. split; [exact H2|]. split; [exact H3|].
    split; [exact Hk|]. split; [exact Hlast|exact H4]. }
  split.
  { intros amount d Hd. unfold TokenBalances.formatUnits. simpl number_le.
    destruct (Z.leb_spec d 0); [done|lia]. }
  split; [exact toString_decimal|].
  split; [exact toString_no_leading_zero|].
  vm_compute. repeat split.
Qed.

(** C6 at 1.5 units of an 18-decimals token. *)
Lemma formatUnits_fixed_point_sample :
  exists fracStr trimmed zeros,
    jslength fracStr = 18
    /\ is_decimal fracStr
    /\ decimal_value fracStr = 1500000000000000000 mod 10 ^ 18
    /\ fracStr = trimmed ++ repeat 48 zeros
    /\ last trimmed <> Some 48
    /\ TokenBalances.formatUnits 1500000000000000000 (Num 18)
       = Return (match trimmed with
                 | [] => BigInt_toString (1500000000000000000 / 10 ^ 18)
                 | _ => BigInt_toString (1500000000000000000 / 10 ^ 18)
                        ++ lit "." ++ trimmed
                 end).
Proof.
  destruct formatUnits_fixed_point as [H _].
  apply (H 1500000000000000000 18); unfold max_decimals; lia.
Defined.

End Formatter.

(* ===================================================================== *)
(** * [getTokenMeta]                                                      *)
(* ===================================================================== *)

Section Metadata.
Import Rpc.

Lemma getTokenMeta_decimals_call_fails (address : jsstring) r1 rest e :
  TokenBalances.rpc_result r1 = Throw e ->
  run (TokenBalances.getTokenMeta address) (r1 :: rest) = Some (Throw e).
Proof.
  intros H. unfold TokenBalances.getTokenMeta, TokenBalances.rpcCall.
  cbn [abind run]. rewrite H. reflexivity.
Qed.

Lemma getTokenMeta_decimals_decode_fails (address : jsstring) r1 rest hex e :
  TokenBalances.rpc_result r1 = Return hex ->
  TokenBalances.hexToBigInt hex = Throw e ->
  run (TokenBalances.getTokenMeta address) (r1 :: rest) = Some (Throw e).
Proof.
  intros H1 H2. unfold TokenBalances.getTokenMeta, TokenBalances.rpcCall.
  cbn [abind run]. rewrite H1. cbn [abind]. rewrite H2. reflexivity.
Qed.

Lemma getTokenMeta_after_decimals (address : jsstring) r1 r2 rest hex b :
  TokenBalances.rpc_result r1 = Return hex ->
  TokenBalances.hexToBigInt hex = Return b ->
  exists symbol,
    run (TokenBalances.getTokenMeta address) (r1 :: r2 :: rest)
    = Some (Return {| TokenBalances.address := address;
                      TokenBalances.symbol := symbol;
                      TokenBalances.decimals := stored_decimals b |})
    /\ (symbol_step_failed r2 -> symbol = lit "?")
    /\ (forall s sym, TokenBalances.rpc_result r2 = Return s ->
          TokenBalances.tryDecodeStringFromAbi s = Return (Some sym) ->
          sym <> [] -> symbol = sym).
Proof.
  intros H1 H2. unfold TokenBalances.getTokenMeta, TokenBalances.rpcCall.
  cbn [abind atry run]. rewrite H1. cbn [abind]. rewrite H2. cbn [abind atry run].
  destruct (TokenBalances.rpc_result r2) as [s|e2] eqn:E2; cbn [abind atry run].
  - destruct (token_decode_returns s) as [r Hr].
    rewrite Hr. cbn [abind atry run].
    eexists. split; [reflexivity|]. split.
    + intros [[e He]|(s' & Hs' & Hnull)]; [congruence|].
      assert (s' = s) as -> by congruence.
      assert (r = None) as -> by congruence. done.
    + intros s' sym Hs' Hsym Hne.
      assert (s' = s) as -> by congruence.
      assert (r = Some sym) as -> by congruence.
      by destruct sym.
  - eexists. split; [reflexivity|]. split; [done|]. intros s sym Hs. congruence.
Qed.

(** C3. In [getTokenMeta], [decimals()] is required: when the call throws,
    or when [BigInt] rejects its result, the whole fetch throws that same
    error.  Once [decimals()] has succeeded the fetch always returns a
    record for the address: [symbol()] is best-effort, and when the call
    throws or the decoder returns [null] the symbol is ["?"].  The stored
    [decimals] is the decoded number when it is finite, and 18 when it is
    not. *)
Theorem getTokenMeta_required_and_best_effort (address : jsstring) :
  (forall r1 rest e,
     TokenBalances.rpc_result r1 = Throw e ->
     run (TokenBalances.getTokenMeta address) (r1 :: rest) = Some (Throw e))
  /\ (forall r1 rest hex e,
        TokenBalances.rpc_result r1 = Return hex ->
        TokenBalances.hexToBigInt hex = Throw e ->
        run (TokenBalances.getTokenMeta address) (r1 :: rest) = Some (Throw e))
  /\ (forall r1 r2 rest hex b,
        TokenBalances.rpc_result r1 = Return hex ->
        TokenBalances.hexToBigInt hex = Return b ->
        exists symbol decimals,
          run (TokenBalances.getTokenMeta address) (r1 :: r2 :: rest)
          = Some (Return {| TokenBalances.address := address;
                            TokenBalances.symbol := symbol;
                            TokenBalances.decimals := decimals |})
          /\ (symbol_step_failed r2 -> symbol = lit "?")
          /\ (Number_isFinite (Number_of_BigInt b) = false -> decimals = Num 18)
          /\ (Number_isFinite (Number_of_BigInt b) = true ->
                decimals = Number_of_BigInt b)).
Proof.
  split; [apply getTokenMeta_decimals_call_fails|].
  split; [apply getTokenMeta_decimals_decode_fails|].
  intros r1 r2 rest hex b H1 H2.
  destruct (getTokenMeta_after_decimals address r1 r2 rest hex b H1 H2)
    as (symbol & Hrun & Hfail & _).
  exists symbol, (stored_decimals b).
  split; [exact Hrun|]. split; [exact Hfail|].
  unfold stored_decimals. split; intros ->; reflexivity.
Qed.

(** C3 on samples: an unreachable node at [decimals()] makes the fetch
    throw; with [decimals()] answering 2^1024 and [symbol()] rejected, the
    fetch returns symbol ["?"] and decimals 18. *)
Lemma getTokenMeta_required_and_best_effort_samples :
  run (TokenBalances.getTokenMeta (lit "0xf39Fd6e51aad88F6F4ce6aB8827279cffFb92266"))
      [Rejected]
  = Some (Throw TypeError)
  /\ run (TokenBalances.getTokenMeta (lit "0xf39Fd6e51aad88F6F4ce6aB8827279cffFb92266"))
         [reply_ok hex_2_pow_1024; Rejected]
     = Some (Return {| TokenBalances.address :=
                         lit "0xf39Fd6e51aad88F6F4ce6aB8827279cffFb92266";
                       TokenBalances.symbol := lit "?";
                       TokenBalances.decimals := Num 18 |}).
Proof.
  destruct (getTokenMeta_required_and_best_effort
              (lit "0xf39Fd6e51aad88F6F4ce6aB8827279cffFb92266")) as (Hcall & _ & Hok).
  split.
  - apply (Hcall Rejected [] TypeError). reflexivity.
  - assert (TokenBalances.rpc_result (reply_ok hex_2_pow_1024) = Return hex_2_pow_1024)
      as H1 by reflexivity.
    assert (TokenBalances.hexToBigInt hex_2_pow_1024 = Return (2 ^ 1024))
      as H2 by (vm_compute; reflexivity).
    destruct (Hok (reply_ok hex_2_pow_1024) Rejected [] hex_2_pow_1024 (2 ^ 1024) H1 H2)
      as (symbol & decimals & Hrun & Hsym & Hinf & _).
    assert (symbol = lit "?") as Es.
    { apply Hsym. left. exists TypeError. reflexivity. }
    assert (decimals = Num 18) as Ed.
    { apply Hinf. vm_compute. reflexivity. }
    rewrite Es, Ed in Hrun. exact Hrun.
Defined.

End Metadata.

(* ===================================================================== *)
(** * The batched query: results in request order                        *)
(* ===================================================================== *)

Section Batch.
Import Rpc.

Lemma response_with_id_unique (data : list RpcResponse) (k : Z) (r : RpcResponse) :
  NoDup (id <$> data) ->
  response_with_id k data = Some r <-> r ∈ data /\ id r = k.
Proof.
  unfold response_with_id. induction data as [|x rest IH]; intros Hnd.
  - simpl. split; [done|]. intros [H _]. by apply elem_of_nil in H.
  - rewrite fmap_cons in Hnd. apply NoDup_cons in Hnd as [Hx Hrest].
    simpl. case_bool_decide as Hid.
    + split.
      * intros [= ->]. split; [left|done].
      * intros [Hin Hk]. apply elem_of_cons in Hin as [->|Hin]; [done|].
        exfalso. apply Hx. rewrite Hid, <- Hk. by apply list_elem_of_fmap_2.
    + rewrite IH by done. split.
      * intros [Hin Hk]. split; [by right|done].
      * intros [Hin Hk]. apply elem_of_cons in Hin as [->|Hin]; [done|]. done.
Qed.

Lemma response_with_id_perm (data data' : list RpcResponse) (k : Z) :
  NoDup (id <$> data) -> data' ≡ₚ data ->
  response_with_id k data' = response_with_id k data.
Proof.
  intros Hnd Hperm.
  assert (NoDup (id <$> data')) as Hnd' by (by rewrite Hperm).
  destruct (response_with_id k data) as [r|] eqn:E.
  - apply response_with_id_unique in E as [Hin Hk]; [|done].
    apply response_with_id_unique; [done|]. by rewrite Hperm.
  - destruct (response_with_id k data') as [r'|] eqn:E'; [|done].
    apply response_with_id_unique in E' as [Hin Hk]; [|done].
    rewrite Hperm in Hin.
    assert (response_with_id k data = Some r') as E''
      by (by apply response_with_id_unique).
    congruence.
Qed.

(** The [Map] built by the loop sends an id to the response that carries
    it. *)
Lemma index_by_id_acc (data : list RpcResponse) (m : gmap Z RpcResponse) (k : Z) :
  NoDup (id <$> data) ->
  foldl (fun byId r => <[id r := r]> byId) m data !! k
  = match response_with_id k data with
    | Some r => Some r
    | None => m !! k
    end.
Proof.
  revert m. induction data as [|x rest IH]; intros m Hnd; [done|].
  rewrite fmap_cons in Hnd. apply NoDup_cons in Hnd as [Hx Hrest].
  cbn [foldl]. rewrite IH by done.
  unfold response_with_id. simpl. case_bool_decide as Hid.
  - destruct (find _ rest) as [r|] eqn:E.
    + exfalso. apply Hx.
      apply (response_with_id_unique rest k r Hrest) in E as [Hin Hk].
      rewrite Hid, <- Hk. by apply list_elem_of_fmap_2.
    + rewrite Hid. apply lookup_insert_eq.
  - destruct (find _ rest); [done|]. by apply lookup_insert_ne.
Qed.

Lemma index_by_id_lookup (data : list RpcResponse) (k : Z) :
  NoDup (id <$> data) ->
  Page.index_by_id data !! k = response_with_id k data.
Proof.
  intros Hnd. unfold Page.index_by_id. rewrite index_by_id_acc by done.
  destruct (response_with_id k data); [done|apply lookup_empty].
Qed.

(** With several responses for one id the [Map] keeps the last one. *)
Lemma index_by_id_last (data : list RpcResponse) (k : Z) :
  Page.index_by_id data !! k = response_with_id k (reverse data).
Proof.
  unfold Page.index_by_id, response_with_id.
  induction data as [|x rest IH] using rev_ind; [apply lookup_empty|].
  rewrite foldl_app, reverse_app. simpl. case_bool_decide as Hid.
  - rewrite Hid. apply lookup_insert_eq.
  - by rewrite lookup_insert_ne.
Qed.

Lemma correlate_in_request_order (reqs : list Page.RpcRequest)
    (data : list RpcResponse) :
  Page.correlate reqs data
  = map (fun q => result_for (Page.req_id q) (reverse data)) reqs.
Proof.
  unfold Page.correlate. apply map_ext. intros q.
  unfold Page.slot, result_for. rewrite index_by_id_last.
  destruct (response_with_id _ _) as [resp|]; [|done].
  unfold response_value.
  destruct (error resp); [done|]. by destruct (result resp) as [[|c hex]|].
Qed.

Lemma slot_result_for (data : list RpcResponse) (q : Page.RpcRequest) :
  NoDup (id <$> data) ->
  Page.slot (Page.index_by_id data) q = result_for (Page.req_id q) data.
Proof.
  intros Hnd. unfold Page.slot, result_for. rewrite index_by_id_lookup by done.
  destruct (response_with_id _ data) as [resp|]; [|done].
  unfold response_value.
  destruct (error resp); [done|]. by destruct (result resp) as [[|c hex]|].
Qed.

Lemma correlate_result_for (reqs : list Page.RpcRequest) (data : list RpcResponse) :
  NoDup (id <$> data) ->
  Page.correlate reqs data = map (fun q => result_for (Page.req_id q) data) reqs.
Proof.
  intros Hnd. unfold Page.correlate. apply map_ext. intros q.
  by apply slot_result_for.
Qed.

Lemma result_for_perm (data data' : list RpcResponse) (k : Z) :
  NoDup (id <$> data) -> data' ≡ₚ data ->
  result_for k data' = result_for k data.
Proof.
  intros Hnd Hperm. unfold result_for. by rewrite (response_with_id_perm data data').
Qed.

Lemma correlate_perm (reqs : list Page.RpcRequest) (data data' : list RpcResponse) :
  NoDup (id <$> data) -> data' ≡ₚ data ->
  Page.correlate reqs data' = Page.correlate reqs data.
Proof.
  intros Hnd Hperm.
  assert (NoDup (id <$> data')) as Hnd' by (by rewrite Hperm).
  rewrite !correlate_result_for by done. apply map_ext. intros q.
  by apply result_for_perm.
Qed.

(** The ids given by [build_requests] are 1, 2, ... in the order of the
    addresses. *)
Lemma build_requests_ids (addresses : list jsstring) (f : Z -> option Z) (k : nat) :
  map (fun q => f (Page.req_id q))
      (imap (fun i addr => {| Page.req_id := Z.of_nat (k + i) + 1;
                              Page.method := lit "eth_getBalance";
                              Page.params := [PString addr; PString (lit "latest")] |})
            addresses)
  = map (fun i => f (Z.of_nat i + 1)) (seq k (length addresses)).
Proof.
  revert k. induction addresses as [|a rest IH]; intros k; [done|].
  rewrite imap_cons. cbn [map seq length]. f_equal.
  - cbn [Page.req_id]. f_equal. lia.
  - rewrite <- (IH (S k)). f_equal. apply imap_ext. intros i x _. simpl.
    f_equal. lia.
Qed.

Lemma fetchBalances_result (addresses : list jsstring) (data : list RpcResponse)
    (status : Z) :
  NoDup (id <$> data) ->
  run (Page.fetchBalances addresses) [Response true status (Json data)]
  = Some (Return (map (fun i => result_for (Z.of_nat i + 1) data)
                      (seq 0 (length addresses)))).
Proof.
  intros Hnd. unfold Page.fetchBalances. cbn [atry run negb].
  rewrite correlate_result_for by done.
  unfold Page.build_requests. do 2 f_equal.
  apply (build_requests_ids addresses (fun k => result_for k data) 0).
Qed.

(** C1. The re-association step returns one result per request, in the
    order of the requests, each slot being found by the id of its request
    (the last response that carries it).  Whatever the order of the reply
    array (any permutation [data'] of a reply [data] with one response per
    id), the slot of a request is the result of the response that carries
    its id (none when no response does), and the list returned is the same;
    [fetchBalances], whose requests carry the ids
    1, 2, ... in the order of the addresses, returns the results in the
    order of the addresses.  For the ids 3, 1, 2 answered in the order
    2, 3, 1 the results are those for 3, 1, 2. *)
Theorem fetchBalances_request_order :
  (forall data reqs,
     Page.correlate reqs data
     = map (fun q => result_for (Page.req_id q) (reverse data)) reqs)
  /\ (forall data data' reqs,
     NoDup (id <$> data) -> data' ≡ₚ data ->
     Page.correlate reqs data'
     = map (fun q => result_for (Page.req_id q) data) reqs)
  /\ (forall data data' addresses status,
        NoDup (id <$> data) -> data' ≡ₚ data ->
        run (Page.fetchBalances addresses) [Response true status (Json data')]
        = Some (Return (map (fun i => result_for (Z.of_nat i + 1) data)
                            (seq 0 (length addresses)))))
  /\ Page.correlate requests_312 answers_231 = [Some 990; Some 506; Some 700]
  /\ result_for 3 answers_231 = Some 990
  /\ result_for 1 answers_231 = Some 506
  /\ result_for 2 answers_231 = Some 700.
Proof.
  split; [intros data reqs; apply correlate_in_request_order|].
  split.
  { intros data data' reqs Hnd Hperm.
    rewrite (correlate_perm reqs data data') by done.
    by apply correlate_result_for. }
  split.
  { intros data data' addresses status Hnd Hperm.
    assert (NoDup (id <$> data')) as Hnd' by (by rewrite Hperm).
    rewrite fetchBalances_result by done.
    do 2 f_equal. apply map_ext. intros i. by apply result_for_perm. }
  vm_compute. repeat split.
Qed.

Lemma answers_ids_distinct : NoDup (id <$> answers_123).
Proof.
  change (id <$> answers_123) with [1; 2; 3].
  apply (bool_decide_unpack _). vm_compute. exact I.
Qed.

Lemma answers_231_perm : answers_231 ≡ₚ answers_123.
Proof.
  unfold answers_231, answers_123.
  apply (Permutation_app_comm
           [answer_with_id 2 (lit "0x2bc"); answer_with_id 3 (lit "0x3de")]
           [answer_with_id 1 (lit "0x1fa")]).
Qed.

(** C1 on the sample batch: the reply in the order 2, 3, 1 gives the
    results in the order of the requests, 3, 1, 2, and [fetchBalances] on
    three addresses gives them in the order 1, 2, 3. *)
Lemma fetchBalances_request_order_sample :
  Page.correlate requests_312 answers_231
  = map (fun q => result_for (Page.req_id q) answers_123) requests_312
  /\ run (Page.fetchBalances [lit "0xa"; lit "0xb"; lit "0xc"])
         [Response true 200 (Json answers_231)]
     = Some (Return (map (fun i => result_for (Z.of_nat i + 1) answers_123)
                         (seq 0 3))).
Proof.
  destruct fetchBalances_request_order as (_ & Hc & Hf & _).
  split.
  - exact (Hc answers_123 answers_231 requests_312
              answers_ids_distinct answers_231_perm).
  - exact (Hf answers_123 answers_231 [lit "0xa"; lit "0xb"; lit "0xc"] 200
              answers_ids_distinct answers_231_perm).
Defined.

End Batch.

(* ===================================================================== *)
(** * The registry of a panel                                             *)
(* ===================================================================== *)

Section Registry.
Import Rpc Panel.

Context {Meta Q : Type}.
Variable address : Meta -> jsstring.
Variable getMeta : jsstring -> async Q (fetch_result RpcResponse) Meta.
Variable getBalance : jsstring -> jsstring -> async Q (fetch_result RpcResponse) Z.
Variable display : Meta -> Z -> completion jsstring.

Hypothesis getMeta_address : forall addr, returns_address address addr (getMeta addr).

Lemma not_registered (addr : jsstring) (ts : list Meta) :
  existsb (same_address address addr) ts = false ->
  toLowerCase addr ∉ lower_addresses address ts.
Proof.
  unfold lower_addresses. induction ts as [|t ts IH]; intros H.
  - apply not_elem_of_nil.
  - cbn [existsb] in H. apply orb_false_iff in H as [Ht Hts].
    rewrite fmap_cons. apply not_elem_of_cons. split; [|by apply IH].
    unfold same_address in Ht. apply bool_decide_eq_false in Ht. congruence.
Qed.

Lemma lower_filter_subset (P : Meta -> Prop) `{!forall t, Decision (P t)}
    (ts : list Meta) (a : jsstring) :
  a ∈ lower_addresses address (filter P ts) -> a ∈ lower_addresses address ts.
Proof.
  unfold lower_addresses. intros Hin.
  apply list_elem_of_fmap in Hin as (t & -> & Ht).
  apply list_elem_of_filter in Ht as [_ Ht].
  by apply (list_elem_of_fmap_2 (fun t => toLowerCase (address t))).
Qed.

Lemma lower_filter_NoDup (P : Meta -> Prop) `{!forall t, Decision (P t)}
    (ts : list Meta) :
  NoDup (lower_addresses address ts) ->
  NoDup (lower_addresses address (filter P ts)).
Proof.
  induction ts as [|t ts IH]; intros Hnd; [done|].
  unfold lower_addresses in Hnd. rewrite fmap_cons in Hnd.
  apply NoDup_cons in Hnd as [Ht Hts].
  rewrite filter_cons. destruct (decide (P t)); [|by apply IH].
  unfold lower_addresses. rewrite fmap_cons. apply NoDup_cons. split.
  - intros Hin. apply Ht. by apply (lower_filter_subset P).
  - by apply IH.
Qed.

Lemma lower_snoc_NoDup (ts : list Meta) (m : Meta) :
  NoDup (lower_addresses address ts) ->
  toLowerCase (address m) ∉ lower_addresses address ts ->
  NoDup (lower_addresses address (ts ++ [m])).
Proof.
  intros Hnd Hm. unfold lower_addresses in *. rewrite fmap_app.
  apply NoDup_app. split; [done|]. split.
  - intros x Hx Hx'. apply list_elem_of_singleton in Hx'. by subst.
  - apply NoDup_singleton.
Qed.

(** The registrations in flight when one task is removed or replaced. *)
Lemma adding_delete_refresh (l : list (@task Meta Q)) i meta c p :
  l !! i = Some (Refreshing meta c p) ->
  omap adding (delete i l) = omap adding l.
Proof.
  intros H. apply list_elem_of_split_length in H as (l1 & l2 & -> & ->).
  rewrite delete_middle, !omap_app. done.
Qed.

Lemma adding_insert_refresh (l : list (@task Meta Q)) i meta c p meta' c' p' :
  l !! i = Some (Refreshing meta c p) ->
  omap adding (<[i := Refreshing meta' c' p']> l) = omap adding l.
Proof.
  intros H. apply list_elem_of_split_length in H as (l1 & l2 & -> & ->).
  rewrite insert_app_r_alt by lia. rewrite Nat.sub_diag, !omap_app. done.
Qed.

Lemma adding_single (l : list (@task Meta Q)) i p p0 :
  l !! i = Some (Adding p) -> omap adding l = [p0] ->
  p0 = p
  /\ omap adding (delete i l) = []
  /\ forall p', omap adding (<[i := Adding p']> l) = [p'].
Proof.
  intros H Hone. apply list_elem_of_split_length in H as (l1 & l2 & -> & ->).
  rewrite omap_app in Hone. simpl in Hone.
  destruct (omap adding l1) as [|x l1'] eqn:E1.
  - simpl in Hone. injection Hone as -> E2.
    split; [done|]. split.
    + rewrite delete_middle, omap_app, E1. done.
    + intros p'. rewrite insert_app_r_alt by lia.
      rewrite Nat.sub_diag, omap_app, E1. simpl. by f_equal.
  - simpl in Hone. injection Hone as _ Hone.
    by destruct l1'.
Qed.

Lemma adding_lookup_nonempty (l : list (@task Meta Q)) i p :
  l !! i = Some (Adding p) -> omap adding l <> [].
Proof.
  intros H. apply list_elem_of_split_length in H as (l1 & l2 & -> & ->).
  rewrite omap_app. simpl. by destruct (omap adding l1).
Qed.

Lemma returns_address_feed (addr : jsstring)
    (p : async Q (fetch_result RpcResponse) Meta) r :
  returns_address address addr p -> returns_address address addr (feed p r).
Proof. destruct p as [c|q k]; simpl; [done|]. intros H. apply H. Qed.

Lemma refresh_resume_registry now meta c r (s : @state Meta) :
  tokens (refresh_resume address display now meta c r s) = tokens s
  /\ loadingToken (refresh_resume address display now meta c r s) = loadingToken s.
Proof.
  unfold refresh_resume.
  destruct (cbind r (fun raw => display meta raw)); destruct c; done.
Qed.

Lemma keep_active_valid_registry (s : @state Meta) :
  tokens (keep_active_valid address s) = tokens s
  /\ loadingToken (keep_active_valid address s) = loadingToken s.
Proof.
  unfold keep_active_valid. repeat case_match; done.
Qed.

Lemma removeToken_registry addr (s : @state Meta) :
  tokens (removeToken address addr s)
  = filter (fun t => negb (same_address address addr t)) (tokens s)
  /\ loadingToken (removeToken address addr s) = loadingToken s.
Proof. done. Qed.

Lemma registry_inv_same (w w' : @world Meta Q) :
  tokens (ui w') = tokens (ui w) ->
  loadingToken (ui w') = loadingToken (ui w) ->
  omap adding (pending w') = omap adding (pending w) ->
  registry_inv address w -> registry_inv address w'.
Proof. unfold registry_inv. by intros -> -> ->. Qed.

Lemma registry_inv_refresh now (w : @world Meta Q) :
  registry_inv address w ->
  registry_inv address (refresh address getBalance now w).
Proof.
  apply registry_inv_same; unfold refresh; simpl;
    destruct (activeAddr (ui w)) as [[|c a]|]; try done;
    destruct (find _ _); try done;
    destruct (negb _); try done.
  simpl. by rewrite omap_app, app_nil_r.
Qed.

Lemma registry_inv_addToken (w : @world Meta Q) :
  loadingToken (ui w) = false ->
  registry_inv address w ->
  registry_inv address (addToken address getMeta w).
Proof.
  intros Hidle Hinv. unfold addToken.
  destruct (negb (isAddress _)); [by apply (registry_inv_same w)|].
  destruct (existsb _ _) eqn:Hfound; [by apply (registry_inv_same w)|].
  destruct Hinv as [Hnd Hadd]. split; [done|].
  simpl. rewrite omap_app. simpl.
  destruct (omap adding (pending w)) as [|p0 [|p1 l]]; simpl.
  - split; [done|]. eexists. split; [apply getMeta_address|].
    by apply not_registered.
  - destruct Hadd as [Hbusy _]. congruence.
  - done.
Qed.

Lemma registry_inv_answer now i r (w : @world Meta Q) :
  registry_inv address w ->
  registry_inv address (answer address display now i r w).
Proof.
  intros Hinv. unfold answer.
  destruct (pending w !! i) as [[p|meta c p]|] eqn:Hi; [| |done].
  - pose proof (adding_lookup_nonempty _ _ _ Hi) as Hne.
    destruct Hinv as [Hnd Hadd].
    destruct (omap adding (pending w)) as [|p0 [|p1 l]] eqn:Hone; [done| |done].
    destruct Hadd as (Hbusy & addr & Hret & Hfresh).
    destruct (adding_single _ _ _ _ Hi Hone) as (-> & Hdel & Hins).
    pose proof (returns_address_feed addr p r Hret) as Hfed.
    destruct (feed p r) as [[meta|e]|q k].
    + split; simpl; [|by rewrite Hdel].
      apply lower_snoc_NoDup; [done|]. simpl in Hfed. by rewrite Hfed.
    + split; simpl; [done|by rewrite Hdel].
    + split; simpl; [done|]. rewrite Hins.
      split; [done|]. by exists addr.
  - destruct (feed p r) as [c'|q k].
    + apply (registry_inv_same w); simpl; try apply refresh_resume_registry; [|done].
      by apply (adding_delete_refresh _ _ meta c p).
    + apply (registry_inv_same w); simpl; try done.
      by apply (adding_insert_refresh _ _ meta c p).
Qed.

Lemma registry_inv_step now e (w : @world Meta Q) :
  ui_enabled w e = true ->
  registry_inv address w ->
  registry_inv address (step address getMeta getBalance display now e w).
Proof.
  intros Hen Hinv. destruct e; simpl.
  - by apply (registry_inv_same w).
  - apply registry_inv_addToken; [|done].
    simpl in Hen. by destruct (loadingToken (ui w)).
  - destruct Hinv as [Hnd Hadd]. split; simpl.
    + by apply lower_filter_NoDup.
    + destruct (omap adding (pending w)) as [|p0 [|p1 l]]; [done| |done].
      destruct Hadd as (Hbusy & a & Hret & Hfresh).
      split; [done|]. exists a. split; [done|].
      intros Hin. apply Hfresh. by eapply lower_filter_subset.
  - by apply (registry_inv_same w).
  - by apply (registry_inv_same w).
  - by apply registry_inv_refresh.
  - apply (registry_inv_same w); simpl; try apply keep_active_valid_registry; done.
  - by apply registry_inv_answer.
Qed.

Lemma registry_inv_init (stored : list Meta) :
  NoDup (lower_addresses address stored) ->
  registry_inv address (@init Meta Q stored).
Proof. intros H. split; done. Qed.

Lemma ui_reachable_registry_inv (stored : list Meta) (w : @world Meta Q) :
  NoDup (lower_addresses address stored) ->
  ui_reachable address getMeta getBalance display stored w ->
  registry_inv address w.
Proof.
  intros Hnd. induction 1 as [|w now e Hreach IH Hen].
  - by apply registry_inv_init.
  - by apply registry_inv_step.
Qed.

(** Through the rendered page the registry never holds two entries with the
    same lowercase address. *)
Lemma ui_reachable_distinct (stored : list Meta) (w : @world Meta Q) :
  distinct_addresses address stored ->
  ui_reachable address getMeta getBalance display stored w ->
  distinct_addresses address (tokens (ui w)).
Proof.
  intros Hnd Hreach.
  by destruct (ui_reachable_registry_inv stored w Hnd Hreach) as [H _].
Qed.

(** When the network answers a suspended [refresh] whose [cancelled] is
    [false], the balance is written under the token the refresh started
    for, whatever the state has become meanwhile. *)
Lemma refresh_answer_written now i r meta p raw text (w : @world Meta Q) :
  pending w !! i = Some (Refreshing meta false p) ->
  feed p r = Done (Return raw) ->
  display meta raw = Return text ->
  balances (ui (answer address display now i r w)) !! toLowerCase (address meta)
  = Some (Some text).
Proof.
  intros Hi Hfeed Htext. unfold answer. rewrite Hi, Hfeed.
  unfold refresh_resume. cbn [cbind]. rewrite Htext. simpl.
  apply lookup_insert_eq.
Qed.

(** Nothing ever sets [cancelled]: in every state the handlers can reach,
    every suspended [refresh] still has [cancelled = false]. *)
Lemma reachable_not_cancelled (stored : list Meta) (w : @world Meta Q) :
  reachable address getMeta getBalance display stored w ->
  Forall not_cancelled (pending w).
Proof.
  induction 1 as [|w now e Hreach IH]; [constructor|].
  destruct e; simpl; try done.
  - unfold addToken. repeat case_match; try done.
    simpl. apply Forall_app. split; [done|]. by repeat constructor.
  - unfold refresh. repeat case_match; try done.
    simpl. apply Forall_app. split; [done|]. by repeat constructor.
  - unfold answer.
    destruct (pending w !! i) as [[p|meta c p]|] eqn:Hi; [| |done].
    + destruct (feed p r); simpl.
      * by apply Forall_delete.
      * by apply Forall_insert.
    + pose proof (Forall_lookup_1 _ _ _ _ IH Hi) as Hc. simpl in Hc.
      destruct (feed p r); simpl.
      * by apply Forall_delete.
      * by apply Forall_insert.
Qed.

Lemma run_events_reachable (stored : list Meta) trace (w : @world Meta Q) :
  reachable address getMeta getBalance display stored w ->
  reachable address getMeta getBalance display stored
    (run_events address getMeta getBalance display trace w).
Proof.
  revert w. induction trace as [|[now e] trace IH]; intros w Hw; [done|].
  simpl. apply IH. by constructor.
Qed.

End Registry.


(* ===================================================================== *)
(** * The two panels                                                      *)
(* ===================================================================== *)

Section Panels.
Import Rpc Panel.

Lemma getTokenMeta_address (addr : jsstring) :
  returns_address TokenBalances.address addr (TokenBalances.getTokenMeta addr).
Proof.
  unfold TokenBalances.getTokenMeta, TokenBalances.rpcCall. cbn. intros r1.
  destruct (TokenBalances.rpc_result r1) as [hex|e]; cbn; [|done].
  destruct (TokenBalances.hexToBigInt hex) as [b|e]; cbn; [|done].
  intros r2.
  destruct (TokenBalances.rpc_result r2) as [s|e]; cbn; [|done].
  destruct (TokenBalances.tryDecodeStringFromAbi s) as [o|e]; cbn; done.
Qed.

Lemma getNftMeta_address (addr : jsstring) :
  returns_address NFTBalances.address addr (NFTBalances.getNftMeta addr).
Proof.
  unfold NFTBalances.getNftMeta, NFTBalances.best_effort, NFTBalances.rpcCall.
  cbn. intros r1.
  destruct (NFTBalances.rpc_result r1) as [s1|e1]; cbn.
  - destruct (NFTBalances.tryDecodeStringFromAbi s1) as [o1|e1]; cbn; intros r2;
      (destruct (NFTBalances.rpc_result r2) as [s2|e2]; cbn; [|done]);
      destruct (NFTBalances.tryDecodeStringFromAbi s2) as [o2|e2]; cbn; done.
  - intros r2.
    destruct (NFTBalances.rpc_result r2) as [s2|e2]; cbn; [|done].
    destruct (NFTBalances.tryDecodeStringFromAbi s2) as [o2|e2]; cbn; done.
Qed.

(** C9, as the code has it.  In either panel, starting from a stored list
    without duplicates, every state reached through the rendered page
    (whose register button is disabled while [loadingToken] is set, so that
    no registration starts while another one is in flight) has a registry
    whose entries have pairwise distinct lowercase addresses, whatever the
    interleaving of registrations, removals, refreshes and network
    answers. *)
Theorem registry_addresses_distinct :
  (forall stored w,
     distinct_addresses TokenBalances.address stored ->
     TokenPanel.ui_reachable stored w ->
     distinct_addresses TokenBalances.address (tokens (ui w)))
  /\ (forall stored w,
        distinct_addresses NFTBalances.address stored ->
        NFTPanel.ui_reachable stored w ->
        distinct_addresses NFTBalances.address (tokens (ui w))).
Proof.
  split; intros stored w Hnd Hreach.
  - exact (ui_reachable_distinct _ _ _ _ getTokenMeta_address stored w Hnd Hreach).
  - exact (ui_reachable_distinct _ _ _ _ getNftMeta_address stored w Hnd Hreach).
Qed.

Lemma register_once_token :
  TokenPanel.ui_reachable [] (TokenPanel.run_events register_once (init [])).
Proof.
  unfold TokenPanel.ui_reachable, TokenPanel.run_events, run_events, register_once.
  cbn [foldl].
  repeat (apply ui_reachable_step; [|vm_compute; reflexivity]).
  apply ui_reachable_init.
Qed.

Lemma register_once_nft :
  NFTPanel.ui_reachable [] (NFTPanel.run_events register_once (init [])).
Proof.
  unfold NFTPanel.ui_reachable, NFTPanel.run_events, run_events, register_once.
  cbn [foldl].
  repeat (apply ui_reachable_step; [|vm_compute; reflexivity]).
  apply ui_reachable_init.
Qed.

Lemma register_two_token :
  TokenPanel.ui_reachable []
    (TokenPanel.run_events register_two_then_first_again (init [])).
Proof.
  unfold TokenPanel.ui_reachable, TokenPanel.run_events, run_events,
    register_two_then_first_again.
  cbn [foldl].
  repeat (apply ui_reachable_step; [|vm_compute; reflexivity]).
  apply ui_reachable_init.
Qed.

Lemma register_second_nft :
  NFTPanel.ui_reachable [sample_nft]
    (NFTPanel.run_events (drop 4 register_two_then_first_again) (init [sample_nft])).
Proof.
  unfold NFTPanel.ui_reachable, NFTPanel.run_events, run_events,
    register_two_then_first_again.
  cbn [drop foldl].
  repeat (apply ui_reachable_step; [|vm_compute; reflexivity]).
  apply ui_reachable_init.
Qed.

Lemma sample_nft_distinct : distinct_addresses NFTBalances.address [sample_nft].
Proof.
  unfold distinct_addresses. cbn [map]. apply NoDup_singleton.
Qed.

(** C9 on sample runs through the page.  ERC-20 panel, from an empty stored
    list: two tokens are registered, then the first address is submitted
    again in lowercase and refused, and the registry holds the two tokens.
    ERC-721 panel, from a stored list of one token: a second token is
    registered, the stored one is submitted again and refused. *)
Lemma registry_addresses_distinct_sample :
  let wt := TokenPanel.run_events register_two_then_first_again (init []) in
  let wn := NFTPanel.run_events (drop 4 register_two_then_first_again)
              (init [sample_nft]) in
  (distinct_addresses TokenBalances.address (tokens (ui wt))
   /\ map TokenBalances.address (tokens (ui wt)) = [sample_token; second_token]
   /\ error (ui wt) = Some AlreadyRegistered
   /\ pending wt = [])
  /\ (distinct_addresses NFTBalances.address (tokens (ui wn))
      /\ map NFTBalances.address (tokens (ui wn)) = [sample_token; second_token]
      /\ error (ui wn) = Some AlreadyRegistered
      /\ pending wn = []).
Proof.
  cbv zeta. destruct registry_addresses_distinct as [Ht Hn].
  split.
  - split; [apply (Ht [] _ (NoDup_nil_2 (A := jsstring)) register_two_token)|].
    vm_compute. split; [reflexivity|]. split; reflexivity.
  - split; [apply (Hn [sample_nft] _ sample_nft_distinct register_second_nft)|].
    vm_compute. split; [reflexivity|]. split; reflexivity.
Defined.

(** C9 as stated fails: when [addToken] is called again while the metadata
    of the same address is still being fetched, both calls pass the
    duplicate check and both append: the registry ends with the address
    twice, in either panel. *)
Lemma overlapping_registrations_duplicate :
  TokenPanel.reachable [] (TokenPanel.run_events register_twice (init []))
  /\ map TokenBalances.address
        (tokens (ui (TokenPanel.run_events register_twice (init []))))
     = [sample_token; sample_token]
  /\ ~ distinct_addresses TokenBalances.address
        (tokens (ui (TokenPanel.run_events register_twice (init []))))
  /\ NFTPanel.reachable [] (NFTPanel.run_events register_twice (init []))
  /\ ~ distinct_addresses NFTBalances.address
        (tokens (ui (NFTPanel.run_events register_twice (init [])))).
Proof.
  split; [apply run_events_reachable; constructor|].
  split; [vm_compute; reflexivity|].
  split.
  { unfold distinct_addresses.
    replace (map _ _) with [toLowerCase sample_token; toLowerCase sample_token]
      by (vm_compute; reflexivity).
    intros H. apply NoDup_cons in H as [H _]. apply H. left. }
  split; [apply run_events_reachable; constructor|].
  unfold distinct_addresses.
  replace (map _ _) with [toLowerCase sample_token; toLowerCase sample_token]
    by (vm_compute; reflexivity).
  intros H. apply NoDup_cons in H as [H _]. apply H. left.
Qed.

(** C2 (the code departs from the claim).  A refresh for [wallet_1] is in
    flight when the wallet of the active token is edited to [wallet_2].
    When the answer to the first request arrives, after that of the second,
    its value is written to the balance store: the store shows for
    [wallet_2] the balance of [wallet_1].  The same happens in the NFT
    panel. *)
Theorem stale_balance_is_written :
  let before := TokenPanel.run_events wallet_edited_in_flight (init [sample_meta]) in
  let after := TokenPanel.run_events answers_out_of_order before in
  let nft_before := NFTPanel.run_events wallet_edited_in_flight (init [sample_nft]) in
  let nft_after := NFTPanel.run_events answers_out_of_order nft_before in
  (exists p,
     pending before !! 0%nat = Some (Refreshing sample_meta false p)
     /\ option_map TokenBalances.params (awaited p)
        = Some (balance_params sample_token wallet_1))
  /\ activeWallet (ui before) = wallet_2
  /\ activeWallet (ui after) = wallet_2
  /\ balances (ui after) !! toLowerCase sample_token = Some (Some (lit "1.5"))
  /\ activeWallet (ui nft_after) = wallet_2
  /\ balances (ui nft_after) !! toLowerCase sample_token
     = Some (Some (lit "1500000000000000000")).
Proof.
  cbv zeta. split.
  { eexists. split; vm_compute; reflexivity. }
  vm_compute. repeat split.
Qed.

End Panels.

(* ===================================================================== *)
(** * Call data: [isAddress] and [encodeBalanceOf]                        *)
(* ===================================================================== *)

Section CallData.

Lemma isAddress_shape (addr : jsstring) :
  TokenBalances.isAddress addr = true ->
  exists r, addr = 48 :: 120 :: r /\ length r = 40%nat /\ is_hex r.
Proof.
  unfold TokenBalances.isAddress.
  destruct addr as [|a l]; [done|].
  destruct a as [|p|p]; try done.
  repeat (destruct p as [p|p|]; try done).
  destruct l as [|b r]; [done|].
  destruct b as [|p|p]; try done.
  repeat (destruct p as [p|p|]; try done).
  intros H. apply andb_true_iff in H as [Hlen Hhex].
  exists r. split; [done|]. split; [by apply Nat.eqb_eq|by apply is_hex_forallb].
Qed.

Lemma lower_unit_hex (c : Z) :
  TokenBalances.isHexChar c = true -> TokenBalances.isHexChar (lower_unit c) = true.
Proof.
  intros Hc.
  assert (forallb (fun a => TokenBalances.isHexChar (lower_unit a)) hex_chars = true)
    as Hall by (vm_compute; reflexivity).
  rewrite forallb_forall in Hall. exact (Hall c (isHexChar_enum c Hc)).
Qed.

Lemma toLowerCase_hex (s : jsstring) : is_hex s -> is_hex (toLowerCase s).
Proof.
  unfold toLowerCase. induction 1 as [|c r Hc Hr IH]; simpl; [constructor|].
  constructor; [by apply lower_unit_hex|done].
Qed.

(** Lowercasing never changes the value of a digit. *)
Ltac range_cases :=
  repeat match goal with
         | |- context [if ?b then _ else _] => destruct b eqn:?
         end;
  repeat match goal with
         | H : (_ && _) = true |- _ => apply andb_true_iff in H as [? ?]
         | H : (_ && _) = false |- _ => apply andb_false_iff in H as [?|?]
         | H : (_ <=? _) = true |- _ => apply Z.leb_le in H
         | H : (_ <=? _) = false |- _ => apply Z.leb_gt in H
         end;
  try lia.

Lemma hex_digit_lower (c : Z) : hex_digit (lower_unit c) = hex_digit c.
Proof.
  unfold lower_unit. destruct ((65 <=? c) && (c <=? 90)) eqn:E;
    unfold hex_digit; range_cases.
Qed.

Lemma toLowerCase_length (s : jsstring) : length (toLowerCase s) = length s.
Proof. apply length_map. Qed.

Lemma toLowerCase_idem (s : jsstring) : toLowerCase (toLowerCase s) = toLowerCase s.
Proof.
  unfold toLowerCase. rewrite map_map. apply map_ext. intros c.
  unfold lower_unit. destruct ((65 <=? c) && (c <=? 90)) eqn:E; range_cases.
Qed.

Lemma encodeBalanceOf_valid (r : jsstring) :
  length r = 40%nat ->
  TokenBalances.encodeBalanceOf (48 :: 120 :: r)
  = lit "0x70a08231" ++ repeat 48 24 ++ toLowerCase r.
Proof.
  intros Hlen. unfold TokenBalances.encodeBalanceOf, TokenBalances.pad32.
  change (toLowerCase (48 :: 120 :: r)) with (48 :: 120 :: toLowerCase r).
  cbn [TokenBalances.strip_0x].
  rewrite padStart_zero by lia. rewrite toLowerCase_length, Hlen.
  reflexivity.
Qed.

Lemma encodeBalanceOf_same (address : jsstring) :
  NFTBalances.encodeBalanceOf address = TokenBalances.encodeBalanceOf address.
Proof. reflexivity. Qed.

(** X1. For every address [isAddress] accepts, the call data built by
    [encodeBalanceOf] (in either file) is ["0x"], the selector [70a08231],
    24 zeros and the 40 digits of the address in lowercase: 2 + 8 + 64 code
    units, all hex digits after the prefix. *)
Theorem encodeBalanceOf_layout (address : jsstring) :
  TokenBalances.isAddress address = true ->
  TokenBalances.encodeBalanceOf address
    = lit "0x70a08231" ++ repeat 48 24 ++ toLowerCase (drop 2 address)
  /\ NFTBalances.encodeBalanceOf address = TokenBalances.encodeBalanceOf address
  /\ length (TokenBalances.encodeBalanceOf address) = 74%nat
  /\ is_hex (drop 2 (TokenBalances.encodeBalanceOf address)).
Proof.
  intros Hvalid. destruct (isAddress_shape address Hvalid) as (r & -> & Hlen & Hhex).
  cbn [drop].
  split; [by apply encodeBalanceOf_valid|]. split; [reflexivity|].
  rewrite encodeBalanceOf_valid by done. split.
  - rewrite !length_app, repeat_length, toLowerCase_length, Hlen. reflexivity.
  - change (drop 2 (lit "0x70a08231" ++ repeat 48 24 ++ toLowerCase r))
      with (lit "70a08231" ++ repeat 48 24 ++ toLowerCase r).
    apply Forall_app. split; [apply is_hex_forallb; reflexivity|].
    apply Forall_app. split; [apply is_hex_forallb; reflexivity|].
    by apply toLowerCase_hex.
Qed.

(** X1 on the first Anvil account. *)
Lemma encodeBalanceOf_layout_sample :
  TokenBalances.encodeBalanceOf wallet_1
  = lit "0x70a08231000000000000000000000000f39fd6e51aad88f6f4ce6ab8827279cfffb92266".
Proof.
  assert (TokenBalances.isAddress wallet_1 = true) as H by (vm_compute; reflexivity).
  destruct (encodeBalanceOf_layout wallet_1 H) as [E _].
  exact E.
Defined.

(** X2. Two valid addresses give the same call data exactly when they are
    equal up to the case of their letters. *)
Theorem encodeBalanceOf_injective (a b : jsstring) :
  TokenBalances.isAddress a = true -> TokenBalances.isAddress b = true ->
  TokenBalances.encodeBalanceOf a = TokenBalances.encodeBalanceOf b
  <-> toLowerCase a = toLowerCase b.
Proof.
  intros Ha Hb.
  destruct (isAddress_shape a Ha) as (ra & -> & Hla & _).
  destruct (isAddress_shape b Hb) as (rb & -> & Hlb & _).
  rewrite !encodeBalanceOf_valid by done.
  change (toLowerCase (48 :: 120 :: ra)) with (48 :: 120 :: toLowerCase ra).
  change (toLowerCase (48 :: 120 :: rb)) with (48 :: 120 :: toLowerCase rb).
  split.
  - intros H. apply app_inv_head in H. apply app_inv_head in H. by rewrite H.
  - intros [= ->]. done.
Qed.

(** X2 on a checksummed address and its lowercase form. *)
Lemma encodeBalanceOf_injective_sample :
  TokenBalances.encodeBalanceOf wallet_1
  = TokenBalances.encodeBalanceOf (toLowerCase wallet_1).
Proof.
  assert (TokenBalances.isAddress wallet_1 = true) as H1 by (vm_compute; reflexivity).
  assert (TokenBalances.isAddress (toLowerCase wallet_1) = true) as H2
    by (vm_compute; reflexivity).
  apply (encodeBalanceOf_injective wallet_1 (toLowerCase wallet_1) H1 H2).
  symmetry. apply toLowerCase_idem.
Defined.

Lemma hex_value_zeros (k : nat) (w : jsstring) :
  hex_value (repeat 48 k ++ w) = hex_value w.
Proof.
  unfold hex_value. rewrite fold_left_app. f_equal.
  induction k as [|k IH]; simpl; [done|exact IH].
Qed.

Lemma hex_value_lower (w : jsstring) : hex_value (toLowerCase w) = hex_value w.
Proof.
  unfold hex_value, toLowerCase. generalize 0.
  induction w as [|c r IH]; intros acc; simpl; [done|].
  by rewrite IH, hex_digit_lower.
Qed.

Lemma is_hex_zeros (k : nat) : is_hex (repeat 48 k).
Proof. induction k; simpl; constructor; done. Qed.

(** X3. The parameter word of the call data, read back as an unsigned
    integer the way return values are read ([BigInt("0x" + word)]), is the
    address itself as a number: padding and lowercasing lose nothing. *)
Theorem encodeBalanceOf_word_value (address : jsstring) :
  TokenBalances.isAddress address = true ->
  TokenBalances.hexToBigInt (lit "0x" ++ drop 10 (TokenBalances.encodeBalanceOf address))
  = Return (hex_value (drop 2 address))
  /\ TokenBalances.hexToBigInt address = Return (hex_value (drop 2 address)).
Proof.
  intros Hvalid. destruct (isAddress_shape address Hvalid) as (r & -> & Hlen & Hhex).
  rewrite encodeBalanceOf_valid by done. cbn [drop].
  change (drop 10 (lit "0x70a08231" ++ repeat 48 24 ++ toLowerCase r))
    with (repeat 48 24 ++ toLowerCase r).
  unfold TokenBalances.hexToBigInt. split.
  - rewrite BigInt_hex_word.
    + by rewrite hex_value_zeros, hex_value_lower.
    + apply Forall_app. split; [apply is_hex_zeros|by apply toLowerCase_hex].
    + done.
  - change (48 :: 120 :: r) with (lit "0x" ++ r).
    apply BigInt_hex_word; [done|]. by destruct r.
Qed.

(** X3 on the first Anvil account. *)
Lemma encodeBalanceOf_word_value_sample :
  TokenBalances.hexToBigInt (lit "0x" ++ drop 10 (TokenBalances.encodeBalanceOf wallet_1))
  = TokenBalances.hexToBigInt wallet_1.
Proof.
  assert (TokenBalances.isAddress wallet_1 = true) as H by (vm_compute; reflexivity).
  destruct (encodeBalanceOf_word_value wallet_1 H) as [E1 E2].
  rewrite E1, E2. reflexivity.
Defined.

Lemma is_hex_last_not_space (r : jsstring) (a b : Z) :
  is_hex r -> r <> [] -> trimEnd (a :: b :: r) = a :: b :: r.
Proof.
  intros Hhex Hne.
  destruct (exists_last Hne) as (r' & c & ->).
  change (a :: b :: r' ++ [c]) with ((a :: b :: r') ++ [c]).
  apply trimEnd_last. apply hex_not_space.
  apply Forall_app in Hhex as [_ Hc]. by inversion Hc.
Qed.

(** X4. A string accepted by [isAddress] has 42 code units and no white
    space at either end, so the [trim] of [addToken] leaves it as it is;
    its lowercase form is accepted too. *)
Theorem isAddress_stable (addr : jsstring) :
  TokenBalances.isAddress addr = true ->
  length addr = 42%nat
  /\ trim addr = addr
  /\ TokenBalances.isAddress (toLowerCase addr) = true
  /\ NFTBalances.isAddress addr = true.
Proof.
  intros Hvalid. pose proof Hvalid as Hv.
  destruct (isAddress_shape addr Hvalid) as (r & -> & Hlen & Hhex).
  split; [simpl; by rewrite Hlen|]. split.
  - unfold trim. rewrite trimStart_head by done.
    apply is_hex_last_not_space; [done|]. by destruct r.
  - split; [|exact Hv].
    change (toLowerCase (48 :: 120 :: r)) with (48 :: 120 :: toLowerCase r).
    unfold TokenBalances.isAddress.
    rewrite toLowerCase_length, Hlen. simpl.
    apply forallb_forall. intros c Hc.
    pose proof (toLowerCase_hex r Hhex) as Hl. unfold is_hex in Hl.
    rewrite Forall_forall in Hl. apply Hl. by apply list_elem_of_In.
Qed.

(** X4 on the first Anvil account. *)
Lemma isAddress_stable_sample :
  trim wallet_1 = wallet_1 /\ TokenBalances.isAddress (toLowerCase wallet_1) = true.
Proof.
  assert (TokenBalances.isAddress wallet_1 = true) as H by (vm_compute; reflexivity).
  destruct (isAddress_stable wallet_1 H) as (_ & Ht & Hl & _).
  split; [exact Ht|exact Hl].
Defined.

End CallData.

(* ===================================================================== *)
(** * Balance calls, short payloads, the two decoders, [getNftMeta]       *)
(* ===================================================================== *)

Section Calls.
Import Rpc.

Lemma getTokenBalance_run (token wallet : jsstring) r :
  run (TokenBalances.getTokenBalance token wallet) [r]
  = Some (cbind (TokenBalances.rpc_result r) TokenBalances.hexToBigInt).
Proof.
  unfold TokenBalances.getTokenBalance, TokenBalances.rpcCall. cbn [abind run].
  by destruct (TokenBalances.rpc_result r).
Qed.

Lemma getNftBalance_run (token wallet : jsstring) r :
  run (NFTBalances.getNftBalance token wallet) [r]
  = Some (cbind (TokenBalances.rpc_result r) TokenBalances.hexToBigInt).
Proof.
  unfold NFTBalances.getNftBalance, NFTBalances.rpcCall. cbn [abind run].
  change (NFTBalances.rpc_result r) with (TokenBalances.rpc_result r).
  by destruct (TokenBalances.rpc_result r).
Qed.

Lemma hex_value_all_zeros (k : nat) : hex_value (repeat 48 k) = 0.
Proof. rewrite <- (app_nil_r (repeat 48 k)). by rewrite hex_value_zeros. Qed.

(** X5. [getTokenBalance] and [getNftBalance] send one [eth_call] carrying
    [encodeBalanceOf(wallet)] to the token.  When the node answers ["0x"]
    followed by hex digits they return the big-endian value of these
    digits, so a word of zeros is the balance 0; when it answers the empty
    payload ["0x"] (what a node returns for an address without code) they
    throw a [SyntaxError]; when [rpcCall] throws they throw the same
    error. *)
Theorem balance_call_decodes (token wallet : jsstring) :
  awaited (TokenBalances.getTokenBalance token wallet)
    = Some (token_balance_request token wallet)
  /\ awaited (NFTBalances.getNftBalance token wallet)
    = Some (nft_balance_request token wallet)
  /\ (forall r w,
        TokenBalances.rpc_result r = Return (lit "0x" ++ w) ->
        is_hex w -> w <> [] ->
        run (TokenBalances.getTokenBalance token wallet) [r] = Some (Return (hex_value w))
        /\ run (NFTBalances.getNftBalance token wallet) [r] = Some (Return (hex_value w)))
  /\ (forall r k,
        TokenBalances.rpc_result r = Return (lit "0x" ++ repeat 48 (S k)) ->
        run (TokenBalances.getTokenBalance token wallet) [r] = Some (Return 0)
        /\ run (NFTBalances.getNftBalance token wallet) [r] = Some (Return 0))
  /\ (forall r,
        TokenBalances.rpc_result r = Return (lit "0x") ->
        run (TokenBalances.getTokenBalance token wallet) [r] = Some (Throw SyntaxError)
        /\ run (NFTBalances.getNftBalance token wallet) [r] = Some (Throw SyntaxError))
  /\ (forall r e,
        TokenBalances.rpc_result r = Throw e ->
        run (TokenBalances.getTokenBalance token wallet) [r] = Some (Throw e)
        /\ run (NFTBalances.getNftBalance token wallet) [r] = Some (Throw e)).
Proof.
  split; [reflexivity|]. split; [reflexivity|].
  split; [|split; [|split]].
  - intros r w Hr Hhex Hne.
    rewrite getTokenBalance_run, getNftBalance_run, Hr. cbn [cbind].
    unfold TokenBalances.hexToBigInt. by rewrite BigInt_hex_word.
  - intros r k Hr.
    rewrite getTokenBalance_run, getNftBalance_run, Hr. cbn [cbind].
    unfold TokenBalances.hexToBigInt.
    rewrite BigInt_hex_word; [|apply is_hex_zeros|done].
    by rewrite hex_value_all_zeros.
  - intros r Hr.
    rewrite getTokenBalance_run, getNftBalance_run, Hr. done.
  - intros r e Hr.
    rewrite getTokenBalance_run, getNftBalance_run, Hr. done.
Qed.

(** X5 on samples: 1.5 * 10^18 in hex, a word of 64 zeros, and the empty
    payload. *)
Lemma balance_call_decodes_samples :
  run (TokenBalances.getTokenBalance sample_token wallet_1)
      [reply_ok (lit "0x14d1120d7b160000")]
  = Some (Return (hex_value (lit "14d1120d7b160000")))
  /\ run (NFTBalances.getNftBalance sample_token wallet_1)
         [reply_ok (lit "0x" ++ repeat 48 64)]
     = Some (Return 0)
  /\ run (TokenBalances.getTokenBalance sample_token wallet_1) [reply_ok (lit "0x")]
     = Some (Throw SyntaxError)
  /\ run (TokenBalances.getTokenBalance sample_token wallet_1) [Rejected]
     = Some (Throw TypeError).
Proof.
  destruct (balance_call_decodes sample_token wallet_1)
    as (_ & _ & Hval & Hzero & Hempty & Hthrow).
  split.
  { apply (Hval (reply_ok (lit "0x14d1120d7b160000")) (lit "14d1120d7b160000")).
    - reflexivity.
    - apply is_hex_forallb. vm_compute. reflexivity.
    - discriminate. }
  split.
  { apply (Hzero (reply_ok (lit "0x" ++ repeat 48 64)) 63%nat). reflexivity. }
  split.
  { apply (Hempty (reply_ok (lit "0x"))). reflexivity. }
  apply (Hthrow Rejected TypeError). reflexivity.
Defined.

Lemma slice_beyond (data : jsstring) (a b : Z) :
  jslength data <= a -> 0 <= a -> 0 <= b -> slice data (Num a) (Num b) = [].
Proof.
  intros Hlen Ha Hb. rewrite slice_take_drop by done.
  unfold jslength in Hlen. rewrite drop_ge by lia. apply take_nil.
Qed.

Lemma token_decode_no_prefix (hex : jsstring) :
  startsWith hex (lit "0x") = false ->
  TokenBalances.tryDecodeStringFromAbi hex = Return None.
Proof.
  intros H. unfold TokenBalances.tryDecodeStringFromAbi.
  destruct hex; [done|]. by rewrite H.
Qed.

Lemma nft_decode_no_prefix (hex : jsstring) :
  startsWith hex (lit "0x") = false ->
  NFTBalances.tryDecodeStringFromAbi hex = Return None.
Proof.
  intros H. unfold NFTBalances.tryDecodeStringFromAbi.
  destruct hex; [done|]. by rewrite H.
Qed.

(** X6. Either decoder returns [null] for every string that does not start
    with ["0x"] (the empty string included) and for every payload of fewer
    than 64 code units after the prefix, whatever they are: the bare ["0x"]
    a node returns for a call it could not serve decodes to [null]. *)
Theorem decode_null_inputs :
  (forall hex,
     startsWith hex (lit "0x") = false ->
     TokenBalances.tryDecodeStringFromAbi hex = Return None
     /\ NFTBalances.tryDecodeStringFromAbi hex = Return None)
  /\ (forall data,
        jslength data < 64 ->
        TokenBalances.tryDecodeStringFromAbi (lit "0x" ++ data) = Return None
        /\ NFTBalances.tryDecodeStringFromAbi (lit "0x" ++ data) = Return None).
Proof.
  split.
  - intros hex H. split; [by apply token_decode_no_prefix|by apply nft_decode_no_prefix].
  - intros data Hlen.
    assert (BigInt (lit "0x" ++ slice data (Num 64) (Num 128)) = Throw SyntaxError)
      as Hbad by (rewrite slice_beyond by lia; reflexivity).
    split.
    + apply (token_decode_bad_length data SyntaxError); [lia|done].
    + apply (nft_decode_bad_length data SyntaxError); [lia|done].
Qed.

(** X6 on samples: no prefix, the empty string, the bare prefix. *)
Lemma decode_null_inputs_samples :
  TokenBalances.tryDecodeStringFromAbi (lit "55534443") = Return None
  /\ NFTBalances.tryDecodeStringFromAbi [] = Return None
  /\ TokenBalances.tryDecodeStringFromAbi (lit "0x") = Return None
  /\ NFTBalances.tryDecodeStringFromAbi (lit "0x") = Return None.
Proof.
  destruct decode_null_inputs as [Hprefix Hshort].
  assert (startsWith (lit "55534443") (lit "0x") = false) as H1 by reflexivity.
  assert (startsWith [] (lit "0x") = false) as H2 by reflexivity.
  assert (jslength [] < 64) as H3 by (vm_compute; reflexivity).
  destruct (Hprefix _ H1) as [T1 _]. destruct (Hprefix _ H2) as [_ N2].
  destruct (Hshort _ H3) as [T3 N3].
  split; [exact T1|]. split; [exact N2|]. split; [exact T3|exact N3].
Defined.

(** X7. The two copies of the decoder differ in one respect only:
    [TokenBalances.tsx] also parses the offset word.  On every input they
    return the same value, unless [BigInt] rejects the offset word, in
    which case the ERC-20 copy returns [null]; on the sample whose offset
    word is not a number the ERC-721 copy still decodes "ABC". *)
Theorem decoders_differ_on_offset_only (hex : jsstring) :
  (TokenBalances.tryDecodeStringFromAbi hex = NFTBalances.tryDecodeStringFromAbi hex
   \/ (TokenBalances.tryDecodeStringFromAbi hex = Return None
       /\ exists e,
            BigInt (lit "0x" ++ slice (slice_from hex (Num 2)) (Num 0) (Num 64))
            = Throw e))
  /\ TokenBalances.tryDecodeStringFromAbi bad_offset_word = Return None
  /\ NFTBalances.tryDecodeStringFromAbi bad_offset_word = Return (Some (lit "ABC")).
Proof.
  split; [|vm_compute; split; reflexivity].
  unfold TokenBalances.tryDecodeStringFromAbi, NFTBalances.tryDecodeStringFromAbi.
  destruct hex as [|c hex]; [by left|].
  destruct (negb _); [by left|].
  unfold TokenBalances.decode_body, NFTBalances.decode_body.
  destruct (jslength _ =? 64); [by left|].
  destruct (BigInt (lit "0x" ++ slice _ (Num 0) (Num 64))) as [b|e] eqn:E.
  - left. unfold TokenBalances.word_to_number at 1. rewrite E. reflexivity.
  - right. split; [|by exists e].
    unfold TokenBalances.word_to_number at 1. rewrite E. reflexivity.
Qed.

Lemma best_effort_run (address call : jsstring) r :
  exists text : jsstring,
    feed (NFTBalances.best_effort address call) r = Done (Return text)
    /\ (nft_field_failed r -> text = lit "?")
    /\ (forall s n, NFTBalances.rpc_result r = Return s ->
          NFTBalances.tryDecodeStringFromAbi s = Return (Some n) -> n <> [] ->
          text = n).
Proof.
  unfold NFTBalances.best_effort, NFTBalances.rpcCall, nft_field_failed.
  cbn [abind atry feed].
  destruct (NFTBalances.rpc_result r) as [s|e] eqn:Er; cbn [abind atry].
  - destruct (nft_decode_returns s) as [o Ho]. rewrite Ho. cbn [abind atry].
    eexists. split; [reflexivity|]. split.
    + intros [[e He]|(s' & Hs' & Hnull)]; [congruence|].
      assert (s' = s) as -> by congruence.
      assert (o = None) as -> by congruence. done.
    + intros s' n Hs' Hn Hne.
      assert (s' = s) as -> by congruence.
      assert (o = Some n) as -> by congruence. by destruct n.
  - eexists. split; [reflexivity|]. split; [done|]. intros s n Hs. congruence.
Qed.

(** X8. [getNftMeta] never fails.  It always makes both calls, [name()] and
    then [symbol()], and after the two answers returns a record for the
    address; each field is the decoded string when its call succeeded and
    decoded to a non-empty string, and ["?"] when its call threw or decoded
    to [null], independently of the other field. *)
Theorem getNftMeta_best_effort (address : jsstring) r1 r2 rest :
  run (NFTBalances.getNftMeta address) [r1] = None
  /\ exists name symbol,
       run (NFTBalances.getNftMeta address) (r1 :: r2 :: rest)
       = Some (Return {| NFTBalances.address := address;
                         NFTBalances.name := name;
                         NFTBalances.symbol := symbol |})
       /\ (nft_field_failed r1 -> name = lit "?")
       /\ (nft_field_failed r2 -> symbol = lit "?")
       /\ (forall s n, NFTBalances.rpc_result r1 = Return s ->
             NFTBalances.tryDecodeStringFromAbi s = Return (Some n) -> n <> [] ->
             name = n)
       /\ (forall s n, NFTBalances.rpc_result r2 = Return s ->
             NFTBalances.tryDecodeStringFromAbi s = Return (Some n) -> n <> [] ->
             symbol = n).
Proof.
  destruct (best_effort_run address NFTBalances.encodeName r1)
    as (name & Hname & Hfail1 & Hok1).
  destruct (best_effort_run address NFTBalances.encodeSymbol r2)
    as (symbol & Hsym & Hfail2 & Hok2).
  unfold NFTBalances.getNftMeta.
  remember (NFTBalances.best_effort address NFTBalances.encodeName) as p1 eqn:E1.
  remember (NFTBalances.best_effort address NFTBalances.encodeSymbol) as p2 eqn:E2.
  assert (exists q k, p1 = Await q k) as (q1 & k1 & ->)
    by (subst p1; unfold NFTBalances.best_effort, NFTBalances.rpcCall;
        cbn [abind atry]; by do 2 eexists).
  assert (exists q k, p2 = Await q k) as (q2 & k2 & ->)
    by (subst p2; unfold NFTBalances.best_effort, NFTBalances.rpcCall;
        cbn [abind atry]; by do 2 eexists).
  cbn [feed] in Hname, Hsym. cbn [abind run]. rewrite Hname. cbn [abind run].
  split; [done|].
  exists name, symbol. rewrite Hsym. cbn [abind run].
  split; [done|]. split; [done|]. split; [done|]. split; done.
Qed.

(** X8 on samples: [name()] answered with the bytes32 form of "USDC",
    [symbol()] rejected. *)
Lemma getNftMeta_best_effort_sample :
  run (NFTBalances.getNftMeta sample_token) [symbol_reply; Rejected]
  = Some (Return {| NFTBalances.address := sample_token;
                    NFTBalances.name := lit "USDC";
                    NFTBalances.symbol := lit "?" |}).
Proof.
  destruct (getNftMeta_best_effort sample_token symbol_reply Rejected [])
    as (_ & name & symbol & Hrun & _ & Hfail2 & Hok1 & _).
  assert (symbol = lit "?") as Es.
  { apply Hfail2. left. exists TypeError. reflexivity. }
  assert (name = lit "USDC") as En.
  { apply (Hok1 (lit "0x5553444300000000000000000000000000000000000000000000000000000000")).
    - reflexivity.
    - vm_compute. reflexivity.
    - discriminate. }
  rewrite Es, En in Hrun. exact Hrun.
Defined.

End Calls.

(* ===================================================================== *)
(** * The page: [fetchBalances] as a whole, [formatEtherFixed18]          *)
(* ===================================================================== *)

Section PageProperties.
Import Rpc.

Lemma correlate_length (reqs : list Page.RpcRequest) (data : list RpcResponse) :
  length (Page.correlate reqs data) = length reqs.
Proof. unfold Page.correlate. apply length_map. Qed.

Lemma build_requests_length (addresses : list jsstring) :
  length (Page.build_requests addresses) = length addresses.
Proof. unfold Page.build_requests. apply length_imap. Qed.

Lemma all_null (addresses : list jsstring) :
  map (fun _ : jsstring => @None Z) addresses = replicate (length addresses) None.
Proof. induction addresses as [|a r IH]; simpl; [done|]. by rewrite IH. Qed.

Lemma rows_of_nulls (n : nat) :
  map Page.row_display (replicate n None) = replicate n (lit "N/A")
  /\ Page.unreachable_banner (replicate n None) = true.
Proof. induction n as [|n [IH1 IH2]]; simpl; [done|]. by rewrite IH1. Qed.

(** X9. [fetchBalances] never throws and always returns one slot per
    address.  When the node cannot be reached, answers with a status that
    is not ok, or with a body that is not JSON, every slot is [null]: every
    row of the page then reads "N/A" and the line "Could not reach Anvil"
    is shown. *)
Theorem fetchBalances_never_fails (addresses : list jsstring)
    (reply : fetch_result (list RpcResponse)) :
  exists balances,
    run (Page.fetchBalances addresses) [reply] = Some (Return balances)
    /\ length balances = length addresses
    /\ match reply with
       | Response true _ (Json _) => True
       | _ =>
           balances = replicate (length addresses) None
           /\ map Page.row_display balances = replicate (length addresses) (lit "N/A")
           /\ Page.unreachable_banner balances = true
       end.
Proof.
  unfold Page.fetchBalances. cbn [atry run].
  destruct reply as [|[|] status [|data]]; cbn [negb atry run];
    eexists; (split; [reflexivity|]);
    rewrite ?correlate_length, ?build_requests_length, ?all_null, ?length_replicate;
    (split; [reflexivity|]); try done;
    (split; [reflexivity|]); apply rows_of_nulls.
Qed.

Lemma padded_fraction (frac d : Z) :
  0 < d < 2 ^ 53 -> 0 <= frac < 10 ^ d ->
  let fracStr := padStart (BigInt_toString frac) (Num d) (lit "0") in
  jslength fracStr = d /\ is_decimal fracStr /\ decimal_value fracStr = frac.
Proof.
  intros Hd Hfrac fracStr. subst fracStr.
  destruct (toString_decimal frac) as [Hdec Hval]; [lia|].
  assert (length (BigInt_toString frac) <= Z.to_nat d)%nat as Hlen.
  { rewrite toString_nonneg by lia. apply decimal_digits_length; lia. }
  rewrite padStart_zero by lia. split; [|split].
  - unfold jslength. rewrite length_app, repeat_length. lia.
  - apply Forall_app. split; [apply is_decimal_zeros|done].
  - by rewrite decimal_value_zeros.
Qed.

Lemma formatEtherFixed18_parts (wei : Z) :
  0 <= wei ->
  let whole := BigInt_toString (wei / 10 ^ 18) in
  let frac := padStart (BigInt_toString (wei mod 10 ^ 18)) (Num 18) (lit "0") in
  Page.formatEtherFixed18 wei = whole ++ lit "." ++ frac
  /\ is_decimal whole /\ decimal_value whole = wei / 10 ^ 18
  /\ jslength frac = 18 /\ is_decimal frac /\ decimal_value frac = wei mod 10 ^ 18.
Proof.
  intros Hwei whole frac. subst whole frac.
  unfold Page.formatEtherFixed18.
  rewrite Z.quot_div_nonneg, Z.rem_mod_nonneg by lia.
  split; [done|].
  destruct (toString_decimal (wei / 10 ^ 18)) as [Hd Hv]; [apply Z.div_pos; lia|].
  split; [done|]. split; [done|].
  apply padded_fraction; [lia|apply Z.mod_pos_bound; lia].
Qed.

Lemma app_same_tail_length {A} (a1 a2 b1 b2 : list A) :
  a1 ++ b1 = a2 ++ b2 -> length b1 = length b2 -> a1 = a2 /\ b1 = b2.
Proof.
  intros H Hlen. apply app_inj_2 in H; [done|].
  apply (f_equal length) in H. rewrite !length_app in H. lia.
Qed.

(** X10. For a non-negative amount [formatEtherFixed18] writes the whole
    part in decimal, a dot, and exactly 18 decimal digits: the amount can
    be read back as [whole * 10^18 + fraction], and two different amounts
    never give the same text. *)
Theorem formatEtherFixed18_lossless :
  (forall wei,
     0 <= wei ->
     exists whole frac,
       Page.formatEtherFixed18 wei = whole ++ lit "." ++ frac
       /\ is_decimal whole /\ is_decimal frac /\ jslength frac = 18
       /\ decimal_value whole * 10 ^ 18 + decimal_value frac = wei)
  /\ (forall a b,
        0 <= a -> 0 <= b -> a <> b ->
        Page.formatEtherFixed18 a <> Page.formatEtherFixed18 b).
Proof.
  split.
  - intros wei Hwei.
    destruct (formatEtherFixed18_parts wei Hwei) as (E & Hw & Vw & Lf & Hf & Vf).
    eexists _, _. split; [exact E|]. split; [done|]. split; [done|]. split; [done|].
    rewrite Vw, Vf. pose proof (Z.div_mod wei (10 ^ 18)). lia.
  - intros a b Ha Hb Hne Hab. apply Hne.
    destruct (formatEtherFixed18_parts a Ha) as (Ea & _ & Vwa & Lfa & _ & Vfa).
    destruct (formatEtherFixed18_parts b Hb) as (Eb & _ & Vwb & Lfb & _ & Vfb).
    rewrite Ea, Eb in Hab. rewrite !app_assoc in Hab.
    apply app_same_tail_length in Hab as [Hw Hf];
      [|unfold jslength in *; lia].
    apply app_inj_tail in Hw as [Hw _].
    rewrite Hw in Vwa. rewrite Hf in Vfa.
    pose proof (Z.div_mod a (10 ^ 18)). pose proof (Z.div_mod b (10 ^ 18)). lia.
Qed.

(** X10 on one ether and a half, and on 1 wei against 10 wei. *)
Lemma formatEtherFixed18_lossless_sample :
  (exists whole frac,
     Page.formatEtherFixed18 1500000000000000000 = whole ++ lit "." ++ frac
     /\ is_decimal whole /\ is_decimal frac /\ jslength frac = 18
     /\ decimal_value whole * 10 ^ 18 + decimal_value frac = 1500000000000000000)
  /\ Page.formatEtherFixed18 1 <> Page.formatEtherFixed18 10.
Proof.
  destruct formatEtherFixed18_lossless as [H Hd].
  split; [apply (H 1500000000000000000); lia|apply (Hd 1 10); lia].
Defined.

End PageProperties.

(* ===================================================================== *)
(** * [formatUnits]: what the text keeps of the amount                    *)
(* ===================================================================== *)

Section FormatterProperties.

Lemma replace_trailing_zeros_app (a b : jsstring) :
  replace_trailing_zeros b <> [] ->
  replace_trailing_zeros (a ++ b) = a ++ replace_trailing_zeros b.
Proof.
  intros Hb. induction a as [|c a IH]; [done|].
  simpl. rewrite IH. by destruct (a ++ replace_trailing_zeros b) eqn:E;
    [apply app_eq_nil in E as [_ E]|].
Qed.

Lemma replace_trailing_zeros_app_zeros (a b : jsstring) :
  replace_trailing_zeros b = [] ->
  replace_trailing_zeros (a ++ b) = replace_trailing_zeros a.
Proof.
  intros Hb. induction a as [|c a IH]; [done|]. simpl. by rewrite IH.
Qed.

Lemma replace_trailing_zeros_dot (a : jsstring) :
  replace_trailing_zeros (a ++ lit ".") = a ++ lit ".".
Proof. by apply replace_trailing_zeros_app. Qed.

Lemma is_decimal_no_dot (s : jsstring) : is_decimal s -> 46 ∉ s.
Proof.
  intros Hs Hin. unfold is_decimal in Hs. rewrite Forall_forall in Hs.
  specialize (Hs 46 Hin). simpl in Hs. lia.
Qed.

Lemma last_app_nonempty {A} (a b : list A) : b <> [] -> last (a ++ b) = last b.
Proof.
  intros Hb. destruct (exists_last Hb) as (b' & x & ->).
  by rewrite app_assoc, !last_snoc.
Qed.

(** The two shapes of the text of [formatUnits], with the digits the
    fraction was cut to. *)
Lemma formatUnits_parts (amount d : Z) :
  0 <= amount -> 0 < d < 2 ^ 53 ->
  exists trimmed zeros,
    TokenBalances.formatUnits amount (Num d)
    = Return (match trimmed with
              | [] => BigInt_toString (amount / 10 ^ d)
              | _ => BigInt_toString (amount / 10 ^ d) ++ lit "." ++ trimmed
              end)
    /\ replace_trailing_zeros
         (padStart (BigInt_toString (amount mod 10 ^ d)) (Num d) (lit "0")) = trimmed
    /\ is_decimal trimmed
    /\ Z.of_nat (length trimmed + zeros) = d
    /\ decimal_value (trimmed ++ repeat 48 zeros) = amount mod 10 ^ d.
Proof.
  intros Ha Hd.
  destruct (formatUnits_positive amount d Ha Hd) as (Hlen & Hdec & Hval & Hfmt).
  rewrite <- padStart_zero in Hlen, Hdec, Hval, Hfmt by lia.
  set (fracStr := padStart _ _ _) in *.
  destruct (replace_trailing_zeros_spec fracStr) as (k & Hk & _).
  exists (replace_trailing_zeros fracStr), k.
  split; [exact Hfmt|]. split; [done|].
  assert (is_decimal (replace_trailing_zeros fracStr)) as Ht.
  { rewrite Hk in Hdec. by apply Forall_app in Hdec as [Ht _]. }
  split; [done|]. split.
  - unfold jslength in Hlen. rewrite Hk in Hlen at 1.
    rewrite length_app, repeat_length in Hlen. lia.
  - by rewrite <- Hk.
Qed.

Lemma split_at_dot (l1 r1 l2 r2 : jsstring) :
  46 ∉ l1 -> 46 ∉ l2 -> l1 ++ 46 :: r1 = l2 ++ 46 :: r2 -> l1 = l2 /\ r1 = r2.
Proof.
  revert l2. induction l1 as [|x l1 IH]; intros l2 H1 H2 H.
  - destruct l2 as [|y l2]; simpl in H.
    + by injection H.
    + injection H as <- _. exfalso. apply H2. left.
  - destruct l2 as [|y l2]; simpl in H.
    + injection H as -> _. exfalso. apply H1. left.
    + injection H as <- H. apply not_elem_of_cons in H1 as [_ H1].
      apply not_elem_of_cons in H2 as [_ H2].
      destruct (IH l2 H1 H2 H) as [-> ->]. done.
Qed.

Lemma decimal_value_all_zeros (k : nat) : decimal_value (repeat 48 k) = 0.
Proof. rewrite <- (app_nil_r (repeat 48 k)). by rewrite decimal_value_zeros. Qed.

(** X11. For a non-negative amount and a number of decimals between 1 and
    [max_decimals] (a [uint8]), two different amounts never get the same
    text from [formatUnits]: cutting the trailing zeros of the fraction
    loses nothing. *)
Theorem formatUnits_distinct (a b d : Z) :
  0 <= a -> 0 <= b -> 0 < d <= max_decimals -> a <> b ->
  TokenBalances.formatUnits a (Num d) <> TokenBalances.formatUnits b (Num d).
Proof.
  intros Ha Hb Hdec Hne Hab. apply Hne.
  assert (0 < d < 2 ^ 53) as Hd by (unfold max_decimals in Hdec; lia).
  destruct (formatUnits_parts a d Ha Hd) as (Ta & ka & Ea & _ & Hda & Hla & Hva).
  destruct (formatUnits_parts b d Hb Hd) as (Tb & kb & Eb & _ & Hdb & Hlb & Hvb).
  assert (0 < 10 ^ d) as Hbase by (apply Z.pow_pos_nonneg; lia).
  destruct (toString_decimal (a / 10 ^ d)) as [Hwa Vwa]; [apply Z.div_pos; lia|].
  destruct (toString_decimal (b / 10 ^ d)) as [Hwb Vwb]; [apply Z.div_pos; lia|].
  rewrite Ea, Eb in Hab. injection Hab as Hab.
  assert (BigInt_toString (a / 10 ^ d) = BigInt_toString (b / 10 ^ d) /\ Ta = Tb)
    as [Hw Ht].
  { destruct Ta as [|xa Ta], Tb as [|xb Tb].
    - done.
    - exfalso. apply (is_decimal_no_dot _ Hwa). rewrite Hab.
      apply elem_of_app. right. left.
    - exfalso. apply (is_decimal_no_dot _ Hwb). rewrite <- Hab.
      apply elem_of_app. right. left.
    - apply split_at_dot in Hab; [done| |]; by apply is_decimal_no_dot. }
  subst Tb. assert (ka = kb) as -> by lia.
  rewrite Hw in Vwa.
  pose proof (Z.div_mod a (10 ^ d)). pose proof (Z.div_mod b (10 ^ d)). lia.
Qed.

(** X11 on 1 and 10 units of a 1-decimal token, whose texts "0.1" and "1"
    differ. *)
Lemma formatUnits_distinct_sample :
  TokenBalances.formatUnits 1 (Num 1) <> TokenBalances.formatUnits 10 (Num 1).
Proof. apply (formatUnits_distinct 1 10 1); unfold max_decimals; lia. Defined.

(** X12. With 18 decimals, [formatUnits] of the ERC-20 panel writes what
    [formatEtherFixed18] of the page writes, without the trailing zeros of
    the fraction and without the dot when the fraction is zero. *)
Theorem formatUnits_strips_fixed18 (wei : Z) :
  0 <= wei ->
  TokenBalances.formatUnits wei (Num 18)
  = Return (strip_fraction (Page.formatEtherFixed18 wei)).
Proof.
  intros Hwei.
  destruct (formatUnits_parts wei 18 Hwei ltac:(lia))
    as (T & k & E & Htrim & Hdec & _ & _).
  destruct (formatEtherFixed18_parts wei Hwei) as (Ef & Hw & _).
  rewrite E, Ef. f_equal. unfold strip_fraction.
  set (frac := padStart _ _ _) in *.
  set (whole := BigInt_toString _) in *.
  destruct T as [|x T].
  - rewrite app_assoc, (replace_trailing_zeros_app_zeros _ frac Htrim).
    rewrite replace_trailing_zeros_dot.
    change (lit ".") with [46]. rewrite last_snoc. simpl.
    by rewrite removelast_last.
  - assert (replace_trailing_zeros frac <> []) as Hne by (by rewrite Htrim).
    rewrite (app_assoc whole (lit ".") frac), (replace_trailing_zeros_app _ frac Hne).
    rewrite Htrim, <- app_assoc.
    rewrite (app_assoc whole (lit ".") (x :: T)), last_app_nonempty by done.
    destruct (exists_last (l := x :: T) ltac:(done)) as (T' & c & HT).
    rewrite HT, last_snoc.
    assert (c <> 46) as Hc.
    { rewrite HT in Hdec. apply Forall_app in Hdec as [_ Hc].
      inversion Hc as [|? ? Hr _]. lia. }
    by destruct (Z.eqb_spec c 46).
Qed.

(** X12 on one ether and a half. *)
Lemma formatUnits_strips_fixed18_sample :
  TokenBalances.formatUnits 1500000000000000000 (Num 18)
  = Return (strip_fraction (Page.formatEtherFixed18 1500000000000000000)).
Proof. apply formatUnits_strips_fixed18. lia. Defined.

End FormatterProperties.

(* ===================================================================== *)
(** * The handlers of a panel                                             *)
(* ===================================================================== *)

Section Handlers.
Import Rpc Panel.

Context {Meta Q : Type}.
Variable address : Meta -> jsstring.
Variable getMeta : jsstring -> async Q (fetch_result RpcResponse) Meta.
Variable getBalance : jsstring -> jsstring -> async Q (fetch_result RpcResponse) Z.
Variable display : Meta -> Z -> completion jsstring.

Lemma kept_by_remove (addr : jsstring) (t : Meta) :
  Is_true (negb (same_address address addr t))
  <-> toLowerCase (address t) <> toLowerCase addr.
Proof.
  unfold same_address. rewrite negb_True. by rewrite bool_decide_spec.
Qed.

Lemma filter_idem (P : Meta -> Prop) `{!forall t, Decision (P t)} (l : list Meta) :
  filter P (filter P l) = filter P l.
Proof.
  induction l as [|t l IH]; [done|].
  rewrite filter_cons. destruct (decide (P t)) as [Ht|Ht]; [|done].
  rewrite filter_cons. destruct (decide (P t)); [|done]. by rewrite IH.
Qed.

Lemma same_address_refl (t : Meta) : same_address address (address t) t = true.
Proof. unfold same_address. by apply bool_decide_eq_true. Qed.

End Handlers.

Section SetterLiterals.
Import Rpc Panel.
Context {Meta : Type}.

Lemma set_tokens_literal (v : list Meta) inp toks act wal bal err ld rf upd :
  set_tokens v (Build_state inp toks act wal bal err ld rf upd)
  = Build_state inp v act wal bal err ld rf upd.
Proof. reflexivity. Qed.

Lemma set_balances_literal v inp (toks : list Meta) act wal bal err ld rf upd :
  set_balances v (Build_state inp toks act wal bal err ld rf upd)
  = Build_state inp toks act wal v err ld rf upd.
Proof. reflexivity. Qed.

Lemma set_walletByToken_literal v inp (toks : list Meta) act wal bal err ld rf upd :
  set_walletByToken v (Build_state inp toks act wal bal err ld rf upd)
  = Build_state inp toks act v bal err ld rf upd.
Proof. reflexivity. Qed.

Lemma set_activeAddr_literal v inp (toks : list Meta) act wal bal err ld rf upd :
  set_activeAddr v (Build_state inp toks act wal bal err ld rf upd)
  = Build_state inp toks v wal bal err ld rf upd.
Proof. reflexivity. Qed.

End SetterLiterals.

Section HandlerProperties.
Import Rpc Panel.

(** X13. [removeToken(addr)] removes from the registry every entry whose
    address equals [addr] up to the case of its letters and keeps the
    others in their order; it forgets the balance stored for the lowercase
    address and the wallet text stored under [addr] as written, and no
    other entry of the two maps; the active tab is cleared when it was
    [addr] up to case and kept otherwise; removing twice is removing
    once. *)
Theorem removeToken_effect {Meta : Type} (address : Meta -> jsstring)
    (addr : jsstring) (s : @state Meta) :
  let s' := removeToken address addr s in
  (forall t, t ∈ tokens s' <->
             t ∈ tokens s /\ toLowerCase (address t) <> toLowerCase addr)
  /\ tokens s' `sublist_of` tokens s
  /\ balances s' !! toLowerCase addr = None
  /\ (forall k, k <> toLowerCase addr -> balances s' !! k = balances s !! k)
  /\ walletByToken s' !! addr = None
  /\ (forall k, k <> addr -> walletByToken s' !! k = walletByToken s !! k)
  /\ (forall a, activeAddr s' = Some a ->
        activeAddr s = Some a /\ (a = [] \/ toLowerCase a <> toLowerCase addr))
  /\ (activeAddr s' = None ->
        activeAddr s = None
        \/ exists a, activeAddr s = Some a /\ toLowerCase a = toLowerCase addr)
  /\ removeToken address addr s' = s'.
Proof.
  intros s'. subst s'. destruct s as [inp toks act wal bal err ld rf upd].
  unfold removeToken. cbn.
  split.
  { intros t. rewrite list_elem_of_filter, kept_by_remove. tauto. }
  split; [apply sublist_filter|].
  split; [apply lookup_delete_eq|].
  split; [intros k Hk; by apply lookup_delete_ne|].
  split; [apply lookup_delete_eq|].
  split; [intros k Hk; by apply lookup_delete_ne|].
  split.
  { intros a Ha. destruct act as [[|c cur]|]; [|case_bool_decide|]; simplify_eq.
    - split; [done|by left].
    - split; [done|by right]. }
  split.
  { intros Ha. destruct act as [[|c cur]|]; [done| |by left].
    case_bool_decide; [|done]. right. by eexists. }
  repeat first [rewrite set_tokens_literal | rewrite set_balances_literal
                | rewrite set_walletByToken_literal | rewrite set_activeAddr_literal].
  f_equal; first [apply filter_idem | apply delete_delete_eq | idtac].
  destruct act as [[|c cur]|]; [done| |done].
  case_bool_decide as H1; [done|]. by rewrite bool_decide_false.
Qed.

(** X14. The effect that keeps the active tab valid leaves the registry as
    it is and, when the registry is not empty, leaves an active address
    that is registered (up to case): the one that was active if it was
    registered, otherwise the first entry.  With an empty registry nothing
    is active.  Running the effect again changes nothing. *)
Theorem keep_active_valid_effect {Meta : Type} (address : Meta -> jsstring)
    (s : @state Meta) :
  let s' := keep_active_valid address s in
  tokens s' = tokens s
  /\ (tokens s <> [] ->
       exists a, activeAddr s' = Some a
                 /\ existsb (same_address address a) (tokens s) = true)
  /\ (tokens s = [] -> activeAddr s' = None \/ activeAddr s' = Some [])
  /\ (forall a, a <> [] -> activeAddr s = Some a ->
        existsb (same_address address a) (tokens s) = true -> s' = s)
  /\ keep_active_valid address s' = s'.
Proof.
  intros s'. subst s'. destruct s as [inp toks act wal bal err ld rf upd].
  unfold keep_active_valid. cbn [activeAddr tokens].
  assert (forall t l, existsb (same_address address (address t)) (t :: l) = true)
    as Hhead by (intros t l; cbn [existsb]; by rewrite same_address_refl).
  destruct act as [[|c a]|].
  - destruct toks as [|t toks]; rewrite ?set_activeAddr_literal;
      cbn [activeAddr tokens].
    + repeat split; try done. by right.
    + split; [done|]. split; [intros _; by exists (address t)|].
      split; [done|]. split; [intros b Hb Heq; congruence|].
      rewrite ?set_activeAddr_literal.
      specialize (Hhead t toks).
      destruct (address t) as [|c a]; [done|]. by rewrite Hhead.
  - destruct (existsb (same_address address (c :: a)) toks) eqn:Hex;
      cbn [activeAddr tokens].
    + split; [done|]. split; [intros _; by eexists|].
      split; [by destruct toks|]. split; [done|]. by rewrite Hex.
    + rewrite ?set_activeAddr_literal. cbn [activeAddr tokens].
      split; [done|]. split.
      * intros Hne. destruct toks as [|t toks]; [done|]. by exists (address t).
      * split; [intros ->; by left|]. split; [intros b _ [= <-]; congruence|].
        destruct toks as [|t toks]; [done|]. cbn [head option_map].
        rewrite ?set_activeAddr_literal.
        specialize (Hhead t toks).
        destruct (address t) as [|c' a']; [done|]. by rewrite Hhead.
  - destruct toks as [|t toks]; rewrite ?set_activeAddr_literal;
      cbn [activeAddr tokens].
    + repeat split; try done. by left.
    + split; [done|]. split; [intros _; by exists (address t)|].
      split; [done|]. split; [intros b Hb Heq; congruence|].
      rewrite ?set_activeAddr_literal.
      specialize (Hhead t toks).
      destruct (address t) as [|c a]; [done|]. by rewrite Hhead.
Qed.

End HandlerProperties.

Section RefreshAndRegistration.
Import Rpc Panel.

Context {Meta Q : Type}.
Variable address : Meta -> jsstring.
Variable getMeta : jsstring -> async Q (fetch_result RpcResponse) Meta.
Variable getBalance : jsstring -> jsstring -> async Q (fetch_result RpcResponse) Z.
Variable display : Meta -> Z -> completion jsstring.

Ltac state_literal :=
  cbn [ui pending tokenInput tokens activeAddr walletByToken balances error
       loadingToken isRefreshing updatedAt set_tokenInput set_tokens
       set_activeAddr set_walletByToken set_balances set_error set_loadingToken
       set_isRefreshing set_updatedAt] in *.

Lemma activeWallet_set_isRefreshing (v : bool) (s : @state Meta) :
  activeWallet (set_isRefreshing v s) = activeWallet s.
Proof. reflexivity. Qed.

Lemma validWallet_set_isRefreshing (v : bool) (s : @state Meta) :
  validWallet (set_isRefreshing v s) = validWallet s.
Proof. reflexivity. Qed.

Lemma refresh_keeps (now : Z) (w : @world Meta Q) :
  let w' := refresh address getBalance now w in
  tokens (ui w') = tokens (ui w)
  /\ activeAddr (ui w') = activeAddr (ui w)
  /\ walletByToken (ui w') = walletByToken (ui w)
  /\ loadingToken (ui w') = loadingToken (ui w).
Proof.
  destruct w as [s pend]. destruct s as [inp toks act wal bal err ld rf upd]. cbv zeta. unfold refresh.
  cbn [ui pending]. rewrite validWallet_set_isRefreshing.
  state_literal.
  destruct act as [[|c a]|]; try done.
  destruct (find (same_address address (c :: a)) toks); try done.
  destruct (validWallet _); done.
Qed.

Lemma refresh_invalid_wallet (now : Z) (w : @world Meta Q) :
  validWallet (ui w) = false ->
  let w' := refresh address getBalance now w in
  pending w' = pending w
  /\ isRefreshing (ui w') = false
  /\ (forall a meta,
        activeAddr (ui w) = Some a -> a <> [] ->
        find (same_address address a) (tokens (ui w)) = Some meta ->
        balances (ui w') !! toLowerCase a = Some None
        /\ updatedAt (ui w') = Some now).
Proof.
  destruct w as [s pend]. destruct s as [inp toks act wal bal err ld rf upd]. cbn [ui pending]. intros Hinvalid. cbv zeta. unfold refresh.
  cbn [ui pending]. rewrite validWallet_set_isRefreshing, Hinvalid.
  state_literal.
  destruct act as [[|c a]|].
  - split; [done|]. split; [done|]. by intros b meta' [= <-] Hb.
  - destruct (find (same_address address (c :: a)) toks) as [meta|] eqn:Hfind.
    + cbn [negb]. state_literal. split; [done|]. split; [done|].
      intros b meta' [= <-] _ _. split; [|done]. apply lookup_insert_eq.
    + split; [done|]. split; [done|]. intros b meta' [= <-] _ Hf. congruence.
  - split; [done|]. split; [done|]. by intros b meta' [=].
Qed.

Lemma refresh_valid_wallet (now : Z) (w : @world Meta Q) (a : jsstring) (meta : Meta) :
  validWallet (ui w) = true ->
  activeAddr (ui w) = Some a -> a <> [] ->
  find (same_address address a) (tokens (ui w)) = Some meta ->
  let w' := refresh address getBalance now w in
  pending w'
  = pending w ++ [Refreshing meta false (getBalance (address meta) (activeWallet (ui w)))]
  /\ balances (ui w') = balances (ui w)
  /\ isRefreshing (ui w') = true.
Proof.
  destruct w as [s pend]. destruct s as [inp toks act wal bal err ld rf upd]. cbn [ui pending]. intros Hvalid Hact Hne Hfind.
  cbv zeta. unfold refresh.
  cbn [ui pending]. rewrite validWallet_set_isRefreshing, Hvalid.
  rewrite activeWallet_set_isRefreshing.
  state_literal.
  subst act. destruct a as [|c a]; [done|]. rewrite Hfind. done.
Qed.

Lemma refresh_nothing_active (now : Z) (w : @world Meta Q) :
  (forall a meta, activeAddr (ui w) = Some a -> a <> [] ->
     find (same_address address a) (tokens (ui w)) = Some meta -> False) ->
  let w' := refresh address getBalance now w in
  pending w' = pending w
  /\ balances (ui w') = balances (ui w)
  /\ isRefreshing (ui w') = false.
Proof.
  destruct w as [s pend]. destruct s as [inp toks act wal bal err ld rf upd]. cbn [ui pending]. intros Hnone. cbv zeta. unfold refresh.
  cbn [ui pending].
  state_literal.
  destruct act as [[|c a]|]; try done.
  destruct (find (same_address address (c :: a)) toks) as [meta|] eqn:Hfind;
    [|done].
  exfalso. by apply (Hnone (c :: a) meta).
Qed.


Lemma run_nil_done {A} (p : async Q (fetch_result RpcResponse) A) (c : completion A) :
  run p [] = Some c -> p = Done c.
Proof. destruct p; simpl; [by intros [= ->]|done]. Qed.

Lemma run_feed {A} (p : async Q (fetch_result RpcResponse) A) r rest (c : completion A) :
  run p (r :: rest) = Some c -> run (feed p r) rest = Some c.
Proof. destruct p as [c'|q k]; simpl; [|done]. intros [= ->]. by destruct rest. Qed.

Lemma run_done {A} (c c' : completion A) answers :
  run (Q := Q) (R := fetch_result RpcResponse) (Done c) answers = Some c' -> c = c'.
Proof. destruct answers; simpl; by intros [= ->]. Qed.

Lemma addToken_starts (w : @world Meta Q) (addr : jsstring) :
  pending w = [] ->
  trim (tokenInput (ui w)) = addr ->
  isAddress addr = true ->
  existsb (same_address address addr) (tokens (ui w)) = false ->
  addToken address getMeta w
  = {| ui := set_loadingToken true (set_error None (ui w));
       pending := [Adding (getMeta addr)] |}.
Proof.
  destruct w as [s pend]. cbn [ui pending].
  intros -> Htrim Hvalid Hfresh. unfold addToken. cbn [ui pending].
  change (tokenInput (set_error None s)) with (tokenInput s).
  change (tokens (set_error None s)) with (tokens s).
  by rewrite Htrim, Hvalid, Hfresh.
Qed.

Lemma answer_adding (now : Z) (r : fetch_result RpcResponse) (s : @state Meta)
    (p : async Q (fetch_result RpcResponse) Meta) :
  answer address display now 0 r {| ui := s; pending := [Adding p] |}
  = match feed p r with
    | Done c => {| ui := addToken_resume address c s; pending := [] |}
    | p' => {| ui := s; pending := [Adding p'] |}
    end.
Proof. unfold answer. cbn [pending lookup list_lookup ui]. by destruct (feed p r). Qed.

Lemma answer_idle (now : Z) (i : nat) (r : fetch_result RpcResponse) (s : @state Meta) :
  answer (Q := Q) address display now i r {| ui := s; pending := [] |}
  = {| ui := s; pending := [] |}.
Proof. unfold answer. by destruct i. Qed.

Lemma registration_succeeds (w : @world Meta Q) (addr : jsstring) now1 now2 now3
    r1 r2 (meta : Meta) :
  pending w = [] ->
  trim (tokenInput (ui w)) = addr ->
  isAddress addr = true ->
  existsb (same_address address addr) (tokens (ui w)) = false ->
  run (getMeta addr) [r1; r2] = Some (Return meta) ->
  let w3 := step address getMeta getBalance display now3 (Answer 0 r2)
              (step address getMeta getBalance display now2 (Answer 0 r1)
                 (step address getMeta getBalance display now1 AddToken w)) in
  tokens (ui w3) = tokens (ui w) ++ [meta]
  /\ activeAddr (ui w3) = Some (address meta)
  /\ tokenInput (ui w3) = []
  /\ loadingToken (ui w3) = false
  /\ pending w3 = [].
Proof.
  intros Hpend Htrim Hvalid Hfresh Hrun. cbv zeta. cbn [step].
  rewrite (addToken_starts w addr) by done.
  apply run_feed in Hrun. rewrite answer_adding.
  destruct (feed (getMeta addr) r1) as [c1|q k] eqn:Hfeed.
  - apply run_done in Hrun. subst c1. by rewrite answer_idle.
  - rewrite answer_adding.
    apply run_feed, run_nil_done in Hrun. by rewrite Hrun.
Qed.

Lemma registration_fails (w : @world Meta Q) (addr : jsstring) now1 now2 r1 (e : exn) :
  pending w = [] ->
  trim (tokenInput (ui w)) = addr ->
  isAddress addr = true ->
  existsb (same_address address addr) (tokens (ui w)) = false ->
  run (getMeta addr) [r1] = Some (Throw e) ->
  let w2 := step address getMeta getBalance display now2 (Answer 0 r1)
              (step address getMeta getBalance display now1 AddToken w) in
  tokens (ui w2) = tokens (ui w)
  /\ error (ui w2) = Some (MetadataFailed e)
  /\ loadingToken (ui w2) = false
  /\ pending w2 = [].
Proof.
  intros Hpend Htrim Hvalid Hfresh Hrun. cbv zeta. cbn [step].
  rewrite (addToken_starts w addr) by done.
  apply run_feed, run_nil_done in Hrun.
  rewrite answer_adding. by rewrite Hrun.
Qed.

Lemma addToken_rejects (w : @world Meta Q) :
  let addr := trim (tokenInput (ui w)) in
  let w' := addToken address getMeta w in
  (isAddress addr = false ->
     error (ui w') = Some InvalidAddress
     /\ pending w' = pending w /\ tokens (ui w') = tokens (ui w)
     /\ loadingToken (ui w') = loadingToken (ui w))
  /\ (isAddress addr = true ->
      existsb (same_address address addr) (tokens (ui w)) = true ->
      error (ui w') = Some AlreadyRegistered
      /\ pending w' = pending w /\ tokens (ui w') = tokens (ui w)
      /\ loadingToken (ui w') = loadingToken (ui w)).
Proof.
  destruct w as [s pend]. cbv zeta. unfold addToken. cbn [ui pending].
  change (tokenInput (set_error None s)) with (tokenInput s).
  change (tokens (set_error None s)) with (tokens s).
  split.
  - by intros ->.
  - by intros -> ->.
Qed.

Lemma returns_address_run (addr : jsstring)
    (p : async Q (fetch_result RpcResponse) Meta) answers (meta : Meta) :
  returns_address address addr p ->
  run p answers = Some (Return meta) -> address meta = addr.
Proof.
  revert answers. induction p as [c|q k IH]; intros answers Hret Hrun.
  - apply run_done in Hrun. by subst c.
  - destruct answers as [|r rest]; [done|]. cbn [run] in Hrun.
    apply (IH r rest); [apply Hret|done].
Qed.

Lemma answer_refreshing (now : Z) (r : fetch_result RpcResponse) (s : @state Meta)
    (meta : Meta) (cancelled : bool) (p : async Q (fetch_result RpcResponse) Z) :
  answer address display now 0 r {| ui := s; pending := [Refreshing meta cancelled p] |}
  = match feed p r with
    | Done c => {| ui := refresh_resume address display now meta cancelled c s;
                   pending := [] |}
    | p' => {| ui := s; pending := [Refreshing meta cancelled p'] |}
    end.
Proof. unfold answer. cbn [pending lookup list_lookup ui]. by destruct (feed p r). Qed.

Lemma found_same_address (a : jsstring) (ts : list Meta) (meta : Meta) :
  find (same_address address a) ts = Some meta ->
  toLowerCase (address meta) = toLowerCase a.
Proof.
  intros H. apply find_some in H as [_ H]. unfold same_address in H.
  by apply bool_decide_eq_true in H.
Qed.

Lemma refresh_then_answer (w : @world Meta Q) (a : jsstring) (meta : Meta)
    (now1 now2 : Z) r (c : completion Z) :
  pending w = [] ->
  validWallet (ui w) = true ->
  activeAddr (ui w) = Some a -> a <> [] ->
  find (same_address address a) (tokens (ui w)) = Some meta ->
  run (getBalance (address meta) (activeWallet (ui w))) [r] = Some c ->
  step address getMeta getBalance display now2 (Answer 0 r)
    (step address getMeta getBalance display now1 Refresh w)
  = {| ui := refresh_resume address display now2 meta false c
               (set_isRefreshing true (ui w));
       pending := [] |}.
Proof.
  destruct w as [s pend]. cbn [ui pending].
  intros -> Hvalid Hact Hne Hfind Hrun. cbn [step]. unfold refresh.
  cbn [ui pending]. rewrite validWallet_set_isRefreshing, Hvalid.
  rewrite activeWallet_set_isRefreshing.
  change (activeAddr (set_isRefreshing true s)) with (activeAddr s).
  change (tokens (set_isRefreshing true s)) with (tokens s).
  rewrite Hact. destruct a as [|u a]; [done|]. rewrite Hfind. cbn [negb app].
  rewrite answer_refreshing.
  apply run_feed, run_nil_done in Hrun. by rewrite Hrun.
Qed.

Lemma refresh_resume_effect (now : Z) (meta : Meta) (c : completion Z) (s : @state Meta) :
  let s' := refresh_resume address display now meta false c s in
  isRefreshing s' = false
  /\ updatedAt s' = Some now
  /\ tokens s' = tokens s
  /\ activeAddr s' = activeAddr s
  /\ walletByToken s' = walletByToken s
  /\ balances s' !! toLowerCase (address meta)
     = Some (match cbind c (fun raw => display meta raw) with
             | Return text => Some text
             | Throw _ => None
             end)
  /\ (forall k, k <> toLowerCase (address meta) -> balances s' !! k = balances s !! k).
Proof.
  cbv zeta. unfold refresh_resume. destruct s as [inp toks act wal bal err ld rf upd].
  destruct (cbind c (fun raw => display meta raw)); cbn [negb]; state_literal;
    (repeat (split; [done|])); (split; [apply lookup_insert_eq|]);
    intros k Hk; by apply lookup_insert_ne.
Qed.

End RefreshAndRegistration.

Section PanelBehaviour.
Import Rpc Panel.

(** X15. [refresh] issues a request exactly when a registered token is
    active and its wallet text is a valid address: the request is
    [getBalance(meta.address, activeWallet)] for the registered entry, it
    is suspended with [cancelled = false], and the balance store is left as
    it is until the answer.  With an invalid wallet no request is issued
    and the balance of the active registered token becomes [null]; with no
    registered token active nothing is issued or written.  In no case does
    [refresh] change the registry, the active tab or the wallet texts. *)
Theorem refresh_request_gate {Meta Q : Type} (address : Meta -> jsstring)
    (getBalance : jsstring -> jsstring -> async Q (fetch_result RpcResponse) Z)
    (now : Z) (w : @world Meta Q) :
  let w' := refresh address getBalance now w in
  (tokens (ui w') = tokens (ui w)
   /\ activeAddr (ui w') = activeAddr (ui w)
   /\ walletByToken (ui w') = walletByToken (ui w)
   /\ loadingToken (ui w') = loadingToken (ui w))
  /\ (forall a meta,
        validWallet (ui w) = true ->
        activeAddr (ui w) = Some a -> a <> [] ->
        find (same_address address a) (tokens (ui w)) = Some meta ->
        pending w'
        = pending w
          ++ [Refreshing meta false (getBalance (address meta) (activeWallet (ui w)))]
        /\ balances (ui w') = balances (ui w)
        /\ isRefreshing (ui w') = true)
  /\ (validWallet (ui w) = false ->
        pending w' = pending w
        /\ isRefreshing (ui w') = false
        /\ (forall a meta,
              activeAddr (ui w) = Some a -> a <> [] ->
              find (same_address address a) (tokens (ui w)) = Some meta ->
              balances (ui w') !! toLowerCase a = Some None
              /\ updatedAt (ui w') = Some now))
  /\ ((forall a meta, activeAddr (ui w) = Some a -> a <> [] ->
         find (same_address address a) (tokens (ui w)) = Some meta -> False) ->
        pending w' = pending w
        /\ balances (ui w') = balances (ui w)
        /\ isRefreshing (ui w') = false).
Proof.
  cbv zeta. split; [apply refresh_keeps|]. split.
  - intros a meta Hvalid Hact Hne Hfind. by apply (refresh_valid_wallet address getBalance now w a meta).
  - split.
    + intros Hinvalid. by apply refresh_invalid_wallet.
    + intros Hnone. by apply refresh_nothing_active.
Qed.

(** X16. Registration from a state with nothing in flight.  When the
    trimmed input is a valid address that is not registered (up to case),
    [addToken] starts [getMeta] for it and sets [loadingToken]; when the
    metadata arrives, the record is appended at the end of the registry,
    its address becomes the active tab, the input is cleared and
    [loadingToken] is reset; when the fetch throws, the registry is as
    before, the error is shown and [loadingToken] is reset.  An input that
    is not an address, or that is registered already, starts no request and
    changes only the error shown.  The record [getTokenMeta] and
    [getNftMeta] return carries the address that was asked for. *)
Theorem registration_outcome :
  (forall (Meta Q : Type) (address : Meta -> jsstring)
          (getMeta : jsstring -> async Q (fetch_result RpcResponse) Meta)
          (getBalance : jsstring -> jsstring -> async Q (fetch_result RpcResponse) Z)
          (display : Meta -> Z -> completion jsstring)
          (w : @world Meta Q) (addr : jsstring) (now1 now2 now3 : Z),
     pending w = [] ->
     trim (tokenInput (ui w)) = addr ->
     isAddress addr = true ->
     existsb (same_address address addr) (tokens (ui w)) = false ->
     let w1 := step address getMeta getBalance display now1 AddToken w in
     (pending w1 = [Adding (getMeta addr)]
      /\ loadingToken (ui w1) = true
      /\ tokens (ui w1) = tokens (ui w))
     /\ (forall r1 r2 meta,
           run (getMeta addr) [r1; r2] = Some (Return meta) ->
           let w3 := step address getMeta getBalance display now3 (Answer 0 r2)
                       (step address getMeta getBalance display now2 (Answer 0 r1) w1) in
           tokens (ui w3) = tokens (ui w) ++ [meta]
           /\ activeAddr (ui w3) = Some (address meta)
           /\ tokenInput (ui w3) = []
           /\ loadingToken (ui w3) = false
           /\ pending w3 = [])
     /\ (forall r1 e,
           run (getMeta addr) [r1] = Some (Throw e) ->
           let w2 := step address getMeta getBalance display now2 (Answer 0 r1) w1 in
           tokens (ui w2) = tokens (ui w)
           /\ error (ui w2) = Some (MetadataFailed e)
           /\ loadingToken (ui w2) = false
           /\ pending w2 = []))
  /\ (forall (Meta Q : Type) (address : Meta -> jsstring)
             (getMeta : jsstring -> async Q (fetch_result RpcResponse) Meta)
             (w : @world Meta Q),
        let addr := trim (tokenInput (ui w)) in
        let w' := addToken address getMeta w in
        (isAddress addr = false ->
           error (ui w') = Some InvalidAddress
           /\ pending w' = pending w /\ tokens (ui w') = tokens (ui w)
           /\ loadingToken (ui w') = loadingToken (ui w))
        /\ (isAddress addr = true ->
            existsb (same_address address addr) (tokens (ui w)) = true ->
            error (ui w') = Some AlreadyRegistered
            /\ pending w' = pending w /\ tokens (ui w') = tokens (ui w)
            /\ loadingToken (ui w') = loadingToken (ui w)))
  /\ (forall addr answers meta,
        run (TokenBalances.getTokenMeta addr) answers = Some (Return meta) ->
        TokenBalances.address meta = addr)
  /\ (forall addr answers meta,
        run (NFTBalances.getNftMeta addr) answers = Some (Return meta) ->
        NFTBalances.address meta = addr).
Proof.
  split.
  { intros Meta Q address getMeta getBalance display w addr now1 now2 now3
           Hpend Htrim Hvalid Hfresh. cbv zeta. split; [|split].
    - cbn [step]. by rewrite (addToken_starts address getMeta w addr).
    - intros r1 r2 meta Hrun.
      by apply (registration_succeeds address getMeta getBalance display w addr).
    - intros r1 e Hrun.
      by apply (registration_fails address getMeta getBalance display w addr). }
  split; [intros; apply addToken_rejects|].
  split.
  - intros addr answers meta.
    apply returns_address_run, getTokenMeta_address.
  - intros addr answers meta.
    apply returns_address_run, getNftMeta_address.
Qed.

(** X16 on a sample: the token typed into an empty ERC-20 panel, [decimals()]
    answered 18 and [symbol()] answered "USDC". *)
Lemma registration_outcome_sample :
  let w := TokenPanel.step 0 (Input sample_token) (init []) in
  let w3 := TokenPanel.step 3 (Answer 0 symbol_reply)
              (TokenPanel.step 2 (Answer 0 decimals_reply)
                 (TokenPanel.step 1 AddToken w)) in
  tokens (ui w3) = tokens (ui w) ++ [sample_meta]
  /\ activeAddr (ui w3) = Some (TokenBalances.address sample_meta)
  /\ tokenInput (ui w3) = []
  /\ loadingToken (ui w3) = false
  /\ pending w3 = [].
Proof.
  cbv zeta. destruct registration_outcome as [H _].
  assert (trim (tokenInput (ui (TokenPanel.step 0 (Input sample_token) (init []))))
          = sample_token) as Htrim by (vm_compute; reflexivity).
  assert (isAddress sample_token = true) as Hvalid by (vm_compute; reflexivity).
  destruct (H _ _ TokenBalances.address TokenBalances.getTokenMeta
              TokenBalances.getTokenBalance TokenPanel.display
              (TokenPanel.step 0 (Input sample_token) (init [])) sample_token 1 2 3
              eq_refl Htrim Hvalid eq_refl) as (_ & Hok & _).
  apply (Hok decimals_reply symbol_reply sample_meta).
  vm_compute. reflexivity.
Defined.

(** X17. [getTokenMeta] on a node that answers well-formed words: when
    [decimals()] returns hex digits whose value is below 2^53 and
    [symbol()] returns either a 32-byte word (64 hex digits) with a
    non-zero first byte or a dynamic string (more than 64 hex digits, at
    most [max_spread_bytes] bytes to decode) that is not empty, the record
    holds that value as [decimals] and, as [symbol], the bytes before the
    first zero byte, respectively the payload bytes; a dynamic string
    without bytes gives the symbol ["?"]. *)
Theorem getTokenMeta_well_formed (address : jsstring) r1 r2 (w data : jsstring) :
  TokenBalances.rpc_result r1 = Return (lit "0x" ++ w) ->
  TokenBalances.rpc_result r2 = Return (lit "0x" ++ data) ->
  is_hex w -> w <> [] -> hex_value w < 2 ^ 53 -> is_hex data ->
  (length data = 64%nat -> until_zero (hex_bytes data) <> [] ->
     run (TokenBalances.getTokenMeta address) [r1; r2]
     = Some (Return {| TokenBalances.address := address;
                       TokenBalances.symbol := until_zero (hex_bytes data);
                       TokenBalances.decimals := Num (hex_value w) |}))
  /\ ((64 < length data)%nat -> jslength data < 2 ^ 53 ->
      jslength (payload_bytes data) <= max_spread_bytes -> payload_bytes data <> [] ->
        run (TokenBalances.getTokenMeta address) [r1; r2]
        = Some (Return {| TokenBalances.address := address;
                          TokenBalances.symbol := payload_bytes data;
                          TokenBalances.decimals := Num (hex_value w) |}))
  /\ ((64 < length data)%nat -> jslength data < 2 ^ 53 -> payload_bytes data = [] ->
        run (TokenBalances.getTokenMeta address) [r1; r2]
        = Some (Return {| TokenBalances.address := address;
                          TokenBalances.symbol := lit "?";
                          TokenBalances.decimals := Num (hex_value w) |})).
Proof.
  intros Hr1 Hr2 Hw Hne Hsmall Hdata.
  assert (TokenBalances.hexToBigInt (lit "0x" ++ w) = Return (hex_value w)) as Hbig
    by (by apply BigInt_hex_word).
  assert (stored_decimals (hex_value w) = Num (hex_value w)) as Hdec.
  { unfold stored_decimals, Number_of_BigInt.
    pose proof (hex_value_nonneg w). by rewrite F_small by lia. }
  destruct (getTokenMeta_after_decimals address r1 r2 [] _ _ Hr1 Hbig)
    as (symbol & Hrun & Hfail & Hok).
  rewrite Hdec in Hrun.
  split; [|split].
  - intros Hlen Hkept.
    rewrite (Hok _ (until_zero (hex_bytes data)) Hr2) in Hrun; [done| |done].
    rewrite token_decode_bytes32_hex by done.
    by destruct (until_zero (hex_bytes data)).
  - intros Hlong Hlen _ Hpay.
    rewrite (Hok _ (payload_bytes data) Hr2) in Hrun; [done| |done].
    by apply token_decode_dynamic_hex.
  - intros Hlong Hlen Hpay.
    unfold TokenBalances.getTokenMeta, TokenBalances.rpcCall.
    cbn [abind atry run]. rewrite Hr1. cbn [abind]. rewrite Hbig. cbn [abind atry run].
    rewrite Hr2. cbn [abind atry run].
    rewrite token_decode_dynamic_hex by done. rewrite Hpay. cbn [abind atry run].
    fold (stored_decimals (hex_value w)). by rewrite Hdec.
Qed.

(** X17 on the replies of a USDC-like token. *)
Lemma getTokenMeta_well_formed_sample :
  run (TokenBalances.getTokenMeta sample_token) [decimals_reply; symbol_reply]
  = Some (Return sample_meta).
Proof.
  assert (is_hex (lit "12")) as Hw by (apply is_hex_forallb; reflexivity).
  assert (is_hex (drop 2 usdc_bytes32)) as Hd
    by (apply is_hex_forallb; vm_compute; reflexivity).
  destruct (getTokenMeta_well_formed sample_token decimals_reply symbol_reply
              (lit "12") (drop 2 usdc_bytes32) eq_refl eq_refl Hw
              ltac:(discriminate) ltac:(vm_compute; reflexivity) Hd) as [H _].
  apply H; [reflexivity|vm_compute; discriminate].
Defined.

End PanelBehaviour.

Section RefreshRoundTrip.
Import Rpc Panel.

(** X18. A refresh and its answer.  From a state with nothing in flight,
    an active registered token and a valid wallet, [refresh] followed by
    the node's answer leaves nothing in flight, resets [isRefreshing],
    stamps [updatedAt] with the time of the answer and changes the balance
    of the active token only.  When the answer is ["0x"] followed by hex
    digits, the ERC-20 panel stores [formatUnits(value, meta.decimals)]
    ([null] when that throws) and the ERC-721 panel stores the decimal
    digits of the value; when [rpcCall] throws, both store [null]. *)
Theorem refresh_round_trip :
  (forall (w : TokenPanel.world) (a : jsstring) (meta : TokenBalances.TokenMeta)
          (now1 now2 : Z) (r : fetch_result RpcResponse),
     pending w = [] ->
     validWallet (ui w) = true ->
     activeAddr (ui w) = Some a -> a <> [] ->
     find (same_address TokenBalances.address a) (tokens (ui w)) = Some meta ->
     let w2 := TokenPanel.step now2 (Answer 0 r) (TokenPanel.step now1 Refresh w) in
     pending w2 = []
     /\ isRefreshing (ui w2) = false
     /\ updatedAt (ui w2) = Some now2
     /\ tokens (ui w2) = tokens (ui w)
     /\ (forall k, k <> toLowerCase a -> balances (ui w2) !! k = balances (ui w) !! k)
     /\ (forall hexw,
           TokenBalances.rpc_result r = Return (lit "0x" ++ hexw) ->
           is_hex hexw -> hexw <> [] ->
           balances (ui w2) !! toLowerCase a
           = Some (match TokenBalances.formatUnits (hex_value hexw)
                           (TokenBalances.decimals meta) with
                   | Return text => Some text
                   | Throw _ => None
                   end))
     /\ (forall e,
           TokenBalances.rpc_result r = Throw e ->
           balances (ui w2) !! toLowerCase a = Some None))
  /\ (forall (w : NFTPanel.world) (a : jsstring) (meta : NFTBalances.NftMeta)
             (now1 now2 : Z) (r : fetch_result RpcResponse),
        pending w = [] ->
        validWallet (ui w) = true ->
        activeAddr (ui w) = Some a -> a <> [] ->
        find (same_address NFTBalances.address a) (tokens (ui w)) = Some meta ->
        let w2 := NFTPanel.step now2 (Answer 0 r) (NFTPanel.step now1 Refresh w) in
        pending w2 = []
        /\ isRefreshing (ui w2) = false
        /\ updatedAt (ui w2) = Some now2
        /\ tokens (ui w2) = tokens (ui w)
        /\ (forall k, k <> toLowerCase a -> balances (ui w2) !! k = balances (ui w) !! k)
        /\ (forall hexw,
              TokenBalances.rpc_result r = Return (lit "0x" ++ hexw) ->
              is_hex hexw -> hexw <> [] ->
              balances (ui w2) !! toLowerCase a
              = Some (Some (BigInt_toString (hex_value hexw))))
        /\ (forall e,
              TokenBalances.rpc_result r = Throw e ->
              balances (ui w2) !! toLowerCase a = Some None)).
Proof.
  split.
  - intros w a meta now1 now2 r Hpend Hvalid Hact Hne Hfind. cbv zeta.
    unfold TokenPanel.step.
    rewrite (refresh_then_answer _ _ _ _ w a meta now1 now2 r _
               Hpend Hvalid Hact Hne Hfind (getTokenBalance_run _ _ r)).
    cbn [ui pending].
    pose proof (found_same_address _ _ _ _ Hfind) as Hkey.
    destruct (refresh_resume_effect TokenBalances.address TokenPanel.display now2 meta
                (cbind (TokenBalances.rpc_result r) TokenBalances.hexToBigInt)
                (set_isRefreshing true (ui w)))
      as (Hrf & Hupd & Htok & _ & _ & Hbal & Hother).
    rewrite Hkey in Hbal, Hother.
    split; [done|]. split; [done|]. split; [done|]. split; [done|].
    split; [exact Hother|]. split.
    + intros hexw Hr Hhex Hnonempty. rewrite Hbal, Hr. cbn [cbind].
      unfold TokenBalances.hexToBigInt. by rewrite BigInt_hex_word.
    + intros e Hr. by rewrite Hbal, Hr.
  - intros w a meta now1 now2 r Hpend Hvalid Hact Hne Hfind. cbv zeta.
    unfold NFTPanel.step.
    rewrite (refresh_then_answer _ _ _ _ w a meta now1 now2 r _
               Hpend Hvalid Hact Hne Hfind (getNftBalance_run _ _ r)).
    cbn [ui pending].
    pose proof (found_same_address _ _ _ _ Hfind) as Hkey.
    destruct (refresh_resume_effect NFTBalances.address NFTPanel.display now2 meta
                (cbind (TokenBalances.rpc_result r) TokenBalances.hexToBigInt)
                (set_isRefreshing true (ui w)))
      as (Hrf & Hupd & Htok & _ & _ & Hbal & Hother).
    rewrite Hkey in Hbal, Hother.
    split; [done|]. split; [done|]. split; [done|]. split; [done|].
    split; [exact Hother|]. split.
    + intros hexw Hr Hhex Hnonempty. rewrite Hbal, Hr. cbn [cbind].
      unfold TokenBalances.hexToBigInt. by rewrite BigInt_hex_word.
    + intros e Hr. by rewrite Hbal, Hr.
Qed.

(** X18 on a sample: the registered sample token with [wallet_1] typed in,
    and a node that answers 1.5 * 10^18. *)
Lemma refresh_round_trip_sample :
  let w := TokenPanel.step 0 (EditWallet sample_token wallet_1)
             (TokenPanel.step 0 KeepActiveValid (init [sample_meta])) in
  let w2 := TokenPanel.step 2 (Answer 0 (reply_ok (lit "0x14d1120d7b160000")))
              (TokenPanel.step 1 Refresh w) in
  balances (ui w2) !! toLowerCase sample_token = Some (Some (lit "1.5"))
  /\ updatedAt (ui w2) = Some 2
  /\ isRefreshing (ui w2) = false
  /\ pending w2 = [].
Proof.
  cbv zeta. destruct refresh_round_trip as [H _].
  assert (is_hex (lit "14d1120d7b160000")) as Hhex
    by (apply is_hex_forallb; reflexivity).
  destruct (H (TokenPanel.step 0 (EditWallet sample_token wallet_1)
                 (TokenPanel.step 0 KeepActiveValid (init [sample_meta])))
              sample_token sample_meta 1 2 (reply_ok (lit "0x14d1120d7b160000"))
              eq_refl ltac:(vm_compute; reflexivity) eq_refl ltac:(discriminate)
              ltac:(vm_compute; reflexivity))
    as (Hp & Hrf & Hupd & _ & _ & Hbal & _).
  split; [|by repeat split].
  rewrite (Hbal (lit "14d1120d7b160000") eq_refl Hhex ltac:(discriminate)).
  vm_compute. reflexivity.
Defined.

End RefreshRoundTrip.
